(** * httpstatus: the status-code service of [src/index.js]

    [src/index.js] holds two revisions of the service, one after the
    other: the earlier one (lines 1-279) and the later one (lines
    281-594).  The helpers [isValidStatusCode], [tryParseJSON],
    [getStatusDescription], [getMDNLink], [parseStatusCodeRange] and the
    redirect handler are the same text in both; the handlers of
    [/:code] and [/random/:range] differ and are embedded once per
    revision, in [Rev1] and [Rev2].

    The file is laid out as follows:
    - [JS]: the JavaScript built-ins the program calls (strings as
      UTF-16 code units, numbers as binary64 values, [Number],
      [parseInt], [String], [JSON.parse], [split], [includes], [trim],
      [toISOString]);
    - [Express]: the request, the response and the effects of a handler
      (clock, timer, random source), as a state monad over a [world];
    - [Index]: the functions and handlers of [index.js];
    - [Endpoints]: the four handlers under one interface;
    - [Spec]: the range parser in the words of the specification;
    - [Stated]: statements of the specification that the code does not
      bear out, as they are made;
    - [Setup]: the configuration read from the environment;
    - [App]: the layers of the application in the order they are
      registered, and the router that runs a request through them;
    - [Written], [Samples], [Described], [Kept]: texts, requests and
      predicates that the statements use;
    - the facts about the built-ins and the handlers, and the theorems
      on the specification, one per numbered statement;
    - further facts, and further properties of the code, numbered
      X1, X2 and so on. *)

From Stdlib Require Import ZArith List Bool Ascii String Lia.
Import ListNotations.

Local Open Scope Z_scope.
Set Warnings "-register-all".

(* ================================================================== *)
(** * JavaScript strings *)
(* ================================================================== *)

Module JS.

(** A JavaScript string is a sequence of UTF-16 code units. *)
Definition char := Z.
Definition jsstring := list char.

(** A literal of the program text, as code units. *)
Definition js (s : string) : jsstring :=
  map (fun a => Z.of_N (N_of_ascii a)) (list_ascii_of_string s).

(** The text [s] between double quotes. *)
Definition quoted (s : jsstring) : jsstring := 34 :: s ++ [34].

Fixpoint str_eqb (s t : jsstring) : bool :=
  match s, t with
  | [], [] => true
  | c :: s', d :: t' => (c =? d) && str_eqb s' t'
  | _, _ => false
  end.

Fixpoint starts_with (p s : jsstring) : bool :=
  match p, s with
  | [], _ => true
  | c :: p', d :: s' => (c =? d) && starts_with p' s'
  | _ :: _, [] => false
  end.

(** [s.includes(p)] *)
Fixpoint includes (s p : jsstring) : bool :=
  starts_with p s ||
  match s with
  | [] => false
  | _ :: s' => includes s' p
  end.

(** [arr.includes(s)] on an array of strings *)
Definition array_includes (arr : list jsstring) (s : jsstring) : bool :=
  existsb (str_eqb s) arr.

(** [s.split(sep)] for a separator of one code unit: the pieces between
    the occurrences of [sep], never an empty array. *)
Fixpoint split (sep : char) (s : jsstring) : list jsstring :=
  match s with
  | [] => [[]]
  | c :: s' =>
      if c =? sep then [] :: split sep s'
      else match split sep s' with
           | [] => [[c]]
           | p :: ps => (c :: p) :: ps
           end
  end.

(** WhiteSpace and LineTerminator of ECMAScript: what [trim], [Number]
    and [parseInt] skip. *)
Definition is_whitespace (c : char) : bool :=
  (c =? 9) || (c =? 10) || (c =? 11) || (c =? 12) || (c =? 13) ||
  (c =? 32) || (c =? 160) || (c =? 5760) ||
  ((8192 <=? c) && (c <=? 8202)) ||
  (c =? 8232) || (c =? 8233) || (c =? 8239) || (c =? 8287) ||
  (c =? 12288) || (c =? 65279).

Fixpoint trim_start (s : jsstring) : jsstring :=
  match s with
  | c :: s' => if is_whitespace c then trim_start s' else s
  | [] => []
  end.

Definition trim_end (s : jsstring) : jsstring :=
  rev (trim_start (rev s)).

Definition trim (s : jsstring) : jsstring := trim_end (trim_start s).

Definition is_digit (c : char) : bool := (48 <=? c) && (c <=? 57).

(** The longest prefix of decimal digits, and the rest. *)
Fixpoint span_digits (s : jsstring) : jsstring * jsstring :=
  match s with
  | c :: s' =>
      if is_digit c
      then let '(d, r) := span_digits s' in (c :: d, r)
      else ([], s)
  | [] => ([], [])
  end.

(** The value of a sequence of digits in base [b], left to right. *)
Definition digit_val (c : char) : Z :=
  if is_digit c then c - 48
  else if (97 <=? c) && (c <=? 102) then c - 87
  else c - 55.

Definition digits_val (b : Z) (ds : jsstring) : Z :=
  fold_left (fun acc c => b * acc + digit_val c) ds 0.

(** The decimal digits of a non-negative integer, most significant
    first: what [String(n)] and a template literal give for it. *)
Fixpoint digits_pos (fuel : nat) (n : Z) (acc : jsstring) : jsstring :=
  match fuel with
  | O => acc
  | S f =>
      let acc' := (48 + n mod 10) :: acc in
      if n <? 10 then acc' else digits_pos f (n / 10) acc'
  end.

Definition digits_of (n : Z) : jsstring :=
  digits_pos (S (Z.to_nat (Z.log2 n))) n [].

(** The canonical decimal text of an integer: ["-"] and the digits. *)
Definition decimal (n : Z) : jsstring :=
  if n <? 0 then 45 :: digits_of (- n) else digits_of n.

(* ================================================================== *)
(** * JavaScript numbers *)
(* ================================================================== *)

(** A Number is a binary64 value.  A finite one is [mant * 2 ^ expo],
    kept in lowest terms ([mant] odd, or [Finite 0 0]) so that equal
    values are equal terms.  The sign of zero is not kept: no operation
    of [index.js] tells [-0] from [+0]. *)
Inductive number :=
| NaN
| Infinity (negative : bool)
| Finite (mant expo : Z).

Fixpoint strip_twos (p : positive) (e : Z) : positive * Z :=
  match p with
  | xO p' => strip_twos p' (e + 1)
  | _ => (p, e)
  end.

Definition finite (m e : Z) : number :=
  match m with
  | 0 => Finite 0 0
  | Zpos p => let '(p', e') := strip_twos p e in Finite (Zpos p') e'
  | Zneg p => let '(p', e') := strip_twos p e in Finite (Zneg p') e'
  end.

(** The Number of an integer that binary64 holds exactly. *)
Definition int (z : Z) : number := finite z 0.

Definition negate (x : number) : number :=
  match x with
  | NaN => NaN
  | Infinity b => Infinity (negb b)
  | Finite m e => Finite (- m) e
  end.

Definition signed (neg : bool) (x : number) : number :=
  if neg then negate x else x.

(** A finite Number in lowest terms. *)
Definition canonical (x : number) : Prop :=
  match x with
  | Finite m e => (m = 0 /\ e = 0) \/ Z.odd m = true
  | _ => True
  end.

(** [floor (log2 (n / d))] for [n, d > 0]. *)
Definition floor_log2 (n d : Z) : Z :=
  let g := Z.log2 n - Z.log2 d in
  if (if 0 <=? g then d * 2 ^ g <=? n else d <=? n * 2 ^ (- g))
  then g else g - 1.

(** [a / b] rounded to the nearest integer, ties to the even one. *)
Definition round_half_even (a b : Z) : Z :=
  let q := a / b in
  match 2 * (a mod b) ?= b with
  | Lt => q
  | Eq => if Z.even q then q else q + 1
  | Gt => q + 1
  end.

(** The binary64 value nearest to [n / d], for [n, d > 0]: 53 bits of
    significand, exponents down to the subnormal [2 ^ -1074], overflow
    to [Infinity]. *)
Definition binary64 (n d : Z) : number :=
  let e := floor_log2 n d in
  let ex := Z.max (e - 52) (-1074) in
  let q := if 0 <=? ex then round_half_even n (d * 2 ^ ex)
           else round_half_even (n * 2 ^ (- ex)) d in
  if (971 <? ex) || ((ex =? 971) && (q =? 2 ^ 53)) then Infinity false
  else finite q ex.

(** The Number of [M * 10 ^ E], [M >= 0].  A literal whose magnitude is
    above every finite binary64 value or below half the least one is
    settled from its digit count, without computing the power. *)
Definition of_decimal (neg : bool) (M E : Z) : number :=
  if M =? 0 then Finite 0 0
  else
    let D := Z.of_nat (List.length (digits_of M)) in
    if 309 <? D + E then Infinity neg
    else if D + E <? -323 then Finite 0 0
    else if 0 <=? E then signed neg (binary64 (M * 10 ^ E) 1)
    else signed neg (binary64 M (10 ^ (- E))).

Definition of_natural (n : Z) : number :=
  if n =? 0 then Finite 0 0 else binary64 n 1.

(** ** Comparisons and tests *)

Definition cmp_finite (m1 e1 m2 e2 : Z) : comparison :=
  let e := Z.min e1 e2 in
  (m1 * 2 ^ (e1 - e)) ?= (m2 * 2 ^ (e2 - e)).

(** [x < y] *)
Definition lt (x y : number) : bool :=
  match x, y with
  | NaN, _ | _, NaN => false
  | Infinity a, Infinity b => a && negb b
  | Infinity a, Finite _ _ => a
  | Finite _ _, Infinity b => negb b
  | Finite m1 e1, Finite m2 e2 =>
      match cmp_finite m1 e1 m2 e2 with Lt => true | _ => false end
  end.

(** [x <= y] *)
Definition le (x y : number) : bool :=
  match x, y with
  | NaN, _ | _, NaN => false
  | Infinity a, Infinity b => a || negb b
  | Infinity a, Finite _ _ => a
  | Finite _ _, Infinity b => negb b
  | Finite m1 e1, Finite m2 e2 =>
      match cmp_finite m1 e1 m2 e2 with Gt => false | _ => true end
  end.

(** [Number.isInteger(x)] *)
Definition isInteger (x : number) : bool :=
  match x with
  | Finite m e => (0 <=? e) || (m mod 2 ^ (- e) =? 0)
  | _ => false
  end.

(** [isNaN(x)] on a Number *)
Definition isNaN (x : number) : bool :=
  match x with NaN => true | _ => false end.

(** The integer part of a finite Number, towards minus infinity:
    [Math.floor]; the value itself when it is an integer. *)
Definition floor (x : number) : Z :=
  match x with
  | Finite m e => if 0 <=? e then m * 2 ^ e else m / 2 ^ (- e)
  | _ => 0
  end.

(** ** [Number(string)]: StringToNumber *)

Definition is_hex_digit (c : char) : bool :=
  is_digit c || ((97 <=? c) && (c <=? 102)) || ((65 <=? c) && (c <=? 70)).

(** A leading sign: whether it is [-], and the rest.  [+] counts as a
    sign when [plus] is set. *)
Definition take_sign (plus : bool) (s : jsstring) : bool * jsstring :=
  match s with
  | c :: r =>
      if c =? 45 then (true, r)
      else if plus && (c =? 43) then (false, r)
      else (false, s)
  | [] => (false, s)
  end.

(** The digits after a decimal point, when [s] starts with one. *)
Definition take_fraction (s : jsstring) : jsstring * jsstring :=
  match s with
  | c :: r => if c =? 46 then span_digits r else ([], s)
  | [] => ([], s)
  end.

(** The mantissa and decimal exponent of a StrUnsignedDecimalLiteral
    other than [Infinity]; [None] when [s] is not one to its end. *)
Definition str_unsigned_decimal (s : jsstring) : option (Z * Z) :=
  let '(ip, r1) := span_digits s in
  let '(fp, r2) := take_fraction r1 in
  let M := digits_val 10 (ip ++ fp) in
  let F := Z.of_nat (List.length fp) in
  match ip ++ fp with
  | [] => None
  | _ :: _ =>
      match r2 with
      | [] => Some (M, - F)
      | c :: r3 =>
          if (c =? 101) || (c =? 69) then
            let '(eneg, r4) := take_sign true r3 in
            let '(ed, r5) := span_digits r4 in
            match ed, r5 with
            | _ :: _, [] =>
                let X := digits_val 10 ed in
                Some (M, (if eneg then - X else X) - F)
            | _, _ => None
            end
          else None
      end
  end.

(** A NonDecimalIntegerLiteral: [0x], [0o] or [0b] and digits. *)
Definition non_decimal (s : jsstring) : option Z :=
  match s with
  | z :: c :: (_ :: _) as ds =>
      if negb (z =? 48) then None
      else if ((c =? 120) || (c =? 88)) && forallb is_hex_digit ds
      then Some (digits_val 16 ds)
      else if ((c =? 111) || (c =? 79))
              && forallb (fun d => (48 <=? d) && (d <=? 55)) ds
      then Some (digits_val 8 ds)
      else if ((c =? 98) || (c =? 66))
              && forallb (fun d => (48 <=? d) && (d <=? 49)) ds
      then Some (digits_val 2 ds)
      else None
  | _ => None
  end.

Definition StringToNumber (s : jsstring) : number :=
  match trim s with
  | [] => Finite 0 0
  | t =>
      match non_decimal t with
      | Some n => of_natural n
      | None =>
          let '(neg, u) := take_sign true t in
          if str_eqb u (js "Infinity") then Infinity neg
          else match str_unsigned_decimal u with
               | Some (M, E) => of_decimal neg M E
               | None => NaN
               end
      end
  end.

(** ** [parseInt(string, 10)] *)

Definition parseInt10 (s : jsstring) : number :=
  let '(neg, u) := take_sign true (trim_start s) in
  match fst (span_digits u) with
  | [] => NaN
  | ds => signed neg (of_natural (digits_val 10 ds))
  end.

(** ** [String(number)]: Number::toString in radix 10 *)

Definition number_eqb (x y : number) : bool :=
  match x, y with
  | NaN, NaN => true
  | Infinity a, Infinity b => Bool.eqb a b
  | Finite m1 e1, Finite m2 e2 => (m1 =? m2) && (e1 =? e2)
  | _, _ => false
  end.

(** [n / d * 10 ^ j] as a fraction. *)
Definition scale10 (n d j : Z) : Z * Z :=
  if 0 <=? j then (n * 10 ^ j, d) else (n, d * 10 ^ (- j)).

(** The greatest [j] with [10 ^ j <= n / d], for [n, d > 0]. *)
Definition floor_log10 (n d : Z) : Z :=
  let est := floor_log2 n d * 30103 / 100000 in
  let below j := let '(a, b) := scale10 1 1 j in a * d <=? n * b in
  if below (est + 1) then est + 1
  else if below est then est
  else est - 1.

Definition roundtrips (x : number) (s j : Z) : bool :=
  let '(a, b) := scale10 s 1 j in number_eqb (binary64 a b) x.

(** The digits [s], their count [k] and the exponent [n] of
    Number::toString: the least [k] for which some [s] of [k] digits has
    [s * 10 ^ (n - k)] read back as [x]; of two such [s], the nearer. *)
Fixpoint shortest (fuel : nat) (k : Z) (x : number) (n d n0 : Z)
  : Z * Z * Z :=
  let '(a, b) := scale10 n d (k - n0) in
  let lo := a / b in
  let hi := lo + 1 in
  let up := if hi =? 10 ^ k then (1, 1, n0 + 1) else (hi, k, n0) in
  match fuel with
  | O => (lo, k, n0)
  | S f =>
      match roundtrips x lo (n0 - k), roundtrips x hi (n0 - k) with
      | true, true =>
          match 2 * (a mod b) ?= b with
          | Lt => (lo, k, n0)
          | Eq => if Z.even lo then (lo, k, n0) else up
          | Gt => up
          end
      | true, false => (lo, k, n0)
      | false, true => up
      | false, false => shortest f (k + 1) x n d n0
      end
  end.

Definition zeros (n : Z) : jsstring := repeat 48 (Z.to_nat n).

Definition format_digits (s k n : Z) : jsstring :=
  let ds := digits_of s in
  if (k <=? n) && (n <=? 21) then ds ++ zeros (n - k)
  else if (0 <? n) && (n <=? 21)
  then firstn (Z.to_nat n) ds ++ [46] ++ skipn (Z.to_nat n) ds
  else if (-6 <? n) && (n <=? 0) then [48; 46] ++ zeros (- n) ++ ds
  else
    let e := n - 1 in
    let ex := (if e <? 0 then 45 else 43) :: digits_of (Z.abs e) in
    match ds with
    | [d1] => d1 :: 101 :: ex
    | d1 :: rest => d1 :: 46 :: rest ++ 101 :: ex
    | [] => []
    end.

Definition Number_toString (x : number) : jsstring :=
  match x with
  | NaN => js "NaN"
  | Infinity false => js "Infinity"
  | Infinity true => js "-Infinity"
  | Finite 0 _ => js "0"
  | Finite m e =>
      let n := if 0 <=? e then Z.abs m * 2 ^ e else Z.abs m in
      let d := if 0 <=? e then 1 else 2 ^ (- e) in
      let n0 := floor_log10 n d + 1 in
      let '(s, k, nn) := shortest 17 1 (Finite (Z.abs m) e) n d n0 in
      (if m <? 0 then [45] else []) ++ format_digits s k nn
  end.

(* ================================================================== *)
(** * JavaScript values *)
(* ================================================================== *)

(** The values the program handles: what [JSON.parse], the query-string
    parser and the body parsers produce.  An object is its own
    enumerable properties in insertion order, keys distinct. *)
Inductive jsvalue :=
| JUndefined
| JNull
| JBool (b : bool)
| JNum (x : number)
| JStr (s : jsstring)
| JArr (elems : list jsvalue)
| JObj (members : list (jsstring * jsvalue)).

(** [String(v)]; an array joins the texts of its elements with commas,
    [null] and [undefined] elements giving nothing. *)
Fixpoint ToString (v : jsvalue) : jsstring :=
  match v with
  | JUndefined => js "undefined"
  | JNull => js "null"
  | JBool true => js "true"
  | JBool false => js "false"
  | JNum x => Number_toString x
  | JStr s => s
  | JArr l =>
      (fix join (l : list jsvalue) : jsstring :=
         let elem e := match e with
                       | JUndefined | JNull => []
                       | _ => ToString e
                       end in
         match l with
         | [] => []
         | [e] => elem e
         | e :: l' => elem e ++ 44 :: join l'
         end) l
  | JObj _ => js "[object Object]"
  end.

(** [Number(v)] *)
Definition Number (v : jsvalue) : number :=
  match v with
  | JUndefined => NaN
  | JNull => int 0
  | JBool b => if b then int 1 else int 0
  | JNum x => x
  | JStr s => StringToNumber s
  | JArr _ | JObj _ => StringToNumber (ToString v)
  end.

(** [parseInt(v, 10)] *)
Definition parseInt (v : jsvalue) : number := parseInt10 (ToString v).

(** The truth value of [v] in a condition: [if (v)], [!v], [v && _],
    [v || _]. *)
Definition truthy (v : jsvalue) : bool :=
  match v with
  | JUndefined | JNull => false
  | JBool b => b
  | JNum NaN => false
  | JNum (Finite 0 _) => false
  | JNum _ => true
  | JStr [] => false
  | JStr _ => true
  | JArr _ | JObj _ => true
  end.

(** [typeof v === 'object'] *)
Definition typeof_object (v : jsvalue) : bool :=
  match v with
  | JNull | JArr _ | JObj _ => true
  | _ => false
  end.

(** [Object.keys(v).length] for a [v] other than [null] and
    [undefined]. *)
Definition keys_length (v : jsvalue) : nat :=
  match v with
  | JObj m => List.length m
  | JArr l => List.length l
  | JStr s => List.length s
  | _ => O
  end.

(* ================================================================== *)
(** * [JSON.parse] *)
(* ================================================================== *)

Inductive token :=
| TLBrace | TRBrace | TLBracket | TRBracket | TColon | TComma
| TString (s : jsstring)
| TValue (v : jsvalue).

(** The lexer reads one code unit at a time.  Inside a string it is in
    [LStr], after a backslash in [LEsc], in the four digits of [\u] in
    [LHex]; a run of number characters is gathered in [LNum] and a run
    of letters in [LWord], and each run is checked when it ends. *)
Inductive lmode :=
| LIdle
| LStr (acc : jsstring)
| LEsc (acc : jsstring)
| LHex (acc : jsstring) (hex : jsstring)
| LNum (acc : jsstring)
| LWord (acc : jsstring).

Definition is_json_space (c : char) : bool :=
  (c =? 9) || (c =? 10) || (c =? 13) || (c =? 32).

Definition is_number_char (c : char) : bool :=
  is_digit c || (c =? 45) || (c =? 43) || (c =? 46) ||
  (c =? 101) || (c =? 69).

Definition is_letter (c : char) : bool := (97 <=? c) && (c <=? 122).

(** A JSON number: [-]? int frac? exp?, no leading zero, digits on both
    sides of the point. *)
Definition json_number (run : jsstring) : option number :=
  let '(neg, u) := take_sign false run in
  let '(ip, r1) := span_digits u in
  let int_ok := match ip with
                | [] => false
                | [_] => true
                | d :: _ => negb (d =? 48)
                end in
  let frac_ok := match r1 with
                 | c :: r =>
                     negb (c =? 46)
                     || negb (Nat.eqb (List.length (fst (span_digits r))) 0)
                 | [] => true
                 end in
  if int_ok && frac_ok then
    match str_unsigned_decimal u with
    | Some (M, E) => Some (of_decimal neg M E)
    | None => None
    end
  else None.

Definition json_word (run : jsstring) : option jsvalue :=
  if str_eqb run (js "true") then Some (JBool true)
  else if str_eqb run (js "false") then Some (JBool false)
  else if str_eqb run (js "null") then Some JNull
  else None.

Definition json_escape (c : char) : option char :=
  if c =? 34 then Some 34
  else if c =? 92 then Some 92
  else if c =? 47 then Some 47
  else if c =? 98 then Some 8
  else if c =? 102 then Some 12
  else if c =? 110 then Some 10
  else if c =? 114 then Some 13
  else if c =? 116 then Some 9
  else None.

(** The lexer state: the mode and the tokens so far, last first;
    [None] once the text is known not to be JSON. *)
Definition lstate := option (lmode * list token).

Definition lex_idle (c : char) (out : list token) : lstate :=
  if is_json_space c then Some (LIdle, out)
  else if c =? 123 then Some (LIdle, TLBrace :: out)
  else if c =? 125 then Some (LIdle, TRBrace :: out)
  else if c =? 91 then Some (LIdle, TLBracket :: out)
  else if c =? 93 then Some (LIdle, TRBracket :: out)
  else if c =? 58 then Some (LIdle, TColon :: out)
  else if c =? 44 then Some (LIdle, TComma :: out)
  else if c =? 34 then Some (LStr [], out)
  else if is_digit c || (c =? 45) then Some (LNum [c], out)
  else if is_letter c then Some (LWord [c], out)
  else None.

Definition lex_step (st : lstate) (c : char) : lstate :=
  match st with
  | None => None
  | Some (LIdle, out) => lex_idle c out
  | Some (LStr acc, out) =>
      if c =? 34 then Some (LIdle, TString (rev acc) :: out)
      else if c =? 92 then Some (LEsc acc, out)
      else if c <? 32 then None
      else Some (LStr (c :: acc), out)
  | Some (LEsc acc, out) =>
      if c =? 117 then Some (LHex acc [], out)
      else match json_escape c with
           | Some d => Some (LStr (d :: acc), out)
           | None => None
           end
  | Some (LHex acc hex, out) =>
      if is_hex_digit c then
        match hex with
        | [h3; h2; h1] =>
            Some (LStr (digits_val 16 [h1; h2; h3; c] :: acc), out)
        | _ => Some (LHex acc (c :: hex), out)
        end
      else None
  | Some (LNum acc, out) =>
      if is_number_char c then Some (LNum (c :: acc), out)
      else match json_number (rev acc) with
           | Some x => lex_idle c (TValue (JNum x) :: out)
           | None => None
           end
  | Some (LWord acc, out) =>
      if is_letter c then Some (LWord (c :: acc), out)
      else match json_word (rev acc) with
           | Some v => lex_idle c (TValue v :: out)
           | None => None
           end
  end.

Definition lex (s : jsstring) : option (list token) :=
  match fold_left lex_step s (Some (LIdle, [])) with
  | Some (LIdle, out) => Some (rev out)
  | Some (LNum acc, out) =>
      match json_number (rev acc) with
      | Some x => Some (rev (TValue (JNum x) :: out))
      | None => None
      end
  | Some (LWord acc, out) =>
      match json_word (rev acc) with
      | Some v => Some (rev (TValue v :: out))
      | None => None
      end
  | _ => None
  end.

(** Setting a property: a key already there keeps its place and takes
    the new value. *)
Fixpoint obj_set (m : list (jsstring * jsvalue)) (k : jsstring)
  (v : jsvalue) : list (jsstring * jsvalue) :=
  match m with
  | [] => [(k, v)]
  | (k', v') :: m' =>
      if str_eqb k k' then (k', v) :: m' else (k', v') :: obj_set m' k v
  end.

(** The parser keeps the open containers on a stack: an array with its
    elements so far (last first), an object with its members so far and
    the key whose value is being read. *)
Inductive frame :=
| FArr (acc : list jsvalue)
| FObj (acc : list (jsstring * jsvalue)) (key : jsstring).

Inductive pstate :=
| PValue (st : list frame)
| PArrOpen (st : list frame)
| PObjOpen (st : list frame)
| PKey (acc : list (jsstring * jsvalue)) (st : list frame)
| PColon (acc : list (jsstring * jsvalue)) (key : jsstring)
         (st : list frame)
| PAfterArr (acc : list jsvalue) (st : list frame)
| PAfterObj (acc : list (jsstring * jsvalue)) (st : list frame)
| PDone (v : jsvalue)
| PError.

(** A value is complete: it goes to the container on top of the stack,
    or it is the result. *)
Definition deliver (st : list frame) (v : jsvalue) : pstate :=
  match st with
  | [] => PDone v
  | FArr acc :: st' => PAfterArr (v :: acc) st'
  | FObj acc k :: st' => PAfterObj (obj_set acc k v) st'
  end.

Definition parse_value (st : list frame) (t : token) : pstate :=
  match t with
  | TLBracket => PArrOpen st
  | TLBrace => PObjOpen st
  | TString s => deliver st (JStr s)
  | TValue v => deliver st v
  | _ => PError
  end.

Definition parse_step (p : pstate) (t : token) : pstate :=
  match p with
  | PValue st => parse_value st t
  | PArrOpen st =>
      match t with
      | TRBracket => deliver st (JArr [])
      | _ => parse_value (FArr [] :: st) t
      end
  | PObjOpen st =>
      match t with
      | TRBrace => deliver st (JObj [])
      | TString k => PColon [] k st
      | _ => PError
      end
  | PKey acc st =>
      match t with
      | TString k => PColon acc k st
      | _ => PError
      end
  | PColon acc k st =>
      match t with
      | TColon => PValue (FObj acc k :: st)
      | _ => PError
      end
  | PAfterArr acc st =>
      match t with
      | TComma => PValue (FArr acc :: st)
      | TRBracket => deliver st (JArr (rev acc))
      | _ => PError
      end
  | PAfterObj acc st =>
      match t with
      | TComma => PKey acc st
      | TRBrace => deliver st (JObj acc)
      | _ => PError
      end
  | PDone _ => PError
  | PError => PError
  end.

(** [JSON.parse(text)]: [None] is the SyntaxError it throws. *)
Definition JSON_parse (text : jsvalue) : option jsvalue :=
  match lex (ToString text) with
  | Some ts =>
      match fold_left parse_step ts (PValue []) with
      | PDone v => Some v
      | _ => None
      end
  | None => None
  end.

(* ================================================================== *)
(** * Arithmetic and dates *)
(* ================================================================== *)

(** The Number nearest to the rational [n / d], [d > 0]. *)
Definition of_ratio (n d : Z) : number :=
  match n with
  | 0 => Finite 0 0
  | Zpos _ => binary64 n d
  | Zneg _ => negate (binary64 (- n) d)
  end.

(** [x + 1], as [i++] computes it. *)
Definition succ (x : number) : number :=
  match x with
  | Finite m e =>
      if 0 <=? e then of_ratio (m * 2 ^ e + 1) 1
      else of_ratio (m + 2 ^ (- e)) (2 ^ (- e))
  | _ => x
  end.

(** [x * n] for an integer [n >= 0] that binary64 holds exactly. *)
Definition times (x : number) (n : Z) : number :=
  match x with
  | Finite m e =>
      if 0 <=? e then of_ratio (m * 2 ^ e * n) 1
      else of_ratio (m * n) (2 ^ (- e))
  | Infinity b => if n =? 0 then NaN else x
  | NaN => NaN
  end.

(** [x / d] for an integer [d > 0]. *)
Definition divide (x : number) (d : Z) : number :=
  match x with
  | Finite m e =>
      if 0 <=? e then of_ratio (m * 2 ^ e) d
      else of_ratio m (d * 2 ^ (- e))
  | _ => x
  end.

Definition pad (width : nat) (n : Z) : jsstring :=
  let ds := digits_of n in
  repeat 48 (width - List.length ds) ++ ds.

(** [new Date(t).toISOString()] for a time value [t] in milliseconds
    since the epoch: the proleptic Gregorian date and the time of day
    in UTC. *)
Definition toISOString (t : Z) : jsstring :=
  let day := t / 86400000 in
  let ms := t mod 86400000 in
  let z := day + 719468 in
  let era := z / 146097 in
  let doe := z - era * 146097 in
  let yoe := (doe - doe / 1460 + doe / 36524 - doe / 146096) / 365 in
  let doy := doe - (365 * yoe + yoe / 4 - yoe / 100) in
  let mp := (5 * doy + 2) / 153 in
  let d := doy - (153 * mp + 2) / 5 + 1 in
  let m := if mp <? 10 then mp + 3 else mp - 9 in
  let y := yoe + era * 400 + (if m <=? 2 then 1 else 0) in
  let year := if (0 <=? y) && (y <=? 9999) then pad 4 y
              else (if y <? 0 then 45 else 43) :: pad 6 (Z.abs y) in
  year ++ [45] ++ pad 2 m ++ [45] ++ pad 2 d ++ [84]
    ++ pad 2 (ms / 3600000) ++ [58]
    ++ pad 2 (ms / 60000 mod 60) ++ [58]
    ++ pad 2 (ms / 1000 mod 60) ++ [46]
    ++ pad 3 (ms mod 1000) ++ [90].

End JS.

(* ================================================================== *)
(** * Requests, responses and effects *)
(* ================================================================== *)

Module Express.
Import JS.

Coercion JNum : number >-> jsvalue.

(** What a handler reads of [req].  A query parameter that is absent is
    [JUndefined]; one that is present is a string, or an array or an
    object when the query string repeats or nests the key.  [param] is
    the path parameter of the route, [req.params.code] or
    [req.params.range].  [statusMessage] is [res.statusMessage] as the
    handler finds it. *)
Record request := {
  method : jsstring;
  param : jsstring;
  sleep : jsvalue;
  bodyParam : jsvalue;
  to : jsvalue;
  body : jsvalue;
  accept : option jsstring;
  statusMessage : jsvalue
}.

(** What a handler does with [res]. *)
Inductive payload :=
| Send (text : jsstring)         (* .send(text) *)
| SendPlain (text : jsstring)    (* .type('text/plain').send(text) *)
| Json (v : jsvalue)             (* .json(v) *)
| Redirect (target : jsvalue).   (* .redirect(status, target) *)

Inductive outcome :=
| Next                                        (* next() *)
| Respond (status : jsvalue) (p : payload).   (* res.status(status)... *)

(** The effects of a handler, in the order they happen. *)
Inductive event :=
| Clock (t : Z)            (* new Date() *)
| Timer (ms : number)      (* await of setTimeout(resolve, ms) *)
| Random (r : number).     (* Math.random() *)

(** The world a handler runs in: the clock in milliseconds since the
    epoch, the time that passes while a timer of a given delay is
    awaited, the 53 bits the next call of [Math.random] is made of, and
    the effects so far. *)
Record world := {
  now : Z;
  elapse : number -> Z;
  entropy : Z;
  log : list event
}.

Definition M (A : Type) : Type := world -> A * world.

Definition ret {A} (a : A) : M A := fun w => (a, w).

Definition bind {A B} (m : M A) (k : A -> M B) : M B :=
  fun w => let '(a, w') := m w in k a w'.

Notation "x <- m ;; k" := (bind m (fun x => k))
  (at level 61, m at next level, right associativity).
Notation "m ;; k" := (bind m (fun _ => k))
  (at level 61, right associativity).

Definition emit (ev : event) (w : world) : world :=
  {| now := now w; elapse := elapse w; entropy := entropy w;
     log := log w ++ [ev] |}.

(** [new Date()]: the time value of the clock. *)
Definition new_Date : M Z :=
  fun w => (now w, emit (Clock (now w)) w).

(** [await new Promise((resolve) => setTimeout(resolve, ms))] *)
Definition await_timeout (ms : number) : M unit :=
  fun w => (tt, emit (Timer ms)
                  {| now := now w + elapse w ms; elapse := elapse w;
                     entropy := entropy w; log := log w |}).

(** [Math.random()]: a Number in [[0, 1)], a multiple of [2 ^ -53]. *)
Definition Math_random : M number :=
  fun w => let r := finite (entropy w mod 2 ^ 53) (-53) in
           (r, emit (Random r) w).

End Express.

(* ================================================================== *)
(** * index.js *)
(* ================================================================== *)

Module Index.
Import JS Express.

(** Lines 36-39 and 315-318. *)
Definition isValidStatusCode (code : jsvalue) : bool :=
  let num := Number code in
  isInteger num && le (int 100) num && le num (int 599).

(** Lines 41-47 and 320-326; [JUndefined] when [JSON.parse] throws. *)
Definition tryParseJSON (str : jsvalue) : jsvalue :=
  match JSON_parse str with
  | Some v => v
  | None => JUndefined
  end.

(** Lines 50-66 and 329-345. *)
Definition statusDescriptions : list (jsstring * jsstring) :=
  [ (js "200", js "OK: The request has succeeded.");
    (js "201", js "Created: The request has been fulfilled and resulted in a new resource being created.");
    (js "202", js "Accepted: The request has been accepted for processing, but the processing has not been completed.");
    (js "204", js "No Content: The server successfully processed the request, but is not returning any content.");
    (js "301", js "Moved Permanently: The resource has been moved to a new URL.");
    (js "302", js "Found: The resource resides temporarily under a different URL.");
    (js "400", js "Bad Request: The server could not understand the request due to invalid syntax.");
    (js "401", js "Unauthorized: The client must authenticate itself to get the requested response.");
    (js "403", js "Forbidden: The client does not have access rights to the content.");
    (js "404", js "Not Found: The server can not find the requested resource.");
    (js "500", js "Internal Server Error: The server has encountered a situation it doesn't know how to handle.");
    (js "502", js "Bad Gateway: The server was acting as a gateway or proxy and received an invalid response.");
    (js "503", js "Service Unavailable: The server is not ready to handle the request.");
    (js "504", js "Gateway Timeout: The server is acting as a gateway and cannot get a response in time.") ].

Fixpoint lookup (key : jsstring) (table : list (jsstring * jsstring))
  : option jsstring :=
  match table with
  | [] => None
  | (k, v) :: table' => if str_eqb key k then Some v else lookup key table'
  end.

(** Lines 68-70 and 347-349: [statusDescriptions[code] || '']. *)
Definition getStatusDescription (code : jsvalue) : jsstring :=
  match lookup (ToString code) statusDescriptions with
  | Some d => d
  | None => []
  end.

(** Lines 72-74 and 351-353. *)
Definition mdnBase : jsstring :=
  js "https://developer.mozilla.org/en-US/docs/Web/HTTP/Status/".

Definition getMDNLink (code : jsvalue) : jsstring :=
  mdnBase ++ ToString code.

(** [for (let i = start; i <= end; i++) codes.push(i)], lines 151-153
    and 447-449.  The guard around the loop bounds its turns by 500. *)
Fixpoint push_range (turns : nat) (i end_ : number) : list number :=
  match turns with
  | O => []
  | S turns' =>
      if le i end_ then i :: push_range turns' (succ i) end_ else []
  end.

(** The body of the loop over the parts, lines 142-160 and 438-456:
    the codes one part adds. *)
Definition parsePart (part : jsstring) : list number :=
  if includes part (js "-") then
    match map (fun p => Number (JStr p)) (split 45 part) with
    | start :: end_ :: _ =>
        if isInteger start && isInteger end_ && le start end_
           && isValidStatusCode start && isValidStatusCode end_
        then push_range 500 start end_
        else []
    | _ => []
    end
  else
    let code := Number (JStr part) in
    if isValidStatusCode code then [code] else [].

(** Lines 138-163 and 434-459. *)
Definition parseStatusCodeRange (rangeStr : jsstring) : list number :=
  fold_left (fun codes part => codes ++ parsePart part)
            (split 44 rangeStr) [].

(** The optional delay, the same text in the four handlers (lines
    90-96, 178-184, 383-389, 478-484). *)
Definition delay (sleep : jsvalue) : M unit :=
  if truthy sleep then
    let ms := parseInt sleep in
    if negb (isNaN ms) && lt (int 0) ms then await_timeout ms
    else ret tt
  else ret tt.

Definition is_undefined (v : jsvalue) : bool :=
  match v with JUndefined => true | _ => false end.

(** [a ?? b] *)
Definition nullish (a b : jsvalue) : jsvalue :=
  match a with
  | JUndefined | JNull => b
  | _ => a
  end.

(** The custom response body, the same text in the four handlers
    (lines 98-109, 186-196, 391-402, 486-496); [JUndefined] when the
    request carries none. *)
Definition customBody (req : request) : jsvalue :=
  if negb (is_undefined (bodyParam req)) then
    nullish (tryParseJSON (bodyParam req)) (bodyParam req)
  else if array_includes [js "POST"; js "PUT"; js "PATCH"] (method req)
          && truthy (body req)
          && (0 <? keys_length (body req))%nat
  then body req
  else JUndefined.

(** The reply that carries a custom body (lines 113-120, 200-207,
    409-416, 503-510). *)
Definition sendCustom (statusCode custom : jsvalue) : outcome :=
  if typeof_object custom then Respond statusCode (Json custom)
  else Respond statusCode (SendPlain (ToString custom)).

(** [res.statusMessage || ''] *)
Definition reason (req : request) : jsvalue :=
  if truthy (statusMessage req) then statusMessage req else JStr [].

Definition invalidRedirect : outcome :=
  Respond (int 400)
    (Send (js "Invalid redirect status code (must be 300-308)")).

Definition missingTarget : outcome :=
  Respond (int 400)
    (Send (js "Missing " ++ quoted (js "to")
             ++ js " query parameter for redirect target")).

(** The redirect endpoint, lines 241-257 and 544-560. *)
Definition redirect (req : request) : outcome :=
  let code := param req in
  let to := to req in
  let statusCode := Number (JStr code) in
  if negb (isValidStatusCode statusCode)
     || lt statusCode (int 300) || lt (int 308) statusCode
  then invalidRedirect
  else if negb (truthy to)
  then missingTarget
  else Respond statusCode (Redirect to).

(** The health check, lines 225-227 and 528-530. *)
Definition health : outcome := Respond (int 200) (SendPlain (js "OK")).

(** [codes[Math.floor(r * codes.length)]]; [undefined] when the index
    is not one of the array. *)
Definition pick (codes : list number) (r : number) : jsvalue :=
  match times r (Z.of_nat (List.length codes)) with
  | Finite m e =>
      let i := floor (Finite m e) in
      if i <? 0 then JUndefined
      else match nth_error codes (Z.to_nat i) with
           | Some c => JNum c
           | None => JUndefined
           end
  | _ => JUndefined
  end.

Definition invalidCode : outcome :=
  Respond (int 400) (Send (js "Invalid HTTP status code")).

Definition invalidRange : outcome :=
  Respond (int 400) (Send (js "Invalid range for random status codes")).

(** ** The earlier revision, lines 1-279 *)

Module Rev1.

Definition reserved : list jsstring :=
  [js "random"; js "echo"; js "health"; js "docs"; js ""].

(** Content negotiation, lines 111-134 and 198-221. *)
Definition reply (req : request) (statusCode custom : jsvalue)
  : outcome :=
  let accept := match accept req with Some a => a | None => [] end in
  if negb (is_undefined custom) then sendCustom statusCode custom
  else if includes accept (js "application/json") then
    Respond statusCode
      (Json (JObj
         [ (js "code", statusCode);
           (js "description", reason req);
           (js "details", JStr (getStatusDescription statusCode));
           (js "mdn", JStr (getMDNLink statusCode)) ]))
  else
    Respond statusCode
      (SendPlain
         (trim (ToString statusCode ++ js " " ++ ToString (reason req)))).

(** [app.all('/:code')], lines 77-135. *)
Definition handleCode (req : request) : M outcome :=
  if array_includes reserved (param req) then ret Next
  else
    let code := param req in
    let statusCode := Number (JStr code) in
    if negb (isValidStatusCode statusCode) then ret invalidCode
    else
      delay (sleep req) ;;
      let custom := customBody req in
      ret (reply req statusCode custom).

(** [app.all('/random/:range')], lines 166-222. *)
Definition handleRandom (req : request) : M outcome :=
  let range := param req in
  let codes := parseStatusCodeRange range in
  match codes with
  | [] => ret invalidRange
  | _ :: _ =>
      r <- Math_random ;;
      let statusCode := pick codes r in
      delay (sleep req) ;;
      let custom := customBody req in
      ret (reply req statusCode custom)
  end.

End Rev1.

(** ** The later revision, lines 281-594 *)

Module Rev2.

Definition reserved : list jsstring :=
  [js "random"; js "echo"; js "health"; js "docs"; js "openapi.json";
   js "openapi.yaml"; js ""].

(** The descriptive envelope, lines 419-430 and 513-524. *)
Definition envelope (req : request) (statusCode : jsvalue)
  (requestedCode definition : jsstring) (start reply : Z) : jsvalue :=
  let duration_in_ms := of_ratio (reply - start) 1 in
  let duration_in_seconds := divide duration_in_ms 1000 in
  JObj
    [ (js "code", statusCode);
      (js "requestedCode", JStr requestedCode);
      (js "description", reason req);
      (js "definition", JStr definition);
      (js "details", JStr (getStatusDescription statusCode));
      (js "mdn", JStr (getMDNLink statusCode));
      (js "startTime", JStr (toISOString start));
      (js "replyTime", JStr (toISOString reply));
      (js "duration_in_ms", JNum duration_in_ms);
      (js "duration_in_seconds", JNum duration_in_seconds) ].

(** Lines 404-430 and 498-524. *)
Definition reply (req : request) (statusCode custom : jsvalue)
  (requestedCode definition : jsstring) (start : Z) : M outcome :=
  replyTime <- new_Date ;;
  if negb (is_undefined custom) then ret (sendCustom statusCode custom)
  else
    ret (Respond statusCode
           (Json (envelope req statusCode requestedCode definition
                    start replyTime))).

(** [app.all('/:code')], lines 356-431. *)
Definition handleCode (req : request) : M outcome :=
  if array_includes reserved (param req) then ret Next
  else
    startTime <- new_Date ;;
    let code := param req in
    let statusCode := Number (JStr code) in
    let requestedCode := code in
    let definition := getStatusDescription statusCode in
    if negb (isValidStatusCode statusCode) then ret invalidCode
    else
      delay (sleep req) ;;
      let custom := customBody req in
      reply req statusCode custom requestedCode definition startTime.

(** [app.all('/random/:range')], lines 462-525. *)
Definition handleRandom (req : request) : M outcome :=
  startTime <- new_Date ;;
  let range := param req in
  let codes := parseStatusCodeRange range in
  match codes with
  | [] => ret invalidRange
  | _ :: _ =>
      r <- Math_random ;;
      let statusCode := pick codes r in
      let requestedCode := range in
      let definition := getStatusDescription statusCode in
      delay (sleep req) ;;
      let custom := customBody req in
      reply req statusCode custom requestedCode definition startTime
  end.

End Rev2.

End Index.
(** ** The endpoints, uniformly *)

Module Endpoints.
Import JS Express Index.

(** An endpoint: its handler, whether the handler takes the request on
    (the generic route passes reserved names to [next()]), whether the
    request passes its validation, and the reply when it does not. *)
Record endpoint := {
  handler : request -> M outcome;
  routed : request -> bool;
  valid : request -> bool;
  rejection : outcome
}.

Definition validCodeParam (req : request) : bool :=
  isValidStatusCode (Number (JStr (param req))).

Definition validRangeParam (req : request) : bool :=
  match parseStatusCodeRange (param req) with
  | [] => false
  | _ :: _ => true
  end.

Definition code1 : endpoint :=
  {| handler := Rev1.handleCode;
     routed := fun req => negb (array_includes Rev1.reserved (param req));
     valid := validCodeParam;
     rejection := invalidCode |}.

Definition random1 : endpoint :=
  {| handler := Rev1.handleRandom;
     routed := fun _ => true;
     valid := validRangeParam;
     rejection := invalidRange |}.

Definition code2 : endpoint :=
  {| handler := Rev2.handleCode;
     routed := fun req => negb (array_includes Rev2.reserved (param req));
     valid := validCodeParam;
     rejection := invalidCode |}.

Definition random2 : endpoint :=
  {| handler := Rev2.handleRandom;
     routed := fun _ => true;
     valid := validRangeParam;
     rejection := invalidRange |}.

Definition codeEndpoints : list endpoint := [code1; code2].
Definition randomEndpoints : list endpoint := [random1; random2].
Definition endpoints : list endpoint := [code1; random1; code2; random2].

Definition status_of (o : outcome) : option jsvalue :=
  match o with
  | Respond s _ => Some s
  | Next => None
  end.

Definition payload_of (o : outcome) : option payload :=
  match o with
  | Respond _ p => Some p
  | Next => None
  end.

(** The delays of the timers awaited, in order. *)
Definition timers (l : list event) : list number :=
  flat_map (fun ev => match ev with Timer ms => [ms] | _ => [] end) l.

(** The draws of [Math.random], in order. *)
Definition draws (l : list event) : list number :=
  flat_map (fun ev => match ev with Random r => [r] | _ => [] end) l.

(** The delay a [sleep] parameter asks for, if it asks for one. *)
Definition requested_delay (sleep : jsvalue) : option number :=
  if truthy sleep
     && negb (isNaN (parseInt sleep)) && lt (int 0) (parseInt sleep)
  then Some (parseInt sleep)
  else None.

(** The world once a timer of delay [ms] has been awaited. *)
Definition after_timer (ms : number) (w : world) : world :=
  emit (Timer ms)
    {| now := now w + elapse w ms; elapse := elapse w;
       entropy := entropy w; log := log w |}.

Definition after_delay (sleep : jsvalue) (w : world) : world :=
  match requested_delay sleep with
  | Some ms => after_timer ms w
  | None => w
  end.

(** A value of [req.query]: absent, a string, an array or an object. *)
Definition is_query_value (v : jsvalue) : bool :=
  match v with
  | JUndefined | JStr _ | JArr _ | JObj _ => true
  | _ => false
  end.

End Endpoints.

(* ================================================================== *)
(** * The specification's range parser *)
(* ================================================================== *)

Module Spec.
Import JS Index.

(** [n] consecutive integers from [a]. *)
Fixpoint upto (n : nat) (a : Z) : list Z :=
  match n with
  | O => []
  | S k => a :: upto k (a + 1)
  end.

(** The inclusive integer sequence from [a] to [b]. *)
Definition inclusive (a b : Z) : list Z := upto (Z.to_nat (b - a + 1)) a.

(** The integer a Number is, if it is one. *)
Definition integer (x : number) : option Z :=
  if isInteger x then Some (floor x) else None.

(** A legal status code: an integer from 100 to 599. *)
Definition validCode (c : Z) : bool := (100 <=? c) && (c <=? 599).

(** Whether a text is, as a Number, a legal status code. *)
Definition in_range (s : jsstring) : bool :=
  match integer (Number (JStr s)) with
  | Some c => validCode c
  | None => false
  end.

(** Whether it is a legal redirect code: an integer from 300 to 308. *)
Definition redirect_code (s : jsstring) : bool :=
  match integer (Number (JStr s)) with
  | Some c => (300 <=? c) && (c <=? 308)
  | None => false
  end.

(** One segment, in the specification's words: with a hyphen, start
    and end, expanded only if both are integers, start <= end and both
    are valid; otherwise a single code, kept only if valid. *)
Definition segment (seg : jsstring) : list Z :=
  if includes seg (js "-") then
    match split 45 seg with
    | start :: end_ :: _ =>
        match integer (Number (JStr start)), integer (Number (JStr end_)) with
        | Some a, Some b =>
            if (a <=? b) && validCode a && validCode b
            then inclusive a b
            else []
        | _, _ => []
        end
    | _ => []
    end
  else
    match integer (Number (JStr seg)) with
    | Some c => if validCode c then [c] else []
    | None => []
    end.

(** The segments between commas, each expanded, in order. *)
Definition parseRange (s : jsstring) : list Z :=
  flat_map segment (split 44 s).

End Spec.

(* ================================================================== *)
(** * Statements of the specification that the code does not bear out *)
(* ================================================================== *)

Module Stated.
Import JS Express Index Endpoints.

(** The single-code endpoint answers [c] on [/{c}] for [c] from 100 to
    599, and 400 on every other path value. *)
Definition code_status (ep : endpoint) : Prop :=
  forall req w,
    (forall c, 100 <= c <= 599 -> param req = decimal c ->
       status_of (fst (handler ep req w)) = Some (JNum (int c))) /\
    (Spec.in_range (param req) = false ->
       status_of (fst (handler ep req w)) = Some (JNum (int 400))).

(** With no custom body the single-code endpoint answers in plain text
    unless JSON is asked for, and the random endpoint always answers
    with a JSON object. *)
Definition default_shape (code random : endpoint) : Prop :=
  forall req w,
    customBody req = JUndefined ->
    (routed code req = true -> valid code req = true ->
     accept req = None ->
     exists sc text, fst (handler code req w) = Respond sc (SendPlain text))
    /\
    (valid random req = true ->
     exists sc v, fst (handler random req w) = Respond sc (Json v)).

(** The names of the members of the full envelope. *)
Definition envelope_keys : list jsstring :=
  [js "code"; js "requestedCode"; js "description"; js "definition";
   js "details"; js "mdn"; js "startTime"; js "replyTime";
   js "duration_in_ms"; js "duration_in_seconds"].

Definition keys_of (v : jsvalue) : list jsstring :=
  match v with
  | JObj m => map fst m
  | _ => []
  end.

(** Every JSON object sent when there is no custom body has all the
    members of the envelope. *)
Definition full_envelope (ep : endpoint) : Prop :=
  forall req w sc v,
    customBody req = JUndefined ->
    routed ep req = true -> valid ep req = true ->
    fst (handler ep req w) = Respond sc (Json v) ->
    forall k, In k envelope_keys -> In k (keys_of v).

(** The random endpoint answers 400 exactly when the range parses to
    no code, and otherwise a code of the parsed sequence. *)
Definition random_status (ep : endpoint) : Prop :=
  forall req w,
    let codes := parseStatusCodeRange (param req) in
    Z.of_nat (List.length codes) < 2 ^ 53 ->
    (status_of (fst (handler ep req w)) = Some (JNum (int 400))
     <-> codes = []) /\
    (codes <> [] ->
     exists c, In c codes /\
       status_of (fst (handler ep req w)) = Some (JNum c)).

(** A [sleep] parameter that is not a number asks for no delay. *)
Definition sleep_numeric (ep : endpoint) : Prop :=
  forall req w s,
    routed ep req = true -> valid ep req = true ->
    sleep req = JStr s -> Number (JStr s) = NaN ->
    timers (log (snd (handler ep req w))) = timers (log w).

(** The redirect endpoint answers 400 exactly when the code is not an
    integer from 300 to 308 or [to] is absent. *)
Definition redirect_status : Prop :=
  forall req,
    is_query_value (to req) = true ->
    (status_of (redirect req) = Some (JNum (int 400))
     <-> Spec.redirect_code (param req) = false \/ to req = JUndefined).

End Stated.

(* ================================================================== *)
(** * Sample requests *)
(* ================================================================== *)

Module Examples.
Import JS Express Index Endpoints.

(** A GET of the path value [p]: no query parameter, no Accept header,
    the empty object the body parsers leave in [req.body], and the
    [res.statusMessage] of a fresh response. *)
Definition get (p : jsstring) : request :=
  {| method := js "GET"; param := p; sleep := JUndefined;
     bodyParam := JUndefined; to := JUndefined; body := JObj [];
     accept := None; statusMessage := JUndefined |}.

Definition with_sleep (s : jsstring) (req : request) : request :=
  {| method := method req; param := param req; sleep := JStr s;
     bodyParam := bodyParam req; to := to req; body := body req;
     accept := accept req; statusMessage := statusMessage req |}.

Definition with_body (b : jsstring) (req : request) : request :=
  {| method := method req; param := param req; sleep := sleep req;
     bodyParam := JStr b; to := to req; body := body req;
     accept := accept req; statusMessage := statusMessage req |}.

Definition with_to (t : jsstring) (req : request) : request :=
  {| method := method req; param := param req; sleep := sleep req;
     bodyParam := bodyParam req; to := JStr t; body := body req;
     accept := accept req; statusMessage := statusMessage req |}.

Definition with_accept (a : jsstring) (req : request) : request :=
  {| method := method req; param := param req; sleep := sleep req;
     bodyParam := bodyParam req; to := to req; body := body req;
     accept := Some a; statusMessage := statusMessage req |}.

Definition with_reason (m : jsstring) (req : request) : request :=
  {| method := method req; param := param req; sleep := sleep req;
     bodyParam := bodyParam req; to := to req; body := body req;
     accept := accept req; statusMessage := JStr m |}.

(** A world: 3 November 2024, 08:00 UTC; a timer takes its delay and
    two milliseconds more; the random source gives one half. *)
Definition world0 : world :=
  {| now := 1730620800000;
     elapse := fun ms => floor ms + 2;
     entropy := 2 ^ 52;
     log := [] |}.

End Examples.

(* ================================================================== *)
(** * The configuration of the service *)
(* ================================================================== *)

Module Setup.
Import JS Express Index.

(** [process.env]: a variable is a string, or it is not set. *)
Definition environment := jsstring -> option jsstring.

Definition env_get (env : environment) (name : jsstring) : jsvalue :=
  match env name with
  | Some s => JStr s
  | None => JUndefined
  end.

(** [a || b] *)
Definition or_else (a b : jsvalue) : jsvalue := if truthy a then a else b.

(** Lines 4 and 283. *)
Definition PORT (env : environment) : jsvalue :=
  or_else (env_get env (js "PORT")) (JNum (int 3000)).

(** [parseInt(process.env.NAME, 10) || fallback], the text of lines
    14-16 and 293-295. *)
Definition int_setting (env : environment) (name : jsstring)
  (fallback : Z) : number :=
  let n := parseInt (env_get env name) in
  if truthy (JNum n) then n else int fallback.

Definition rateLimitWindowMinutes (env : environment) : number :=
  int_setting env (js "RATE_LIMIT_WINDOW_MINUTES") 15.

Definition rateLimitMax (env : environment) : number :=
  int_setting env (js "RATE_LIMIT_MAX") 100.

(** The options the limiter is made with, lines 19-24 and 298-303. *)
Record limiter_options := {
  windowMs : number;
  max : number;
  standardHeaders : bool;
  legacyHeaders : bool
}.

Definition limiter (env : environment) : limiter_options :=
  {| windowMs := times (times (rateLimitWindowMinutes env) 60) 1000;
     max := rateLimitMax env;
     standardHeaders := true;
     legacyHeaders := false |}.

End Setup.

(* ================================================================== *)
(** * Codes and ranges as a client writes them *)
(* ================================================================== *)

Module Written.
Import JS.

(** [parts.join(sep)] *)
Fixpoint join (sep : jsstring) (parts : list jsstring) : jsstring :=
  match parts with
  | [] => []
  | [p] => p
  | p :: ps => p ++ sep ++ join sep ps
  end.

(** A list of codes: their decimal texts between commas. *)
Definition code_list (cs : list Z) : jsstring :=
  join (js ",") (map decimal cs).

(** A range of codes: the decimal texts of its ends around a hyphen. *)
Definition code_range (a b : Z) : jsstring :=
  decimal a ++ js "-" ++ decimal b.

End Written.

(* ================================================================== *)
(** * The application: its layers in the order they are registered *)
(* ================================================================== *)

Module App.
Import JS Express Index Endpoints.

(** The paths that handlers of [index.js] are registered under. *)
Inductive route :=
| Root             (* '/' *)
| Code             (* '/:code' *)
| RandomRange      (* '/random/:range' *)
| Health           (* '/health' *)
| Echo             (* '/echo' *)
| RedirectCode     (* '/redirect/:code' *)
| OpenapiJson      (* '/openapi.json' *)
| OpenapiYaml.     (* '/openapi.yaml' *)

(** The middleware of other packages that the application mounts. *)
Inductive package :=
| ParseJson        (* express.json() *)
| ParseUrlencoded  (* express.urlencoded({ extended: true }) *)
| Limiter          (* rateLimit({...}) *)
| SwaggerUi.       (* swaggerUi.serve, swaggerUi.setup(...) *)

(** A request as the application receives it.  [asked] is what the
    handlers read of it, its path parameter apart.  The matching of
    paths and the middleware of other packages are the framework's and
    the packages' own; the request carries their verdicts: [matched]
    tells for each route whether the path matches it and with which
    value of its parameter (empty for a route that has none),
    [under_docs] whether the path is under [/docs], and [passes]
    whether a package's middleware hands the request on with
    [next()]. *)
Record incoming := {
  asked : request;
  matched : route -> option jsstring;
  under_docs : bool;
  passes : package -> bool;
  headers : jsvalue;
  query : jsvalue;
  originalUrl : jsstring
}.

(** The layers, as [app.use], [app.all] and [app.get] register them. *)
Inductive layer :=
| Use (p : package)       (* app.use(p) *)
| UseDocs                 (* app.use('/docs', swaggerUi.serve, ...) *)
| UseRobots               (* app.use((req, res, next) => ...) *)
| All (rt : route)        (* app.all(path, handler) *)
| Get (rt : route).       (* app.get(path, handler) *)

Inductive revision := Earlier | Later.

(** Lines 11-275 and 290-590. *)
Definition layers (rev : revision) : list layer :=
  [Use ParseJson; Use ParseUrlencoded; Use Limiter;
   Get Root; All Code; All RandomRange; Get Health; All Echo;
   Get RedirectCode; UseDocs]
  ++ match rev with
     | Earlier => []
     | Later => [Get OpenapiJson; Get OpenapiYaml]
     end
  ++ [UseRobots].

(** What a handler answers with: a reply made with [res.status],
    [res.type], [res.send], [res.json] or [res.redirect], or a text
    sent under a Content-Type set with [res.setHeader]. *)
Inductive answer :=
| Reply (o : outcome)
| Document (content_type text : jsstring).

(** How a request ends: a route of the application answers it, a
    package's middleware ends it (with a reply of its own, or with an
    error), or every layer hands it on and it is left to the
    framework. *)
Inductive result :=
| Answered (r : route) (a : answer)
| Ended (p : package)
| Unanswered.

(** The result, and whether the X-Robots-Tag header was set on the
    response on the way. *)
Record served := {
  result_of : result;
  robots : bool
}.

(** The text of the root route, lines 27-33 and 306-312. *)
Definition usage : jsstring :=
  flat_map (fun line => line ++ [10])
    [js "httpstatus Node.js service";
     [];
     js "Usage:";
     js "  /<code>                - Returns the specified HTTP status code";
     js "  /random/<range>        - Returns a random status code from a list or range";
     [];
     js "Options:";
     js "  ?sleep=ms              - Delay the response by ms milliseconds";
     js "  Accept: application/json - Get response in JSON format";
     [];
     js "Examples:";
     js "  /200                   - Returns HTTP 200 OK";
     js "  /404?sleep=1000        - Returns HTTP 404 after 1 second";
     js "  /random/200,201,500-504 - Randomly returns one of the listed codes";
     [];
     js "For more info, see: https://httpstat.us"].

(** The echo endpoint, lines 230-238 and 533-541. *)
Definition echo (inc : incoming) : outcome :=
  Respond (int 200)
    (Json (JObj
       [ (js "method", JStr (method (asked inc)));
         (js "headers", headers inc);
         (js "query", query inc);
         (js "body", body (asked inc));
         (js "url", JStr (originalUrl inc)) ])).

(** The request a handler sees when its route matches with the
    parameter [p]. *)
Definition with_param (p : jsstring) (req : request) : request :=
  {| method := method req; param := p; sleep := sleep req;
     bodyParam := bodyParam req; to := to req; body := body req;
     accept := accept req; statusMessage := statusMessage req |}.

(** The OpenAPI document as the later revision serves it, lines 575-584:
    the texts that [JSON.stringify] and [YAML.stringify] make of it. *)
Record documents := {
  as_json : jsstring;
  as_yaml : jsstring
}.

(** A reply, or [None] when the handler calls [next()]. *)
Definition replied (o : outcome) : option answer :=
  match o with
  | Next => None
  | Respond _ _ => Some (Reply o)
  end.

(** The two status endpoints of a revision. *)
Definition code_endpoint (rev : revision) : endpoint :=
  match rev with Earlier => code1 | Later => code2 end.

Definition random_endpoint (rev : revision) : endpoint :=
  match rev with Earlier => random1 | Later => random2 end.

(** The handler registered under a route. *)
Definition handle (rev : revision) (docs : documents) (rt : route)
  (inc : incoming) (p : jsstring) : M (option answer) :=
  let req := with_param p (asked inc) in
  match rt with
  | Root => ret (Some (Reply (Respond (int 200) (SendPlain usage))))
  | Code => o <- handler (code_endpoint rev) req ;; ret (replied o)
  | RandomRange => o <- handler (random_endpoint rev) req ;; ret (replied o)
  | Health => ret (Some (Reply health))
  | Echo => ret (Some (Reply (echo inc)))
  | RedirectCode => ret (Some (Reply (redirect req)))
  | OpenapiJson =>
      ret (Some (Document (js "application/json") (as_json docs)))
  | OpenapiYaml => ret (Some (Document (js "text/yaml") (as_yaml docs)))
  end.

(** A route registered with [app.get] takes GET requests, and HEAD
    requests too. *)
Definition is_get (m : jsstring) : bool :=
  str_eqb m (js "GET") || str_eqb m (js "HEAD").

(** The router: the layers are tried in order; one that answers ends
    the request, one that does not match or calls [next()] hands it to
    the rest. *)
Fixpoint run (rev : revision) (docs : documents) (ls : list layer)
  (inc : incoming) (tagged : bool) : M served :=
  match ls with
  | [] => ret {| result_of := Unanswered; robots := tagged |}
  | l :: rest =>
      let route_at rt :=
        match matched inc rt with
        | Some p =>
            a <- handle rev docs rt inc p ;;
            match a with
            | Some a => ret {| result_of := Answered rt a; robots := tagged |}
            | None => run rev docs rest inc tagged
            end
        | None => run rev docs rest inc tagged
        end in
      match l with
      | Use p =>
          if passes inc p then run rev docs rest inc tagged
          else ret {| result_of := Ended p; robots := tagged |}
      | UseDocs =>
          if under_docs inc && negb (passes inc SwaggerUi)
          then ret {| result_of := Ended SwaggerUi; robots := tagged |}
          else run rev docs rest inc tagged
      | UseRobots => run rev docs rest inc true
      | All rt => route_at rt
      | Get rt =>
          if is_get (method (asked inc)) then route_at rt
          else run rev docs rest inc tagged
      end
  end.

Definition serve (rev : revision) (docs : documents) (inc : incoming)
  : M served :=
  run rev docs (layers rev) inc false.

End App.

(* ================================================================== *)
(** * More sample requests *)
(* ================================================================== *)

Module Samples.
Import JS Express.

(** The request [req] sent with the method [m] and the parsed body
    [b]. *)
Definition sent (m : jsstring) (b : jsvalue) (req : request) : request :=
  {| method := m; param := param req; sleep := sleep req;
     bodyParam := bodyParam req; to := to req; body := b;
     accept := accept req; statusMessage := statusMessage req |}.

(** The world [w] with [k] for the bits of the next random draw. *)
Definition seeded (k : Z) (w : world) : world :=
  {| now := now w; elapse := elapse w; entropy := k; log := log w |}.

(** A request for a path of one segment [p]: it matches [/:code], and
    the route of that name when there is one. *)
Definition name_of (p : jsstring) : option App.route :=
  if str_eqb p (js "health") then Some App.Health
  else if str_eqb p (js "echo") then Some App.Echo
  else if str_eqb p (js "openapi.json") then Some App.OpenapiJson
  else if str_eqb p (js "openapi.yaml") then Some App.OpenapiYaml
  else None.

Definition route_eqb (a b : App.route) : bool :=
  match a, b with
  | App.Root, App.Root | App.Code, App.Code
  | App.RandomRange, App.RandomRange | App.Health, App.Health
  | App.Echo, App.Echo | App.RedirectCode, App.RedirectCode
  | App.OpenapiJson, App.OpenapiJson | App.OpenapiYaml, App.OpenapiYaml => true
  | _, _ => false
  end.

Definition one_segment (p : jsstring) (req : request) : App.incoming :=
  {| App.asked := req;
     App.matched := fun rt =>
       match rt with
       | App.Code => Some p
       | _ => match name_of p with
              | Some r => if route_eqb r rt then Some [] else None
              | None => None
              end
       end;
     App.under_docs := str_eqb p (js "docs");
     App.passes := fun _ => true;
     App.headers := JObj [];
     App.query := JObj [];
     App.originalUrl := 47 :: p |}.


End Samples.

(* ================================================================== *)
(** * The codes the table describes *)
(* ================================================================== *)

Module Described.
Import JS Index.

(** The keys of [statusDescriptions], as integers. *)
Definition codes : list Z :=
  [200; 201; 202; 204; 301; 302; 400; 401; 403; 404; 500; 502; 503; 504].

Definition is_empty (s : jsstring) : bool :=
  match s with [] => true | _ :: _ => false end.

End Described.

(* ================================================================== *)
(** * What the JSON parser keeps *)
(* ================================================================== *)

Module Kept.
Import JS.

(** A token that carries a value never carries [undefined]. *)
Definition defined_token (t : token) : Prop :=
  match t with
  | TValue JUndefined => False
  | _ => True
  end.

Definition defined_lstate (st : lstate) : Prop :=
  match st with
  | Some (_, out) => Forall defined_token out
  | None => True
  end.

Definition defined_pstate (p : pstate) : Prop :=
  match p with
  | PDone JUndefined => False
  | _ => True
  end.

End Kept.

(* ================================================================== *)
(** * Facts about the built-ins *)
(* ================================================================== *)

Module NumberFacts.
Import JS.

(** ** Lowest terms *)

Lemma strip_twos_value (p : positive) (e : Z) :
  let '(p', e') := strip_twos p e in
  e <= e' /\ Zpos p = Zpos p' * 2 ^ (e' - e).
Proof.
  revert e; induction p as [p IH | p IH |]; intro e; cbn [strip_twos].
  - rewrite Z.sub_diag, Z.pow_0_r. split; lia.
  - specialize (IH (e + 1)). destruct (strip_twos p (e + 1)) as [p' e'].
    destruct IH as [Hle Hv]. split; [lia |].
    replace (e' - e) with (Z.succ (e' - (e + 1))) by lia.
    rewrite Z.pow_succ_r by lia. lia.
  - rewrite Z.sub_diag, Z.pow_0_r. split; lia.
Qed.

Lemma strip_twos_odd (p : positive) (e : Z) :
  Z.odd (Zpos (fst (strip_twos p e))) = true.
Proof.
  revert e; induction p as [p IH | p IH |]; intro e;
    cbn [strip_twos fst]; auto.
Qed.

Lemma finite_spec (m e : Z) :
  exists m' e', finite m e = Finite m' e' /\
    ((m = 0 /\ m' = 0 /\ e' = 0) \/
     (m <> 0 /\ e <= e' /\ m = m' * 2 ^ (e' - e) /\ Z.odd m' = true)).
Proof.
  destruct m as [| p | p]; simpl.
  - exists 0, 0. auto.
  - pose proof (strip_twos_value p e) as H.
    pose proof (strip_twos_odd p e) as Ho.
    destruct (strip_twos p e) as [p' e']. destruct H as [Hle Hv].
    exists (Zpos p'), e'. split; [reflexivity | right].
    repeat split; auto; lia.
  - pose proof (strip_twos_value p e) as H.
    pose proof (strip_twos_odd p e) as Ho.
    destruct (strip_twos p e) as [p' e']. destruct H as [Hle Hv].
    exists (Zneg p'), e'. split; [reflexivity | right].
    repeat split; auto; lia.
Qed.

Lemma finite_canonical (m e : Z) : canonical (finite m e).
Proof.
  destruct (finite_spec m e) as (m' & e' & -> & [H | H]); simpl; intuition.
Qed.

Lemma canonical_negate (x : number) : canonical x -> canonical (negate x).
Proof.
  destruct x as [| b | m e]; simpl; auto.
  intros [[-> ->] | H]; [left; auto | right].
  now rewrite Z.odd_opp.
Qed.

Lemma negate_finite (m e : Z) : negate (finite m e) = finite (- m) e.
Proof.
  destruct m as [| p | p]; simpl; auto;
    destruct (strip_twos p e); reflexivity.
Qed.

Lemma finite_twice (m e : Z) : m <> 0 -> finite (2 * m) e = finite m (e + 1).
Proof.
  destruct m as [| p | p]; simpl; intros H; try lia; reflexivity.
Qed.

Lemma finite_shift (m e k : Z) :
  0 <= k -> m <> 0 -> finite (m * 2 ^ k) (e - k) = finite m e.
Proof.
  intros Hk Hm. revert e. pattern k. apply natlike_ind; auto.
  - intro e. rewrite Z.pow_0_r, Z.mul_1_r. f_equal; lia.
  - intros j Hj IH e. rewrite Z.pow_succ_r by lia.
    replace (m * (2 * 2 ^ j)) with (2 * (m * 2 ^ j)) by ring.
    rewrite finite_twice.
    + replace (e - Z.succ j + 1) with (e - j) by lia. apply IH.
    + apply Z.neq_mul_0. split; auto. apply Z.pow_nonzero; lia.
Qed.

(** ** The integers *)

Lemma int_spec (z : Z) :
  exists m e, int z = Finite m e /\ 0 <= e /\ z = m * 2 ^ e.
Proof.
  unfold int.
  destruct (finite_spec z 0)
    as (m & e & H & [(-> & -> & ->) | (Hz & Hle & Hv & _)]).
  - exists 0, 0. rewrite H. repeat split; lia.
  - exists m, e. rewrite Z.sub_0_r in Hv. auto.
Qed.

Lemma isInteger_int (z : Z) : isInteger (int z) = true.
Proof.
  destruct (int_spec z) as (m & e & -> & He & _). simpl.
  apply orb_true_iff. left. now apply Z.leb_le.
Qed.

Lemma floor_int (z : Z) : floor (int z) = z.
Proof.
  destruct (int_spec z) as (m & e & -> & He & Hv). simpl.
  apply Z.leb_le in He. now rewrite He.
Qed.

Lemma int_inj (a b : Z) : int a = int b -> a = b.
Proof. intro H. rewrite <- (floor_int a), <- (floor_int b). now rewrite H. Qed.

Lemma cmp_int (a b : Z) :
  match int a, int b with
  | Finite m1 e1, Finite m2 e2 => cmp_finite m1 e1 m2 e2 = (a ?= b)
  | _, _ => False
  end.
Proof.
  destruct (int_spec a) as (m1 & e1 & -> & H1 & ->).
  destruct (int_spec b) as (m2 & e2 & -> & H2 & ->).
  unfold cmp_finite. set (e := Z.min e1 e2).
  assert (He : 0 <= e) by (unfold e; lia).
  replace (2 ^ e1) with (2 ^ (e1 - e) * 2 ^ e)
    by (rewrite <- Z.pow_add_r; [f_equal |..]; lia).
  replace (2 ^ e2) with (2 ^ (e2 - e) * 2 ^ e)
    by (rewrite <- Z.pow_add_r; [f_equal |..]; lia).
  rewrite !Z.mul_assoc.
  apply Zmult_compare_compat_r. apply Z.lt_gt, Z.pow_pos_nonneg; lia.
Qed.

Lemma le_int (a b : Z) : le (int a) (int b) = (a <=? b).
Proof.
  pose proof (cmp_int a b) as H.
  destruct (int a), (int b); try contradiction. simpl. rewrite H.
  unfold Z.leb. destruct (a ?= b); reflexivity.
Qed.

Lemma lt_int (a b : Z) : lt (int a) (int b) = (a <? b).
Proof.
  pose proof (cmp_int a b) as H.
  destruct (int a), (int b); try contradiction. simpl. rewrite H.
  unfold Z.ltb. destruct (a ?= b); reflexivity.
Qed.

(** ** Rounding *)

Lemma floor_log2_pow2 (n j : Z) :
  0 < n -> 0 <= j -> floor_log2 n (2 ^ j) = Z.log2 n - j.
Proof.
  intros Hn Hj. unfold floor_log2.
  rewrite Z.log2_pow2 by lia.
  destruct (Z.log2_spec n Hn) as [Hlo _].
  pose proof (Z.log2_nonneg n) as HL.
  destruct (0 <=? Z.log2 n - j) eqn:Hg.
  - apply Z.leb_le in Hg.
    rewrite <- Z.pow_add_r by lia.
    replace (j + (Z.log2 n - j)) with (Z.log2 n) by lia.
    apply Z.leb_le in Hlo. now rewrite Hlo.
  - apply Z.leb_gt in Hg.
    assert (H : 2 ^ j <= n * 2 ^ (- (Z.log2 n - j))).
    { replace j with (Z.log2 n + (- (Z.log2 n - j))) at 1 by lia.
      rewrite Z.pow_add_r by lia.
      apply Z.mul_le_mono_nonneg_r; [apply Z.pow_nonneg; lia | lia]. }
    apply Z.leb_le in H. now rewrite H.
Qed.

Lemma round_half_even_exact (a : Z) : round_half_even a 1 = a.
Proof.
  unfold round_half_even. rewrite Z.mod_1_r, Z.div_1_r. reflexivity.
Qed.

Lemma round_half_even_lower (a b : Z) :
  0 < b -> a / b <= round_half_even a b.
Proof.
  intros Hb. unfold round_half_even.
  destruct (2 * (a mod b) ?= b); [destruct (Z.even (a / b)) | |]; lia.
Qed.

Lemma round_half_even_below (a b P : Z) :
  0 < b -> 2 * a < (2 * P - 1) * b -> round_half_even a b <= P - 1.
Proof.
  intros Hb H. unfold round_half_even.
  pose proof (Z.div_mod a b ltac:(lia)) as Hdm.
  pose proof (Z.mod_pos_bound a b Hb) as Hr.
  set (q := a / b) in *. set (r := a mod b) in *.
  destruct (Z.compare_spec (2 * r) b) as [E | E | E].
  - destruct (Z.even q); nia.
  - nia.
  - nia.
Qed.

Lemma floor_log2_1 (n : Z) : 0 < n -> floor_log2 n 1 = Z.log2 n.
Proof.
  intro Hn. change 1 with (2 ^ 0). rewrite floor_log2_pow2; lia.
Qed.

(** binary64 holds the integers below [2 ^ 53] exactly. *)
Lemma binary64_int (n : Z) : 0 < n < 2 ^ 53 -> binary64 n 1 = int n.
Proof.
  intros [Hn Hb]. unfold binary64. rewrite floor_log2_1 by lia.
  assert (HL : 0 <= Z.log2 n <= 52).
  { split; [apply Z.log2_nonneg |].
    assert (Z.log2 n < 53) by (apply Z.log2_lt_pow2; lia). lia. }
  rewrite Z.max_l by lia.
  assert (Hov : (971 <? Z.log2 n - 52) = false) by (apply Z.ltb_ge; lia).
  assert (Hov' : (Z.log2 n - 52 =? 971) = false) by (apply Z.eqb_neq; lia).
  rewrite Hov, Hov'. cbn [orb andb].
  destruct (0 <=? Z.log2 n - 52) eqn:Hex.
  - apply Z.leb_le in Hex. assert (E : Z.log2 n - 52 = 0) by lia.
    rewrite E. change (1 * 2 ^ 0) with 1.
    now rewrite round_half_even_exact.
  - rewrite round_half_even_exact.
    unfold int.
    replace (Z.log2 n - 52) with (0 - (- (Z.log2 n - 52))) at 2 by lia.
    apply finite_shift; lia.
Qed.

Lemma finite_int (q ex : Z) : 0 <= ex -> finite q ex = int (q * 2 ^ ex).
Proof.
  intros Hex. destruct (Z.eq_dec q 0) as [-> | Hq]; [reflexivity |].
  unfold int. replace ex with (ex - 0) at 1 by lia.
  replace 0 with (ex - ex) at 2 by lia.
  rewrite finite_shift by lia. f_equal; lia.
Qed.

(** Above, an integer is read as one at least as large, or overflows. *)
Lemma binary64_big (n : Z) :
  2 ^ 53 <= n ->
  binary64 n 1 = Infinity false \/
  exists z, 2 ^ 53 <= z /\ binary64 n 1 = int z.
Proof.
  intros Hb. assert (Hn : 0 < n) by lia. unfold binary64.
  rewrite floor_log2_1 by lia.
  assert (HL : 53 <= Z.log2 n) by (apply Z.log2_le_pow2; lia).
  rewrite Z.max_l by lia.
  assert (Hex : (0 <=? Z.log2 n - 52) = true) by (apply Z.leb_le; lia).
  rewrite Hex. rewrite Z.mul_1_l.
  set (ex := Z.log2 n - 52) in *.
  set (q := round_half_even n (2 ^ ex)).
  destruct ((971 <? ex) || (ex =? 971) && (q =? 2 ^ 53)); [now left | right].
  exists (q * 2 ^ ex). split; [| apply finite_int; lia].
  assert (Hp : 0 < 2 ^ ex) by (apply Z.pow_pos_nonneg; lia).
  assert (Hq : 2 ^ 52 <= q).
  { eapply Z.le_trans; [| apply round_half_even_lower; lia].
    apply Z.div_le_lower_bound; [lia |].
    destruct (Z.log2_spec n Hn) as [Hlo _].
    replace (Z.log2 n) with (ex + 52) in Hlo by lia.
    rewrite Z.pow_add_r in Hlo by lia. lia. }
  assert (2 <= 2 ^ ex).
  { change 2 with (2 ^ 1) at 1. apply Z.pow_le_mono_r; lia. }
  change (2 ^ 53) with (2 ^ 52 * 2). nia.
Qed.

End NumberFacts.

Module StringFacts.
Import JS NumberFacts.

(** Settles a test [a =? b] or [a <? b] that [lia] decides to be false. *)
Ltac differ a b :=
  replace (a =? b) with false by (symmetry; apply Z.eqb_neq; lia).

Ltac not_below a b :=
  replace (a <? b) with false by (symmetry; apply Z.ltb_ge; lia).

Lemma str_eqb_eq (s t : jsstring) : str_eqb s t = true <-> s = t.
Proof.
  revert t; induction s as [| c s IH]; intros [| d t]; simpl;
    try (split; [discriminate | discriminate]); [tauto |].
  rewrite andb_true_iff, Z.eqb_eq, IH. split.
  - intros [-> ->]; reflexivity.
  - intros [= -> ->]; auto.
Qed.

Lemma str_eqb_refl (s : jsstring) : str_eqb s s = true.
Proof. now apply str_eqb_eq. Qed.

(** ** Decimal digits *)

Lemma digits_val_snoc (b : Z) (ds : jsstring) (d : char) :
  digits_val b (ds ++ [d]) = b * digits_val b ds + digit_val d.
Proof. unfold digits_val. now rewrite fold_left_app. Qed.

Lemma digit_char (r : Z) :
  0 <= r < 10 -> is_digit (48 + r) = true /\ digit_val (48 + r) = r.
Proof.
  intros Hr. unfold digit_val, is_digit.
  assert (E : (48 <=? 48 + r) && (48 + r <=? 57) = true).
  { apply andb_true_iff. split; apply Z.leb_le; lia. }
  rewrite E. split; [reflexivity | lia].
Qed.

Lemma digits_pos_spec (f : nat) :
  forall n acc, 0 <= n < 2 ^ Z.of_nat (S f) ->
  exists ds d, digits_pos (S f) n acc = ds ++ d :: acc /\
    forallb is_digit (ds ++ [d]) = true /\
    digits_val 10 (ds ++ [d]) = n.
Proof.
  induction f as [| f IH]; intros n acc Hn;
    cbn [digits_pos];
    pose proof (Z.mod_pos_bound n 10 ltac:(lia)) as Hr;
    destruct (digit_char (n mod 10) Hr) as [Hd Hv];
    destruct (n <? 10) eqn:Hlt.
  1, 3: apply Z.ltb_lt in Hlt; exists [], (48 + n mod 10);
    cbn [app forallb]; rewrite Hd; repeat split; auto;
    unfold digits_val; cbn [fold_left]; rewrite Hv, Z.mod_small; lia.
  - apply Z.ltb_ge in Hlt. change (2 ^ Z.of_nat 1) with 2 in Hn. lia.
  - apply Z.ltb_ge in Hlt.
    assert (Hq : 0 <= n / 10 < 2 ^ Z.of_nat (S f)).
    { split; [apply Z.div_pos; lia |].
      rewrite (Nat2Z.inj_succ (S f)), Z.pow_succ_r in Hn by lia.
      apply Z.div_lt_upper_bound; lia. }
    destruct (IH (n / 10) ((48 + n mod 10) :: acc) Hq)
      as (ds & d & E & Hall & Hval).
    exists (ds ++ [d]), (48 + n mod 10).
    change (digits_pos (S f) (n / 10) ((48 + n mod 10) :: acc))
      with (digits_pos (S f) (n / 10) ((48 + n mod 10) :: acc)) in E.
    cbn [digits_pos] in E. rewrite E.
    rewrite <- app_assoc. split; [reflexivity |]. split.
    + rewrite forallb_app, Hall. cbn [forallb andb]. now rewrite Hd.
    + rewrite digits_val_snoc, Hval, Hv.
      rewrite (Z.div_mod n 10) at 3 by lia. lia.
Qed.

Lemma digits_of_spec (n : Z) :
  0 <= n ->
  exists ds d, digits_of n = ds ++ [d] /\
    forallb is_digit (ds ++ [d]) = true /\
    digits_val 10 (ds ++ [d]) = n.
Proof.
  intros Hn. unfold digits_of.
  apply digits_pos_spec. split; [lia |].
  rewrite Nat2Z.inj_succ, Z2Nat.id by apply Z.log2_nonneg.
  destruct (Z.eq_dec n 0) as [-> | Hz]; [reflexivity |].
  apply Z.log2_spec. lia.
Qed.

Lemma span_digits_all (ds : jsstring) :
  forallb is_digit ds = true -> span_digits ds = (ds, []).
Proof.
  induction ds as [| c ds IH]; simpl; [reflexivity |].
  intros H. apply andb_true_iff in H as [Hc Hds].
  now rewrite Hc, (IH Hds).
Qed.

Lemma digit_not_space (c : char) : is_digit c = true -> is_whitespace c = false.
Proof.
  unfold is_digit, is_whitespace. intros H.
  apply andb_true_iff in H as [H1 H2]. apply Z.leb_le in H1, H2.
  repeat (apply orb_false_iff; split);
    try (apply Z.eqb_neq; lia).
  apply andb_false_iff. left. apply Z.leb_gt. lia.
Qed.

Lemma trim_end_snoc (s : jsstring) (d : char) :
  is_whitespace d = false -> trim_end (s ++ [d]) = s ++ [d].
Proof.
  intros H. unfold trim_end. rewrite rev_app_distr. simpl.
  rewrite H. change (d :: rev s) with ([d] ++ rev s).
  rewrite rev_app_distr, rev_involutive. reflexivity.
Qed.

(** ** [Number] of the decimal text of an integer *)

Lemma digit_range (c : char) : is_digit c = true -> 48 <= c <= 57.
Proof.
  unfold is_digit. intro H. apply andb_true_iff in H as [H1 H2].
  apply Z.leb_le in H1, H2. lia.
Qed.

Lemma trim_digits (s : jsstring) :
  forallb is_digit s = true -> trim s = s.
Proof.
  intros H. unfold trim.
  assert (Hs : trim_start s = s).
  { destruct s as [| c s]; [reflexivity |]. simpl in *.
    apply andb_true_iff in H as [Hc _].
    now rewrite (digit_not_space c Hc). }
  rewrite Hs. destruct s as [| c s] using rev_ind; [reflexivity |].
  rewrite forallb_app in H. apply andb_true_iff in H as [_ H].
  simpl in H. rewrite andb_true_r in H.
  apply trim_end_snoc, digit_not_space, H.
Qed.

Lemma trim_minus_digits (s : jsstring) :
  s <> [] -> forallb is_digit s = true -> trim (45 :: s) = 45 :: s.
Proof.
  intros Hne H. unfold trim.
  change (trim_start (45 :: s)) with (45 :: s).
  destruct s as [| c s] using rev_ind; [contradiction |].
  rewrite forallb_app in H. apply andb_true_iff in H as [_ H].
  simpl in H. rewrite andb_true_r in H.
  change (45 :: s ++ [c]) with ((45 :: s) ++ [c]).
  apply trim_end_snoc, digit_not_space, H.
Qed.

Lemma non_decimal_digits (s : jsstring) :
  forallb is_digit s = true -> non_decimal s = None.
Proof.
  destruct s as [| z [| c [| x r]]]; try reflexivity.
  intros H. cbn [forallb] in H.
  apply andb_true_iff in H as [_ H]. apply andb_true_iff in H as [Hc _].
  apply digit_range in Hc. unfold non_decimal.
  destruct (negb (z =? 48)); [reflexivity |].
  differ c 120.
  differ c 88.
  differ c 111.
  differ c 79.
  differ c 98.
  differ c 66.
  reflexivity.
Qed.

Lemma non_decimal_minus (s : jsstring) : non_decimal (45 :: s) = None.
Proof. destruct s as [| c [| x r]]; reflexivity. Qed.

Lemma take_sign_digits (s : jsstring) :
  forallb is_digit s = true -> take_sign true s = (false, s).
Proof.
  destruct s as [| c s]; [reflexivity |]. simpl. intros H.
  apply andb_true_iff in H as [Hc _]. apply digit_range in Hc.
  differ c 45.
  differ c 43.
  reflexivity.
Qed.

Lemma not_Infinity_digits (s : jsstring) :
  forallb is_digit s = true -> str_eqb s (js "Infinity") = false.
Proof.
  destruct s as [| c s]; [reflexivity |]. intros H.
  cbn [forallb] in H. apply andb_true_iff in H as [Hc _].
  apply digit_range in Hc.
  change (js "Infinity") with (73 :: js "nfinity"). cbn [str_eqb].
  differ c 73.
  reflexivity.
Qed.

Lemma str_unsigned_decimal_digits (s : jsstring) :
  s <> [] -> forallb is_digit s = true ->
  str_unsigned_decimal s = Some (digits_val 10 s, 0).
Proof.
  intros Hne H. unfold str_unsigned_decimal.
  rewrite (span_digits_all s H). cbn [take_fraction].
  rewrite app_nil_r. destruct s; [contradiction | reflexivity].
Qed.

Lemma StringToNumber_digits (s : jsstring) :
  s <> [] -> forallb is_digit s = true ->
  StringToNumber s = of_decimal false (digits_val 10 s) 0.
Proof.
  intros Hne H. unfold StringToNumber.
  rewrite (trim_digits s H).
  destruct s as [| c s']; [contradiction |].
  rewrite (non_decimal_digits _ H), (take_sign_digits _ H),
    (not_Infinity_digits _ H), (str_unsigned_decimal_digits _ Hne H).
  reflexivity.
Qed.

Lemma StringToNumber_minus_digits (s : jsstring) :
  s <> [] -> forallb is_digit s = true ->
  StringToNumber (45 :: s) = of_decimal true (digits_val 10 s) 0.
Proof.
  intros Hne H. unfold StringToNumber.
  rewrite (trim_minus_digits s Hne H), non_decimal_minus.
  cbn [take_sign]. change (45 =? 45) with true. cbv iota.
  rewrite (not_Infinity_digits s H), (str_unsigned_decimal_digits s Hne H).
  reflexivity.
Qed.

Lemma digits_pos_length (fuel : nat) :
  forall n acc,
  (List.length (digits_pos fuel n acc) <= fuel + List.length acc)%nat.
Proof.
  induction fuel as [| f IH]; intros n acc; cbn [digits_pos]; [lia |].
  destruct (n <? 10); [cbn [List.length]; lia |].
  specialize (IH (n / 10) ((48 + n mod 10) :: acc)).
  cbn [List.length] in IH. lia.
Qed.

Lemma digits_count_small (n : Z) :
  0 <= n < 2 ^ 53 -> 0 <= Z.of_nat (List.length (digits_of n)) <= 53.
Proof.
  intros Hn. unfold digits_of.
  pose proof (digits_pos_length (S (Z.to_nat (Z.log2 n))) n []) as H.
  cbn [List.length] in H.
  assert (Z.log2 n < 53).
  { destruct (Z.eq_dec n 0) as [-> | Hz]; [reflexivity |].
    apply Z.log2_lt_pow2; lia. }
  pose proof (Z.log2_nonneg n). lia.
Qed.

Lemma of_decimal_small (neg : bool) (n : Z) :
  0 <= n < 2 ^ 53 -> of_decimal neg n 0 = int (if neg then - n else n).
Proof.
  intros Hn. unfold of_decimal.
  destruct (n =? 0) eqn:Hz.
  - apply Z.eqb_eq in Hz. subst n. now destruct neg.
  - apply Z.eqb_neq in Hz.
    pose proof (digits_count_small n Hn) as HD.
    rewrite Z.add_0_r.
    replace (309 <? _) with false by (symmetry; apply Z.ltb_ge; lia).
    replace (_ <? -323) with false by (symmetry; apply Z.ltb_ge; lia).
    change (0 <=? 0) with true. cbv iota.
    rewrite Z.pow_0_r, Z.mul_1_r, binary64_int by lia.
    destruct neg; [| reflexivity]. apply negate_finite.
Qed.

End StringFacts.

Module CodeFacts.
Import JS Express Index NumberFacts StringFacts.

Lemma decimal_shape (c : Z) :
  exists s, s <> [] /\ forallb is_digit s = true /\
    digits_val 10 s = Z.abs c /\
    decimal c = if c <? 0 then 45 :: s else s.
Proof.
  unfold decimal. destruct (c <? 0) eqn:Hc.
  - apply Z.ltb_lt in Hc.
    destruct (digits_of_spec (- c) ltac:(lia)) as (ds & d & E & Hall & Hv).
    exists (ds ++ [d]). rewrite E. repeat split; auto; [| lia].
    now destruct ds.
  - apply Z.ltb_ge in Hc.
    destruct (digits_of_spec c Hc) as (ds & d & E & Hall & Hv).
    exists (ds ++ [d]). rewrite E. repeat split; auto; [| lia].
    now destruct ds.
Qed.

Lemma StringToNumber_decimal (c : Z) :
  StringToNumber (decimal c) = of_decimal (c <? 0) (Z.abs c) 0.
Proof.
  destruct (decimal_shape c) as (s & Hne & Hall & Hv & ->).
  destruct (c <? 0).
  - now rewrite StringToNumber_minus_digits, Hv.
  - now rewrite StringToNumber_digits, Hv.
Qed.

(** The decimal text of an integer below [2 ^ 53] in magnitude is read
    back as that integer. *)
Lemma Number_decimal (c : Z) :
  - 2 ^ 53 < c < 2 ^ 53 -> StringToNumber (decimal c) = int c.
Proof.
  intros Hc. rewrite StringToNumber_decimal, of_decimal_small by lia.
  f_equal. destruct (c <? 0) eqn:E;
    [apply Z.ltb_lt in E | apply Z.ltb_ge in E]; lia.
Qed.

(** Beyond, it is read as an integer of magnitude [2 ^ 53] or more, or
    as an infinity. *)
Lemma Number_decimal_big (c : Z) :
  2 ^ 53 <= Z.abs c ->
  (exists b, StringToNumber (decimal c) = Infinity b) \/
  (exists z, 2 ^ 53 <= Z.abs z /\ StringToNumber (decimal c) = int z).
Proof.
  intros Hc. rewrite StringToNumber_decimal. unfold of_decimal.
  differ (Z.abs c) 0.
  destruct (309 <? _); [left; eauto |].
  destruct (_ <? -323) eqn:Hlow; [apply Z.ltb_lt in Hlow; lia |].
  change (0 <=? 0) with true. cbv iota.
  rewrite Z.pow_0_r, Z.mul_1_r.
  destruct (binary64_big (Z.abs c) Hc) as [-> | (z & Hz & ->)].
  - left. destruct (c <? 0); cbn [signed negate]; eauto.
  - right. destruct (c <? 0); cbn [signed].
    + exists (- z). unfold int. rewrite negate_finite.
      split; [lia | reflexivity].
    + exists z. split; [lia | reflexivity].
Qed.

(** ** The validator on Numbers *)

Lemma isValidStatusCode_int (c : Z) :
  isValidStatusCode (JNum (int c)) = (100 <=? c) && (c <=? 599).
Proof.
  unfold isValidStatusCode. cbn [Number].
  now rewrite isInteger_int, !le_int.
Qed.

Lemma isValidStatusCode_NaN : isValidStatusCode (JNum NaN) = false.
Proof. reflexivity. Qed.

Lemma isValidStatusCode_Infinity (b : bool) :
  isValidStatusCode (JNum (Infinity b)) = false.
Proof. reflexivity. Qed.

Lemma isValidStatusCode_decimal (c : Z) :
  isValidStatusCode (JNum (StringToNumber (decimal c)))
  = (100 <=? c) && (c <=? 599).
Proof.
  destruct (Z_lt_le_dec (Z.abs c) (2 ^ 53)) as [Hs | Hb].
  - rewrite Number_decimal by lia. apply isValidStatusCode_int.
  - replace ((100 <=? c) && (c <=? 599)) with false.
    2:{ symmetry. apply andb_false_iff.
        destruct (Z_lt_le_dec c 0); [left; apply Z.leb_gt; lia |].
        right. apply Z.leb_gt. change (2 ^ 53) with 9007199254740992 in Hb.
        lia. }
    destruct (Number_decimal_big c Hb) as [(b & ->) | (z & Hz & ->)];
      [reflexivity |].
    rewrite isValidStatusCode_int. apply andb_false_iff.
    change (2 ^ 53) with 9007199254740992 in Hz.
    destruct (Z_lt_le_dec z 0); [left; apply Z.leb_gt; lia |].
    right. apply Z.leb_gt. lia.
Qed.

End CodeFacts.

Module RandomFacts.
Import JS Express Index NumberFacts StringFacts.

Lemma floor_finite (q e : Z) :
  floor (finite q e) = if 0 <=? e then q * 2 ^ e else q / 2 ^ (- e).
Proof.
  destruct (finite_spec q e)
    as (m' & e' & -> & [(-> & -> & ->) | (Hq & Hle & Hv & _)]).
  - cbn [floor]. change (0 <=? 0) with true. cbv iota.
    rewrite Z.mul_0_l. destruct (0 <=? e) eqn:E; [now rewrite Z.mul_0_l |].
    apply Z.leb_gt in E. symmetry. apply Z.div_0_l, Z.pow_nonzero; lia.
  - cbn [floor]. subst q.
    destruct (0 <=? e') eqn:He'; destruct (0 <=? e) eqn:He;
      try apply Z.leb_le in He'; try apply Z.leb_le in He;
      try apply Z.leb_gt in He'; try apply Z.leb_gt in He.
    + rewrite <- Z.mul_assoc, <- Z.pow_add_r by lia. do 2 f_equal. lia.
    + replace (e' - e) with (e' + - e) by lia.
      rewrite Z.pow_add_r, Z.mul_assoc by lia.
      rewrite Z.div_mul; [reflexivity | apply Z.pow_nonzero; lia].
    + lia.
    + replace (- e) with (- e' + (e' - e)) by lia.
      rewrite Z.pow_add_r by lia.
      rewrite Z.div_mul_cancel_r; [reflexivity | |];
        apply Z.pow_nonzero; lia.
Qed.

(** The product of a Number below one and a length: [m / 2 ^ j] times
    [N] is rounded to a Number below [N]. *)
Lemma binary64_below (m j N : Z) :
  1 <= m < 2 ^ j -> 0 <= j <= 53 -> 1 <= N < 2 ^ 53 ->
  exists q ex, binary64 (m * N) (2 ^ j) = finite q ex /\
    ex <= 0 /\ 0 <= q < N * 2 ^ (- ex).
Proof.
  intros Hm Hj HN.
  assert (Hn : 0 < m * N) by nia.
  assert (Hpj : 0 < 2 ^ j) by (apply Z.pow_pos_nonneg; lia).
  unfold binary64. rewrite floor_log2_pow2 by lia.
  set (L := Z.log2 (m * N)).
  destruct (Z.log2_spec (m * N) Hn) as [Hlo Hhi]. fold L in Hlo, Hhi.
  assert (HL0 : 0 <= L) by apply Z.log2_nonneg.
  assert (HLj : L < j + 53).
  { apply Z.log2_lt_pow2; [lia |]. rewrite Z.pow_add_r by lia. nia. }
  set (ex := Z.max (L - j - 52) (-1074)).
  assert (Hex : ex <= 0) by (unfold ex; lia).
  assert (Hpe : 0 < 2 ^ (- ex)) by (apply Z.pow_pos_nonneg; lia).
  pose (q := round_half_even (m * N * 2 ^ (- ex)) (2 ^ j)).
  assert (Eq : (if 0 <=? ex
                then round_half_even (m * N) (2 ^ j * 2 ^ ex)
                else round_half_even (m * N * 2 ^ (- ex)) (2 ^ j)) = q).
  { destruct (0 <=? ex) eqn:E; [| reflexivity].
    apply Z.leb_le in E. assert (ex = 0) as E0 by lia. unfold q.
    rewrite E0. change (- 0) with 0. now rewrite Z.pow_0_r, !Z.mul_1_r. }
  rewrite Eq.
  not_below 971 ex.
  differ ex 971.
  cbn [orb andb]. exists q, ex. split; [reflexivity |]. split; [exact Hex |].
  assert (HP : 2 ^ 52 < N * 2 ^ (- ex)).
  { destruct (Z.max_spec (L - j - 52) (-1074)) as [[_ E] | [_ E]];
      fold ex in E.
    - rewrite E. change (- -1074) with 1074.
      assert (2 ^ 52 < 2 ^ 1074) by (apply Z.pow_lt_mono_r; lia). nia.
    - assert (Hs : 2 ^ (- ex) * 2 ^ L = 2 ^ j * 2 ^ 52).
      { rewrite <- !Z.pow_add_r by lia. f_equal. lia. }
      assert (0 < 2 ^ L) by (apply Z.pow_pos_nonneg; lia).
      assert (2 ^ L < 2 ^ j * N) by nia.
      apply (Z.mul_lt_mono_pos_r (2 ^ L)); [lia |]. nia. }
  split.
  - eapply Z.le_trans; [| apply round_half_even_lower; lia].
    apply Z.div_pos; nia.
  - assert (q <= N * 2 ^ (- ex) - 1); [| lia].
    apply round_half_even_below; [lia |].
    assert (2 ^ j <= 2 ^ 53) by (apply Z.pow_le_mono_r; lia).
    change (2 ^ 53) with (2 * 2 ^ 52) in *.
    set (P := N * 2 ^ (- ex)) in *.
    replace (2 * (m * N * 2 ^ (- ex))) with (2 * m * P) by (unfold P; ring).
    nia.
Qed.


(** A draw of [Math.random] picks an element of a non-empty array. *)
Lemma pick_in (codes : list number) (k : Z) :
  codes <> [] -> Z.of_nat (List.length codes) < 2 ^ 53 ->
  exists c, In c codes /\ pick codes (finite (k mod 2 ^ 53) (-53)) = JNum c.
Proof.
  intros Hne HN. set (N := Z.of_nat (List.length codes)) in *.
  assert (HN1 : 1 <= N).
  { destruct codes; [contradiction | unfold N; cbn [List.length]; lia]. }
  pose proof (Z.mod_pos_bound k (2 ^ 53) ltac:(lia)) as HK.
  set (K := k mod 2 ^ 53) in *.
  assert (Hidx : forall i, 0 <= i < N ->
            exists c, In c codes /\
              (if i <? 0 then JUndefined
               else match nth_error codes (Z.to_nat i) with
                    | Some c => JNum c
                    | None => JUndefined
                    end) = JNum c).
  { intros i Hi. not_below i 0.
    destruct (nth_error codes (Z.to_nat i)) as [c |] eqn:E.
    - exists c. split; [eapply nth_error_In; eauto | reflexivity].
    - apply nth_error_None in E. unfold N in Hi. lia. }
  unfold pick. fold N.
  destruct (finite_spec K (-53))
    as (m & e & Er & [(HK0 & -> & ->) | (HK0 & Hle & Hv & Hodd)]);
    rewrite Er.
  - cbn [times]. change (0 <=? 0) with true. cbv iota.
    change (0 * 2 ^ 0 * N) with 0. cbn [of_ratio floor].
    change (0 <=? 0) with true. cbv iota. change (0 * 2 ^ 0) with 0.
    apply Hidx. lia.
  - replace (e - -53) with (e + 53) in Hv by lia.
    assert (Hp : 0 < 2 ^ (e + 53)) by (apply Z.pow_pos_nonneg; lia).
    assert (Hm : 1 <= m) by nia.
    assert (He : e < 0).
    { destruct (Z_lt_le_dec e 0); [assumption | exfalso].
      assert (2 ^ 53 <= 2 ^ (e + 53)) by (apply Z.pow_le_mono_r; lia). nia. }
    assert (Hmj : m < 2 ^ (- e)).
    { assert (Hs : 2 ^ (- e) * 2 ^ (e + 53) = 2 ^ 53).
      { rewrite <- Z.pow_add_r by lia. f_equal. lia. }
      apply (Z.mul_lt_mono_pos_r (2 ^ (e + 53))); [lia |]. lia. }
    cbn [times].
    replace (0 <=? e) with false by (symmetry; apply Z.leb_gt; lia).
    assert (Hmn : 0 < m * N) by nia.
    unfold of_ratio. destruct (m * N) as [| p | p] eqn:Emn; try lia.
    rewrite <- Emn.
    destruct (binary64_below m (- e) N) as (q & ex & -> & Hex & Hq); try lia.
    pose proof (floor_finite q ex) as Hfl.
    destruct (finite q ex) as [| b | m' e'] eqn:Ef.
    + destruct (finite_spec q ex) as (? & ? & E' & _); congruence.
    + destruct (finite_spec q ex) as (? & ? & E' & _); congruence.
    + rewrite Hfl. apply Hidx.
      assert (Hpe : 0 < 2 ^ (- ex)) by (apply Z.pow_pos_nonneg; lia).
      destruct (0 <=? ex) eqn:E0.
      * apply Z.leb_le in E0. assert (ex = 0) by lia. subst ex.
        change (- 0) with 0 in Hq. rewrite Z.pow_0_r, Z.mul_1_r in *. lia.
      * split; [apply Z.div_pos; lia |].
        apply Z.div_lt_upper_bound; lia.
Qed.

End RandomFacts.

Module RangeFacts.
Import JS Express Index NumberFacts StringFacts CodeFacts RandomFacts.

(** ** Every Number read from a string is in lowest terms *)

Lemma binary64_canonical (n d : Z) : canonical (binary64 n d).
Proof.
  unfold binary64.
  destruct (_ || _); [exact I | apply finite_canonical].
Qed.

Lemma signed_canonical (neg : bool) (x : number) :
  canonical x -> canonical (signed neg x).
Proof. destruct neg; [apply canonical_negate | auto]. Qed.

Lemma of_decimal_canonical (neg : bool) (M E : Z) :
  canonical (of_decimal neg M E).
Proof.
  unfold of_decimal.
  repeat match goal with
         | |- canonical (if ?b then _ else _) => destruct b
         end;
    try apply signed_canonical; try apply binary64_canonical;
    simpl; auto.
Qed.

Lemma of_natural_canonical (n : Z) : canonical (of_natural n).
Proof.
  unfold of_natural. destruct (n =? 0); [simpl; auto |].
  apply binary64_canonical.
Qed.

Lemma StringToNumber_canonical (s : jsstring) : canonical (StringToNumber s).
Proof.
  unfold StringToNumber. destruct (trim s) as [| c t]; [simpl; auto |].
  destruct (non_decimal (c :: t)); [apply of_natural_canonical |].
  destruct (take_sign true (c :: t)) as [neg u].
  destruct (str_eqb u (js "Infinity")); [exact I |].
  destruct (str_unsigned_decimal u) as [[M E] |]; [| exact I].
  apply of_decimal_canonical.
Qed.

Lemma finite_odd (m e : Z) : Z.odd m = true -> finite m e = Finite m e.
Proof.
  destruct m as [| p | p]; [discriminate | |]; destruct p; try discriminate;
    reflexivity.
Qed.

(** A Number in lowest terms that is an integer is [int] of it. *)
Lemma integer_canonical (x : number) :
  canonical x -> isInteger x = true -> x = int (floor x).
Proof.
  destruct x as [| b | m e]; try discriminate. cbn [canonical isInteger floor].
  intros [[-> ->] | Hodd] Hint; [reflexivity |].
  assert (He : 0 <= e).
  { destruct (Z_lt_le_dec e 0) as [Hneg | ]; [exfalso | assumption].
    apply orb_true_iff in Hint as [H | H]; [apply Z.leb_le in H; lia |].
    apply Z.eqb_eq in H.
    assert (Hp : 2 ^ (- e) = 2 * 2 ^ (- e - 1)).
    { rewrite <- Z.pow_succ_r by lia. f_equal. lia. }
    apply Z.mod_divide in H; [| apply Z.pow_nonzero; lia].
    destruct H as [k Hk]. rewrite Hp in Hk.
    rewrite Hk in Hodd.
    replace (k * (2 * 2 ^ (- e - 1))) with (2 * (k * 2 ^ (- e - 1))) in Hodd
      by ring.
    rewrite Z.odd_mul in Hodd. discriminate. }
  replace (0 <=? e) with true by (symmetry; apply Z.leb_le; lia).
  rewrite <- finite_int by lia. symmetry. now apply finite_odd.
Qed.

Lemma integer_int (x : number) (a : Z) :
  canonical x -> Spec.integer x = Some a -> x = int a.
Proof.
  unfold Spec.integer. intros Hc.
  destruct (isInteger x) eqn:Hi; [| discriminate].
  intros [= <-]. now apply integer_canonical.
Qed.

Lemma integer_None (x : number) :
  Spec.integer x = None -> isInteger x = false.
Proof. unfold Spec.integer. now destruct (isInteger x). Qed.

Lemma validCode_int (c : Z) :
  isValidStatusCode (JNum (int c)) = Spec.validCode c.
Proof. apply isValidStatusCode_int. Qed.

Lemma isValidStatusCode_not_integer (x : number) :
  isInteger x = false -> isValidStatusCode (JNum x) = false.
Proof. unfold isValidStatusCode. cbn [Number]. now intros ->. Qed.

(** ** The loop *)

Lemma succ_int (a : Z) : 0 <= a < 2 ^ 53 - 1 -> succ (int a) = int (a + 1).
Proof.
  intros Ha. destruct (int_spec a) as (m & e & E & He & Hv). rewrite E.
  cbn [succ]. replace (0 <=? e) with true by (symmetry; apply Z.leb_le; lia).
  rewrite <- Hv. unfold of_ratio.
  destruct (a + 1) as [| p | p] eqn:Ea; try lia.
  rewrite <- Ea. apply binary64_int. lia.
Qed.

Lemma push_range_upto (turns : nat) :
  forall a b, 0 <= a -> b < 2 ^ 53 - 1 ->
  (Z.to_nat (b - a + 1) <= turns)%nat ->
  push_range turns (int a) (int b)
  = map int (Spec.upto (Z.to_nat (b - a + 1)) a).
Proof.
  induction turns as [| t IH]; intros a b Ha Hb Ht.
  - assert (E : Z.to_nat (b - a + 1) = O) by lia. now rewrite E.
  - cbn [push_range]. rewrite le_int.
    destruct (a <=? b) eqn:Hab.
    + apply Z.leb_le in Hab.
      replace (Z.to_nat (b - a + 1)) with (S (Z.to_nat (b - (a + 1) + 1)))
        by lia.
      cbn [Spec.upto map]. f_equal.
      rewrite succ_int by lia. apply IH; lia.
    + apply Z.leb_gt in Hab.
      assert (E : Z.to_nat (b - a + 1) = O) by lia. now rewrite E.
Qed.

Lemma push_range_inclusive (a b : Z) :
  Spec.validCode a = true -> Spec.validCode b = true ->
  push_range 500 (int a) (int b) = map int (Spec.inclusive a b).
Proof.
  unfold Spec.validCode, Spec.inclusive. intros Ha Hb.
  apply andb_true_iff in Ha as [Ha1 Ha2].
  apply andb_true_iff in Hb as [Hb1 Hb2].
  apply Z.leb_le in Ha1, Ha2, Hb1, Hb2.
  apply push_range_upto; lia.
Qed.

(** ** The parser against the specification's *)

Lemma parsePart_segment (part : jsstring) :
  parsePart part = map int (Spec.segment part).
Proof.
  unfold parsePart, Spec.segment.
  destruct (includes part (js "-")).
  - destruct (split 45 part) as [| start [| end_ rest]]; try reflexivity.
    cbn [map Number].
    pose proof (StringToNumber_canonical start) as Cs.
    pose proof (StringToNumber_canonical end_) as Ce.
    destruct (Spec.integer (StringToNumber start)) as [a |] eqn:Ea.
    2:{ now rewrite (integer_None _ Ea). }
    destruct (Spec.integer (StringToNumber end_)) as [b |] eqn:Eb.
    2:{ rewrite (integer_None _ Eb), andb_false_r. reflexivity. }
    rewrite (integer_int _ _ Cs Ea), (integer_int _ _ Ce Eb).
    rewrite !isInteger_int, le_int, !validCode_int. cbn [andb].
    destruct (a <=? b); [| reflexivity]. cbn [andb].
    destruct (Spec.validCode a) eqn:Va; [| reflexivity].
    destruct (Spec.validCode b) eqn:Vb; [| reflexivity].
    cbn [andb]. now apply push_range_inclusive.
  - cbn [Number].
    pose proof (StringToNumber_canonical part) as Cp.
    destruct (Spec.integer (StringToNumber part)) as [c |] eqn:Ec.
    + rewrite (integer_int _ _ Cp Ec), validCode_int.
      now destruct (Spec.validCode c).
    + now rewrite (isValidStatusCode_not_integer _ (integer_None _ Ec)).
Qed.

Lemma fold_left_append {A B} (f : A -> list B) (l : list A) (acc : list B) :
  fold_left (fun codes part => codes ++ f part) l acc = acc ++ flat_map f l.
Proof.
  revert acc; induction l as [| x l IH]; intro acc; cbn [fold_left flat_map].
  - now rewrite app_nil_r.
  - now rewrite IH, app_assoc.
Qed.

Lemma parseStatusCodeRange_parts (s : jsstring) :
  parseStatusCodeRange s = flat_map parsePart (split 44 s).
Proof. unfold parseStatusCodeRange. now rewrite fold_left_append. Qed.

Lemma parseStatusCodeRange_refines (s : jsstring) :
  parseStatusCodeRange s = map int (Spec.parseRange s).
Proof.
  rewrite parseStatusCodeRange_parts. unfold Spec.parseRange.
  induction (split 44 s) as [| p ps IH]; [reflexivity |].
  cbn [flat_map]. now rewrite map_app, IH, parsePart_segment.
Qed.

End RangeFacts.

(* ================================================================== *)
(** * Facts about the handlers *)
(* ================================================================== *)

Module HandlerFacts.
Import JS Express Index Endpoints NumberFacts StringFacts CodeFacts
  RandomFacts RangeFacts.

Lemma delay_run (s : jsvalue) (w : world) :
  delay s w = (tt, after_delay s w).
Proof.
  unfold delay, after_delay, requested_delay.
  destruct (truthy s); [| reflexivity]. cbn [andb].
  destruct (negb (isNaN (parseInt s)) && lt (int 0) (parseInt s));
    reflexivity.
Qed.

Lemma log_after_delay (s : jsvalue) (w : world) :
  log (after_delay s w)
  = log w ++ match requested_delay s with
             | Some ms => [Timer ms]
             | None => []
             end.
Proof.
  unfold after_delay. destruct (requested_delay s); cbn.
  - reflexivity.
  - now rewrite app_nil_r.
Qed.

Lemma now_after_delay (s : jsvalue) (w : world) :
  now (after_delay s w)
  = match requested_delay s with
    | Some ms => now w + elapse w ms
    | None => now w
    end.
Proof. unfold after_delay. now destruct (requested_delay s). Qed.

(** The four handlers on a request that is routed and valid. *)

Lemma Rev1_handleCode_run (req : request) (w : world) :
  routed code1 req = true -> valid code1 req = true ->
  Rev1.handleCode req w
  = (Rev1.reply req (JNum (Number (JStr (param req)))) (customBody req),
     after_delay (sleep req) w).
Proof.
  cbn [routed valid code1]. unfold validCodeParam, Rev1.handleCode.
  intros Hr Hv. apply negb_true_iff in Hr. rewrite Hr.
  change (isValidStatusCode (JNum (Number (JStr (param req))))) with
    (isValidStatusCode (JNum (StringToNumber (param req)))).
  cbn [Number] in Hv.
  replace (isValidStatusCode (JNum (StringToNumber (param req)))) with true.
  cbn [negb]. unfold bind. rewrite delay_run. reflexivity.
Qed.

Lemma Rev1_handleRandom_run (req : request) (w : world) :
  valid random1 req = true ->
  let r := finite (entropy w mod 2 ^ 53) (-53) in
  Rev1.handleRandom req w
  = (Rev1.reply req (pick (parseStatusCodeRange (param req)) r)
       (customBody req),
     after_delay (sleep req) (emit (Random r) w)).
Proof.
  intros Hv r. cbn [valid random1] in Hv.
  unfold validRangeParam in Hv. unfold Rev1.handleRandom.
  destruct (parseStatusCodeRange (param req)); [discriminate |].
  unfold bind, Math_random. fold r. rewrite delay_run. reflexivity.
Qed.

Lemma Rev2_reply_run (req : request) (sc custom : jsvalue)
  (rc def : jsstring) (start : Z) (w : world) :
  Rev2.reply req sc custom rc def start w
  = (if is_undefined custom
     then Respond sc (Json (Rev2.envelope req sc rc def start (now w)))
     else sendCustom sc custom,
     emit (Clock (now w)) w).
Proof.
  unfold Rev2.reply, bind, new_Date.
  destruct (is_undefined custom); reflexivity.
Qed.

Lemma Rev2_handleCode_run (req : request) (w : world) :
  routed code2 req = true -> valid code2 req = true ->
  let sc := JNum (Number (JStr (param req))) in
  let w1 := after_delay (sleep req) (emit (Clock (now w)) w) in
  Rev2.handleCode req w
  = (if is_undefined (customBody req)
     then Respond sc
            (Json (Rev2.envelope req sc (param req)
                     (getStatusDescription sc) (now w) (now w1)))
     else sendCustom sc (customBody req),
     emit (Clock (now w1)) w1).
Proof.
  intros Hr Hv sc w1. cbn [routed valid code2] in Hr, Hv.
  unfold validCodeParam in Hv. unfold Rev2.handleCode.
  apply negb_true_iff in Hr. rewrite Hr.
  unfold bind at 1. unfold new_Date at 1.
  rewrite Hv. cbn [negb]. unfold bind. rewrite delay_run.
  rewrite Rev2_reply_run. reflexivity.
Qed.

Lemma Rev2_handleRandom_run (req : request) (w : world) :
  valid random2 req = true ->
  let r := finite (entropy w mod 2 ^ 53) (-53) in
  let sc := pick (parseStatusCodeRange (param req)) r in
  let w1 := after_delay (sleep req)
              (emit (Random r) (emit (Clock (now w)) w)) in
  Rev2.handleRandom req w
  = (if is_undefined (customBody req)
     then Respond sc
            (Json (Rev2.envelope req sc (param req)
                     (getStatusDescription sc) (now w) (now w1)))
     else sendCustom sc (customBody req),
     emit (Clock (now w1)) w1).
Proof.
  intros Hv r sc w1. cbn [valid random2] in Hv.
  unfold validRangeParam in Hv. unfold Rev2.handleRandom.
  unfold bind at 1. unfold new_Date at 1. subst sc.
  destruct (parseStatusCodeRange (param req)) eqn:E; [discriminate |].
  unfold bind, Math_random. cbn [entropy emit]. fold r.
  rewrite delay_run, Rev2_reply_run. reflexivity.
Qed.

(** ... and on one that is routed and not valid. *)

Lemma Rev1_handleCode_reject (req : request) (w : world) :
  routed code1 req = true -> valid code1 req = false ->
  Rev1.handleCode req w = (invalidCode, w).
Proof.
  cbn [routed valid code1]. unfold validCodeParam, Rev1.handleCode.
  intros Hr Hv. apply negb_true_iff in Hr. rewrite Hr.
  cbn [Number] in *. now rewrite Hv.
Qed.

Lemma Rev2_handleCode_reject (req : request) (w : world) :
  routed code2 req = true -> valid code2 req = false ->
  Rev2.handleCode req w = (invalidCode, emit (Clock (now w)) w).
Proof.
  cbn [routed valid code2]. unfold validCodeParam, Rev2.handleCode.
  intros Hr Hv. apply negb_true_iff in Hr. rewrite Hr.
  cbn [Number] in *. unfold bind, new_Date. now rewrite Hv.
Qed.

Lemma Rev1_handleRandom_reject (req : request) (w : world) :
  valid random1 req = false -> Rev1.handleRandom req w = (invalidRange, w).
Proof.
  cbn [valid random1]. unfold validRangeParam, Rev1.handleRandom.
  now destruct (parseStatusCodeRange (param req)).
Qed.

Lemma Rev2_handleRandom_reject (req : request) (w : world) :
  valid random2 req = false ->
  Rev2.handleRandom req w = (invalidRange, emit (Clock (now w)) w).
Proof.
  cbn [valid random2]. unfold validRangeParam, Rev2.handleRandom.
  unfold bind, new_Date.
  now destruct (parseStatusCodeRange (param req)).
Qed.

End HandlerFacts.

Module ValidatorFacts.
Import JS Express Index Endpoints NumberFacts StringFacts CodeFacts
  RandomFacts RangeFacts HandlerFacts.

Lemma in_range_valid (s : jsstring) :
  Spec.in_range s = isValidStatusCode (JStr s).
Proof.
  unfold Spec.in_range. cbn [Number].
  change (isValidStatusCode (JStr s))
    with (isValidStatusCode (JNum (StringToNumber s))).
  pose proof (StringToNumber_canonical s) as Hc.
  destruct (Spec.integer (StringToNumber s)) as [c |] eqn:E.
  - now rewrite (integer_int _ _ Hc E), validCode_int.
  - now rewrite (isValidStatusCode_not_integer _ (integer_None _ E)).
Qed.

(** What the validator accepts is an integer from 100 to 599. *)
Lemma isValidStatusCode_iff (s : jsstring) :
  isValidStatusCode (JStr s) = true
  <-> exists c, 100 <= c <= 599 /\ Number (JStr s) = int c.
Proof.
  cbn [Number]. split.
  - intros H. rewrite <- in_range_valid in H. unfold Spec.in_range in H.
    cbn [Number] in H.
    destruct (Spec.integer (StringToNumber s)) as [c |] eqn:E;
      [| discriminate].
    exists c. split.
    + unfold Spec.validCode in H. apply andb_true_iff in H as [H1 H2].
      apply Z.leb_le in H1, H2. lia.
    + apply integer_int; [apply StringToNumber_canonical | exact E].
  - intros (c & Hc & E).
    change (isValidStatusCode (JStr s))
      with (isValidStatusCode (JNum (StringToNumber s))).
    rewrite E, isValidStatusCode_int. apply andb_true_iff.
    split; apply Z.leb_le; lia.
Qed.

(** A text that starts below the letters is no reserved name. *)
Lemma not_reserved (words : list jsstring) (d : char) (t : jsstring) :
  Forall (fun w => match w with [] => True | c :: _ => d < c end) words ->
  array_includes words (d :: t) = false.
Proof.
  unfold array_includes. induction 1 as [| w ws Hw _ IH]; [reflexivity |].
  cbn [existsb]. rewrite IH, orb_false_r.
  destruct w as [| c w]; [reflexivity |]. cbn [str_eqb].
  differ d c.
  reflexivity.
Qed.

Lemma decimal_not_reserved (words : list jsstring) (c : Z) :
  Forall (fun w => match w with [] => True | x :: _ => 57 < x end) words ->
  array_includes words (decimal c) = false.
Proof.
  intros H. destruct (decimal_shape c) as (s & Hne & Hall & _ & ->).
  destruct s as [| d t]; [contradiction |].
  cbn [forallb] in Hall. apply andb_true_iff in Hall as [Hd _].
  apply digit_range in Hd.
  destruct (c <? 0); apply not_reserved;
    (eapply Forall_impl; [| exact H]); intros [| x w]; auto; lia.
Qed.

Lemma reserved_letters1 :
  Forall (fun w => match w with [] => True | x :: _ => 57 < x end)
    Rev1.reserved.
Proof. repeat constructor. Qed.

Lemma reserved_letters2 :
  Forall (fun w => match w with [] => True | x :: _ => 57 < x end)
    Rev2.reserved.
Proof. repeat constructor. Qed.

Lemma decimal_routed (ep : endpoint) (req : request) (c : Z) :
  In ep codeEndpoints -> param req = decimal c -> routed ep req = true.
Proof.
  intros [<- | [<- | []]] E; cbn [routed code1 code2]; rewrite E;
    apply negb_true_iff, decimal_not_reserved;
    [apply reserved_letters1 | apply reserved_letters2].
Qed.

Lemma decimal_valid (ep : endpoint) (req : request) (c : Z) :
  In ep codeEndpoints -> param req = decimal c ->
  valid ep req = (100 <=? c) && (c <=? 599).
Proof.
  intros [<- | [<- | []]] E; cbn [valid code1 code2];
    unfold validCodeParam; rewrite E; apply isValidStatusCode_decimal.
Qed.

(** The status of the reply of a single-code endpoint to a request that
    is routed and valid is the Number of the path value. *)
Lemma code_status_valid (ep : endpoint) (req : request) (w : world) :
  In ep codeEndpoints -> routed ep req = true -> valid ep req = true ->
  status_of (fst (handler ep req w))
  = Some (JNum (Number (JStr (param req)))).
Proof.
  intros [<- | [<- | []]] Hr Hv; cbn [handler code1 code2].
  - rewrite Rev1_handleCode_run by assumption. cbn [fst].
    unfold Rev1.reply, sendCustom.
    repeat match goal with
           | |- context [if ?b then _ else _] => destruct b
           end; reflexivity.
  - rewrite Rev2_handleCode_run by assumption. cbn [fst].
    unfold sendCustom.
    repeat match goal with
           | |- context [if ?b then _ else _] => destruct b
           end; reflexivity.
Qed.

Lemma code_reject (ep : endpoint) (req : request) (w : world) :
  In ep codeEndpoints -> routed ep req = true -> valid ep req = false ->
  fst (handler ep req w) = invalidCode.
Proof.
  intros [<- | [<- | []]] Hr Hv; cbn [handler code1 code2].
  - now rewrite Rev1_handleCode_reject.
  - now rewrite Rev2_handleCode_reject.
Qed.

Lemma code_unrouted (ep : endpoint) (req : request) (w : world) :
  In ep codeEndpoints -> routed ep req = false ->
  handler ep req w = (Next, w).
Proof.
  intros [<- | [<- | []]] Hr; cbn [handler routed code1 code2] in *;
    apply negb_false_iff in Hr.
  - unfold Rev1.handleCode. now rewrite Hr.
  - unfold Rev2.handleCode. now rewrite Hr.
Qed.

(** A path value that passes validation is no reserved name. *)
Lemma valid_not_reserved (p : jsstring) :
  isValidStatusCode (JStr p) = true ->
  array_includes Rev1.reserved p = false /\
  array_includes Rev2.reserved p = false.
Proof.
  intros Hv.
  assert (H : forall words,
            Forall (fun x => isValidStatusCode (JStr x) = false) words ->
            array_includes words p = false).
  { intros words Hw. apply not_true_is_false. intro Hin.
    unfold array_includes in Hin. apply existsb_exists in Hin.
    destruct Hin as (x & Hx & E). apply str_eqb_eq in E. subst x.
    rewrite Forall_forall in Hw. specialize (Hw p Hx). congruence. }
  split; apply H;
    repeat (apply Forall_cons; [vm_compute; reflexivity |]); apply Forall_nil.
Qed.

End ValidatorFacts.

Module SplitFacts.
Import JS Index RangeFacts.

Lemma split_nonempty (sep : char) (s : jsstring) : split sep s <> [].
Proof.
  destruct s as [| c s]; cbn [split]; [discriminate |].
  destruct (c =? sep); [discriminate |].
  destruct (split sep s); discriminate.
Qed.

Lemma split_app (sep : char) (s1 s2 : jsstring) :
  split sep (s1 ++ sep :: s2) = split sep s1 ++ split sep s2.
Proof.
  induction s1 as [| c s1 IH]; cbn [app split].
  - now rewrite Z.eqb_refl.
  - destruct (c =? sep); [now rewrite IH |].
    rewrite IH. pose proof (split_nonempty sep s1) as Hne.
    destruct (split sep s1); [contradiction | reflexivity].
Qed.

Lemma split_none (sep : char) (s : jsstring) :
  ~ In sep s -> split sep s = [s].
Proof.
  induction s as [| c s IH]; intros Hn; cbn [split]; [reflexivity |].
  destruct (Z.eqb_spec c sep) as [-> | _]; [exfalso; apply Hn; now left |].
  rewrite IH; [reflexivity |]. intro H. apply Hn. now right.
Qed.

End SplitFacts.

Module EndpointFacts.
Import JS Express Index Endpoints NumberFacts StringFacts CodeFacts
  RandomFacts RangeFacts HandlerFacts ValidatorFacts.

(** ** The redirect guard *)

Lemma redirect_guard (s : jsstring) :
  negb (isValidStatusCode (JNum (StringToNumber s)))
  || lt (StringToNumber s) (int 300) || lt (int 308) (StringToNumber s)
  = negb (Spec.redirect_code s).
Proof.
  unfold Spec.redirect_code. cbn [Number].
  pose proof (StringToNumber_canonical s) as Hc.
  destruct (Spec.integer (StringToNumber s)) as [c |] eqn:E.
  - rewrite (integer_int _ _ Hc E), isValidStatusCode_int, !lt_int.
    destruct (Z.leb_spec 100 c), (Z.leb_spec c 599), (Z.ltb_spec c 300),
      (Z.ltb_spec 308 c), (Z.leb_spec 300 c), (Z.leb_spec c 308);
      cbn; try reflexivity; lia.
  - now rewrite (isValidStatusCode_not_integer _ (integer_None _ E)).
Qed.

Lemma redirect_code_int (s : jsstring) :
  Spec.redirect_code s = true ->
  exists c, 300 <= c <= 308 /\ Number (JStr s) = int c.
Proof.
  unfold Spec.redirect_code. cbn [Number].
  destruct (Spec.integer (StringToNumber s)) as [c |] eqn:E; [| discriminate].
  intros H. apply andb_true_iff in H as [H1 H2]. apply Z.leb_le in H1, H2.
  exists c. split; [lia |].
  apply integer_int; [apply StringToNumber_canonical | exact E].
Qed.

Lemma falsy_query_value (v : jsvalue) :
  is_query_value v = true ->
  (truthy v = false <-> v = JUndefined \/ v = JStr []).
Proof.
  destruct v as [| | b | x | s | l | m]; cbn; try discriminate; intros _.
  - tauto.
  - destruct s; split; auto; try discriminate.
    intros [H | H]; discriminate.
  - split; [discriminate | intros [H | H]; discriminate].
  - split; [discriminate | intros [H | H]; discriminate].
Qed.

(** ** The log *)

Lemma draws_app (l l' : list event) : draws (l ++ l') = draws l ++ draws l'.
Proof. apply flat_map_app. Qed.

Lemma timers_app (l l' : list event) :
  timers (l ++ l') = timers l ++ timers l'.
Proof. apply flat_map_app. Qed.

Lemma draws_after_delay (s : jsvalue) (w : world) :
  draws (log (after_delay s w)) = draws (log w).
Proof.
  rewrite log_after_delay, draws_app.
  destruct (requested_delay s); cbn; now rewrite app_nil_r.
Qed.

(** ** The codes of a range are valid *)

Lemma In_upto (n : nat) :
  forall a c, In c (Spec.upto n a) -> a <= c < a + Z.of_nat n.
Proof.
  induction n as [| n IH]; intros a c; cbn [Spec.upto]; [intros [] |].
  intros [<- | H]; [lia |]. apply IH in H. lia.
Qed.

Lemma segment_valid (seg : jsstring) (c : Z) :
  In c (Spec.segment seg) -> 100 <= c <= 599.
Proof.
  unfold Spec.segment, Spec.validCode.
  destruct (includes seg (js "-")).
  - destruct (split 45 seg) as [| start [| end_ rest]]; try (intros []).
    destruct (Spec.integer _) as [a |]; [| intros []].
    destruct (Spec.integer _) as [b |]; [| intros []].
    destruct ((a <=? b) && _ && _) eqn:G; [| intros []].
    apply andb_true_iff in G as [G Gb]. apply andb_true_iff in G as [Gab Ga].
    apply andb_true_iff in Ga as [Ga1 Ga2].
    apply andb_true_iff in Gb as [Gb1 Gb2].
    apply Z.leb_le in Gab, Ga1, Ga2, Gb1, Gb2.
    unfold Spec.inclusive. intros H. apply In_upto in H. lia.
  - destruct (Spec.integer _) as [z |]; [| intros []].
    destruct ((100 <=? z) && (z <=? 599)) eqn:G; [| intros []].
    apply andb_true_iff in G as [G1 G2]. apply Z.leb_le in G1, G2.
    intros [<- | []]. lia.
Qed.

Lemma parsed_codes_valid (s : jsstring) (x : number) :
  In x (parseStatusCodeRange s) ->
  exists c, 100 <= c <= 599 /\ x = int c.
Proof.
  rewrite parseStatusCodeRange_refines. intros H.
  apply in_map_iff in H as (c & <- & H). exists c. split; [| reflexivity].
  unfold Spec.parseRange in H. apply in_flat_map in H as (seg & _ & H).
  eapply segment_valid; eauto.
Qed.

(** ** The random endpoints *)

Lemma random_reject (ep : endpoint) (req : request) (w : world) :
  In ep randomEndpoints -> valid ep req = false ->
  fst (handler ep req w) = invalidRange /\
  draws (log (snd (handler ep req w))) = draws (log w).
Proof.
  intros [<- | [<- | []]] Hv; cbn [handler random1 random2].
  - rewrite Rev1_handleRandom_reject by assumption. auto.
  - rewrite Rev2_handleRandom_reject by assumption. cbn [fst snd emit log].
    split; [reflexivity |]. rewrite draws_app. cbn. apply app_nil_r.
Qed.

Lemma sendCustom_shape (sc custom : jsvalue) :
  status_of (sendCustom sc custom) = Some sc /\
  forall msg, payload_of (sendCustom sc custom) <> Some (Send msg).
Proof.
  unfold sendCustom. destruct (typeof_object custom); cbn;
    split; auto; discriminate.
Qed.

Lemma random_accept (ep : endpoint) (req : request) (w : world) :
  In ep randomEndpoints -> valid ep req = true ->
  status_of (fst (handler ep req w))
  = Some (pick (parseStatusCodeRange (param req))
            (finite (entropy w mod 2 ^ 53) (-53))) /\
  (forall msg, payload_of (fst (handler ep req w)) <> Some (Send msg)) /\
  draws (log (snd (handler ep req w)))
  = draws (log w) ++ [finite (entropy w mod 2 ^ 53) (-53)].
Proof.
  intros [<- | [<- | []]] Hv; cbn [handler random1 random2].
  - rewrite Rev1_handleRandom_run by assumption. cbn [fst snd].
    split; [| split].
    + unfold Rev1.reply.
      destruct (negb _); [apply sendCustom_shape |].
      destruct (includes _ _); reflexivity.
    + unfold Rev1.reply.
      destruct (negb _); [apply sendCustom_shape |].
      destruct (includes _ _); discriminate.
    + rewrite draws_after_delay. cbn [emit log]. rewrite draws_app.
      reflexivity.
  - rewrite Rev2_handleRandom_run by assumption. cbn [fst snd].
    split; [| split].
    + destruct (is_undefined _); [reflexivity | apply sendCustom_shape].
    + destruct (is_undefined _); [discriminate | apply sendCustom_shape].
    + cbn [emit log]. rewrite draws_app, draws_after_delay.
      cbn [emit log]. rewrite !draws_app. cbn. now rewrite !app_nil_r.
Qed.

Lemma valid_range_iff (ep : endpoint) (req : request) :
  In ep randomEndpoints ->
  (valid ep req = false <-> parseStatusCodeRange (param req) = []).
Proof.
  intros [<- | [<- | []]]; cbn [valid random1 random2];
    unfold validRangeParam;
    destruct (parseStatusCodeRange (param req)); split; auto; discriminate.
Qed.

End EndpointFacts.

Module DelayFacts.
Import JS Express Index Endpoints NumberFacts StringFacts CodeFacts
  RandomFacts RangeFacts HandlerFacts ValidatorFacts
  EndpointFacts.

Lemma parseInt_decimal (z : Z) :
  parseInt (JStr (decimal z)) = signed (z <? 0) (of_natural (Z.abs z)).
Proof.
  unfold parseInt. cbn [ToString]. unfold parseInt10.
  destruct (decimal_shape z) as (s & Hne & Hall & Hv & ->).
  destruct s as [| d t]; [contradiction |].
  assert (Hd : is_whitespace d = false).
  { cbn [forallb] in Hall. apply andb_true_iff in Hall as [Hd _].
    now apply digit_not_space. }
  destruct (z <? 0).
  - cbn [trim_start]. change (is_whitespace 45) with false. cbv iota.
    cbn [take_sign]. change (45 =? 45) with true. cbv iota.
    rewrite (span_digits_all _ Hall). cbn [fst]. now rewrite Hv.
  - cbn [trim_start]. rewrite Hd. rewrite (take_sign_digits _ Hall).
    rewrite (span_digits_all _ Hall). cbn [fst]. now rewrite Hv.
Qed.

Lemma decimal_truthy (z : Z) : truthy (JStr (decimal z)) = true.
Proof.
  destruct (decimal_shape z) as (s & Hne & _ & _ & ->).
  destruct (z <? 0); [reflexivity |]. now destruct s.
Qed.

Lemma requested_delay_positive (z : Z) :
  0 < z < 2 ^ 53 -> requested_delay (JStr (decimal z)) = Some (int z).
Proof.
  intros Hz. unfold requested_delay.
  rewrite decimal_truthy, parseInt_decimal.
  not_below z 0.
  cbn [signed]. unfold of_natural.
  differ (Z.abs z) 0.
  rewrite binary64_int by lia. rewrite Z.abs_eq by lia.
  rewrite lt_int. replace (0 <? z) with true by (symmetry; apply Z.ltb_lt; lia).
  destruct (int_spec z) as (m & e & -> & _). reflexivity.
Qed.

Lemma requested_delay_nonpositive (z : Z) :
  z <= 0 -> requested_delay (JStr (decimal z)) = None.
Proof.
  intros Hz. unfold requested_delay.
  rewrite decimal_truthy, parseInt_decimal. cbn [andb].
  assert (H : lt (int 0) (signed (z <? 0) (of_natural (Z.abs z))) = false).
  { destruct (Z.eq_dec z 0) as [-> | Hnz]; [reflexivity |].
    replace (z <? 0) with true by (symmetry; apply Z.ltb_lt; lia).
    cbn [signed]. unfold of_natural.
    differ (Z.abs z) 0.
    destruct (Z_lt_le_dec (Z.abs z) (2 ^ 53)) as [Hs | Hb].
    - rewrite binary64_int by lia. unfold int at 2.
      rewrite negate_finite. fold (int (- Z.abs z)). rewrite lt_int.
      apply Z.ltb_ge. lia.
    - destruct (binary64_big _ Hb) as [-> | (n & Hn & ->)]; [reflexivity |].
      unfold int at 2. rewrite negate_finite. fold (int (- n)).
      rewrite lt_int. apply Z.ltb_ge. lia. }
  rewrite H. now rewrite andb_false_r.
Qed.

Lemma requested_delay_NaN (s : jsvalue) :
  parseInt s = NaN -> requested_delay s = None.
Proof.
  intros H. unfold requested_delay. rewrite H. cbn.
  now rewrite andb_false_r.
Qed.

(** ** Every endpoint, on a request that is routed and valid *)

(** The events before the delay and after it, and the status. *)
Lemma handler_run (ep : endpoint) (req : request) (w : world) :
  In ep endpoints -> routed ep req = true -> valid ep req = true ->
  exists (pre : list event) (clocked : bool) (sc : jsvalue),
    timers pre = [] /\
    (forall w', now (fold_left (fun x ev => emit ev x) pre w') = now w') /\
    let w1 := after_delay (sleep req)
                (fold_left (fun x ev => emit ev x) pre w) in
    snd (handler ep req w)
    = (if clocked then emit (Clock (now w1)) w1 else w1) /\
    status_of (fst (handler ep req w)) = Some sc /\
    (is_undefined (customBody req) = false ->
     fst (handler ep req w) = sendCustom sc (customBody req)).
Proof.
  intros [<- | [<- | [<- | [<- | []]]]] Hr Hv;
    cbn [handler code1 random1 code2 random2].
  - exists [], false, (JNum (Number (JStr (param req)))).
    rewrite Rev1_handleCode_run by assumption. cbn [fst snd fold_left].
    repeat split; auto.
    + unfold Rev1.reply. destruct (negb _); [apply sendCustom_shape |].
      destruct (includes _ _); reflexivity.
    + intros Hu. unfold Rev1.reply. now rewrite Hu.
  - exists [Random (finite (entropy w mod 2 ^ 53) (-53))], false,
      (pick (parseStatusCodeRange (param req))
         (finite (entropy w mod 2 ^ 53) (-53))).
    rewrite Rev1_handleRandom_run by assumption. cbn [fst snd fold_left].
    repeat split; auto.
    + unfold Rev1.reply. destruct (negb _); [apply sendCustom_shape |].
      destruct (includes _ _); reflexivity.
    + intros Hu. unfold Rev1.reply. now rewrite Hu.
  - exists [Clock (now w)], true, (JNum (Number (JStr (param req)))).
    rewrite Rev2_handleCode_run by assumption. cbn [fst snd fold_left].
    repeat split; auto.
    + destruct (is_undefined _); [reflexivity | apply sendCustom_shape].
    + now intros ->.
  - exists [Clock (now w); Random (finite (entropy w mod 2 ^ 53) (-53))],
      true,
      (pick (parseStatusCodeRange (param req))
         (finite (entropy w mod 2 ^ 53) (-53))).
    rewrite Rev2_handleRandom_run by assumption. cbn [fst snd fold_left].
    repeat split; auto.
    + destruct (is_undefined _); [reflexivity | apply sendCustom_shape].
    + now intros ->.
Qed.

Lemma log_emits (pre : list event) :
  forall w, log (fold_left (fun x ev => emit ev x) pre w) = log w ++ pre.
Proof.
  induction pre as [| ev pre IH]; intro w; cbn [fold_left].
  - now rewrite app_nil_r.
  - rewrite IH. cbn [emit log]. now rewrite <- app_assoc.
Qed.

Lemma elapse_emits (pre : list event) :
  forall w, elapse (fold_left (fun x ev => emit ev x) pre w) = elapse w.
Proof.
  induction pre as [| ev pre IH]; intro w; cbn [fold_left]; [reflexivity |].
  now rewrite IH.
Qed.

(** ... and on one that is routed and not valid. *)
Lemma handler_reject (ep : endpoint) (req : request) (w : world) :
  In ep endpoints -> routed ep req = true -> valid ep req = false ->
  exists clocked : bool,
    handler ep req w
    = (rejection ep, if clocked then emit (Clock (now w)) w else w).
Proof.
  intros [<- | [<- | [<- | [<- | []]]]] Hr Hv;
    cbn [handler rejection code1 random1 code2 random2].
  - exists false. now apply Rev1_handleCode_reject.
  - exists false. now apply Rev1_handleRandom_reject.
  - exists true. now apply Rev2_handleCode_reject.
  - exists true. now apply Rev2_handleRandom_reject.
Qed.

Lemma routing_by_param (ep : endpoint) (req req' : request) :
  In ep endpoints -> param req' = param req ->
  routed ep req' = routed ep req /\ valid ep req' = valid ep req.
Proof.
  intros [<- | [<- | [<- | [<- | []]]]] E;
    cbn [routed valid code1 random1 code2 random2];
    unfold validCodeParam, validRangeParam; now rewrite E.
Qed.

End DelayFacts.

Module ReplyFacts.
Import JS Express Index Endpoints NumberFacts StringFacts CodeFacts
  RandomFacts RangeFacts HandlerFacts ValidatorFacts
  EndpointFacts DelayFacts.

Lemma upto_In (n : nat) :
  forall a c, a <= c < a + Z.of_nat n -> In c (Spec.upto n a).
Proof.
  induction n as [| n IH]; intros a c H; [lia |]. cbn [Spec.upto].
  destruct (Z.eq_dec a c) as [-> | Hne]; [now left | right].
  apply IH. lia.
Qed.

(** The text of a valid code is its decimal digits. *)
Lemma code_toString (c : Z) :
  100 <= c <= 599 -> ToString (JNum (int c)) = decimal c.
Proof.
  intros Hc. cbn [ToString].
  assert (H : forallb (fun z => str_eqb (Number_toString (int z)) (decimal z))
                (Spec.upto 500 100) = true) by (vm_compute; reflexivity).
  rewrite forallb_forall in H. apply str_eqb_eq, H, upto_In. lia.
Qed.

Lemma customBody_param (req : request) (b : jsstring) :
  bodyParam req = JStr b ->
  customBody req = nullish (tryParseJSON (JStr b)) (JStr b).
Proof. unfold customBody. now intros ->. Qed.

Lemma nullish_defined (a : jsvalue) (b : jsstring) :
  is_undefined (nullish a (JStr b)) = false.
Proof. now destruct a. Qed.

(** The reply of the earlier revision when there is no custom body. *)
Lemma Rev1_default (ep : endpoint) (req : request) (w : world) :
  In ep [code1; random1] ->
  customBody req = JUndefined ->
  routed ep req = true -> valid ep req = true ->
  exists sc, fst (handler ep req w) = Rev1.reply req sc JUndefined.
Proof.
  intros [<- | [<- | []]] Hc Hr Hv; cbn [handler code1 random1].
  - rewrite Rev1_handleCode_run by assumption. rewrite Hc. cbn [fst]. eauto.
  - rewrite Rev1_handleRandom_run by assumption. rewrite Hc. cbn [fst].
    eauto.
Qed.

(** The reply of the later revision when there is no custom body. *)
Lemma Rev2_default (ep : endpoint) (req : request) (w : world) :
  In ep [code2; random2] ->
  customBody req = JUndefined ->
  routed ep req = true -> valid ep req = true ->
  exists sc,
    fst (handler ep req w)
    = Respond sc
        (Json (Rev2.envelope req sc (param req) (getStatusDescription sc)
                 (now w) (now (snd (handler ep req w))))).
Proof.
  intros [<- | [<- | []]] Hc Hr Hv; cbn [handler code2 random2].
  - rewrite Rev2_handleCode_run by assumption. rewrite Hc.
    cbn [fst snd is_undefined emit now]. eauto.
  - rewrite Rev2_handleRandom_run by assumption. rewrite Hc.
    cbn [fst snd is_undefined emit now]. eauto.
Qed.

End ReplyFacts.

(* ================================================================== *)
(** * The theorems on the specification *)
(* ================================================================== *)

Import JS Express Index Endpoints NumberFacts StringFacts CodeFacts
  RandomFacts RangeFacts HandlerFacts ValidatorFacts
  Examples SplitFacts EndpointFacts DelayFacts ReplyFacts.

(** C1, as amended.  On both revisions of the single-code endpoint: a
    request to [/{c}] for an integer [c] from 100 to 599 is answered
    with status [c]; a path value that is not a reserved name and is
    not, as a Number, an integer from 100 to 599 is answered with the
    400 reply "Invalid HTTP status code" -- so is every integer outside
    the range and every text that is not a number; a reserved name is
    passed to [next()] and gets no reply from this handler. *)
Theorem code_endpoint_status (ep : endpoint) (req : request) (w : world) :
  In ep codeEndpoints ->
  (forall c, 100 <= c <= 599 -> param req = decimal c ->
     status_of (fst (handler ep req w)) = Some (JNum (int c))) /\
  (routed ep req = true -> Spec.in_range (param req) = false ->
     fst (handler ep req w) = invalidCode) /\
  (forall c, ~ 100 <= c <= 599 -> param req = decimal c ->
     fst (handler ep req w) = invalidCode) /\
  (routed ep req = true -> Number (JStr (param req)) = NaN ->
     fst (handler ep req w) = invalidCode) /\
  (routed ep req = false -> fst (handler ep req w) = Next) /\
  status_of invalidCode = Some (JNum (int 400)).
Proof.
  intros Hep. repeat split.
  - intros c Hc E.
    rewrite code_status_valid; auto.
    + rewrite E. cbn [Number]. rewrite Number_decimal; [reflexivity |].
      change (2 ^ 53) with 9007199254740992. lia.
    + eapply decimal_routed; eauto.
    + rewrite (decimal_valid ep req c Hep E). apply andb_true_iff.
      split; apply Z.leb_le; lia.
  - intros Hr Hout. apply code_reject; auto.
    rewrite in_range_valid in Hout.
    destruct Hep as [<- | [<- | []]]; exact Hout.
  - intros c Hc E. apply code_reject; auto.
    + eapply decimal_routed; eauto.
    + rewrite (decimal_valid ep req c Hep E). apply andb_false_iff.
      destruct (Z_lt_le_dec c 100); [left; apply Z.leb_gt; lia |].
      right. apply Z.leb_gt. lia.
  - intros Hr Hnan. apply code_reject; auto.
    destruct Hep as [<- | [<- | []]]; cbn [valid code1 code2];
      unfold validCodeParam; now rewrite Hnan.
  - intros Hr. now rewrite code_unrouted.
Qed.

Lemma code_endpoint_status_witness :
  status_of (fst (Rev2.handleCode (get (js "404")) world0))
  = Some (JNum (int 404)) /\
  fst (Rev1.handleCode (get (js "abc")) world0) = invalidCode /\
  fst (Rev2.handleCode (get (js "600")) world0) = invalidCode.
Proof.
  split; [| split].
  - apply (code_endpoint_status code2 (get (js "404")) world0
             (or_intror (or_introl eq_refl)));
      [lia | vm_compute; reflexivity].
  - apply (code_endpoint_status code1 (get (js "abc")) world0
             (or_introl eq_refl)); vm_compute; reflexivity.
  - apply (proj1 (proj2 (proj2 (code_endpoint_status code2
             (get (js "600")) world0 (or_intror (or_introl eq_refl)))))
             600); [lia | vm_compute; reflexivity].
Defined.

(** C1 as stated fails on the reserved names: [health] is no integer
    from 100 to 599, the single-code handler of either revision passes
    it to [next()], and the health check answers it with 200. *)
Lemma code_endpoint_reserved_counterexample :
  Spec.in_range (js "health") = false /\
  fst (Rev1.handleCode (get (js "health")) world0) = Next /\
  fst (Rev2.handleCode (get (js "health")) world0) = Next /\
  health = Respond (JNum (int 200)) (SendPlain (js "OK")) /\
  ~ Stated.code_status code1 /\ ~ Stated.code_status code2.
Proof.
  do 4 (split; [vm_compute; reflexivity |]).
  split; intro H; destruct (H (get (js "health")) world0) as [_ H400];
    specialize (H400 ltac:(vm_compute; reflexivity));
    vm_compute in H400; discriminate.
Qed.

(** C2.  The range parser is the specification's: the segments between
    commas are taken in order, each gives what [Spec.segment] says --
    with a hyphen, the inclusive integers from start to end only if
    both are integers, start <= end and both are valid codes; without,
    the single code only if it is valid; nothing otherwise -- and the
    results are appended as they come, duplicates kept, nothing
    sorted. *)
Theorem parseStatusCodeRange_spec :
  (forall s, parseStatusCodeRange s = map int (Spec.parseRange s)) /\
  (forall s1 s2,
     parseStatusCodeRange (s1 ++ 44 :: s2)
     = parseStatusCodeRange s1 ++ parseStatusCodeRange s2) /\
  (forall seg, ~ In 44 seg ->
     parseStatusCodeRange seg = map int (Spec.segment seg)) /\
  parseStatusCodeRange (js "200,201,500-504")
  = map int [200; 201; 500; 501; 502; 503; 504] /\
  parseStatusCodeRange (js "700-650") = [] /\
  parseStatusCodeRange (js "504-500") = [] /\
  parseStatusCodeRange (js "abc,200") = [int 200] /\
  parseStatusCodeRange (js "200,200,199-201")
  = map int [200; 200; 199; 200; 201] /\
  parseStatusCodeRange (js "500,200") = map int [500; 200].
Proof.
  split; [apply parseStatusCodeRange_refines |].
  split.
  { intros s1 s2. rewrite !parseStatusCodeRange_parts, split_app.
    apply flat_map_app. }
  split.
  { intros seg Hn. rewrite parseStatusCodeRange_parts, split_none by exact Hn.
    cbn [flat_map]. now rewrite app_nil_r, parsePart_segment. }
  repeat (split; [vm_compute; reflexivity |]). vm_compute; reflexivity.
Qed.

Lemma parseStatusCodeRange_spec_witness :
  parseStatusCodeRange (js "500-502")
  = map int (Spec.segment (js "500-502")) /\
  Spec.segment (js "500-502") = [500; 501; 502].
Proof.
  split.
  - apply (proj1 (proj2 (proj2 parseStatusCodeRange_spec))).
    vm_compute. intuition discriminate.
  - vm_compute. reflexivity.
Defined.

(** C9.  The validator takes the Number of its argument: a string
    passes exactly when [Number] makes of it an integer from 100 to
    599, whatever its spelling, and a request to any path value that
    passes is taken on by both revisions of the single-code endpoint
    and answered with that Number for status.  ["2e2"], [" 200 "],
    ["0200"] and ["200.0"] are all the Number 200 and pass, and a
    request to such a path is answered with status 200. *)
Theorem isValidStatusCode_coerces :
  (forall s, isValidStatusCode (JStr s) = true
             <-> exists c, 100 <= c <= 599 /\ Number (JStr s) = int c) /\
  Forall (fun s => Number (JStr s) = int 200
                   /\ isValidStatusCode (JStr s) = true)
    [js "2e2"; js " 200 "; js "0200"; js "200.0"] /\
  (forall ep req w,
     In ep codeEndpoints ->
     In (param req) [js "2e2"; js " 200 "; js "0200"; js "200.0"] ->
     status_of (fst (handler ep req w)) = Some (JNum (int 200))) /\
  (forall ep req w,
     In ep codeEndpoints ->
     isValidStatusCode (JStr (param req)) = true ->
     routed ep req = true /\
     status_of (fst (handler ep req w))
     = Some (JNum (Number (JStr (param req)))) /\
     exists c, 100 <= c <= 599 /\ Number (JStr (param req)) = int c /\
       status_of (fst (handler ep req w)) = Some (JNum (int c))).
Proof.
  assert (Hgen : forall ep req w,
            In ep codeEndpoints ->
            isValidStatusCode (JStr (param req)) = true ->
            routed ep req = true /\
            status_of (fst (handler ep req w))
            = Some (JNum (Number (JStr (param req)))) /\
            exists c, 100 <= c <= 599 /\ Number (JStr (param req)) = int c /\
              status_of (fst (handler ep req w)) = Some (JNum (int c))).
  { intros ep req w Hep Hv.
    destruct (valid_not_reserved _ Hv) as [Hn1 Hn2].
    assert (Hr : routed ep req = true).
    { destruct Hep as [<- | [<- | []]]; cbn [routed code1 code2];
        [now rewrite Hn1 | now rewrite Hn2]. }
    assert (Hv' : valid ep req = true).
    { destruct Hep as [<- | [<- | []]]; exact Hv. }
    pose proof (code_status_valid ep req w Hep Hr Hv') as Hs.
    split; [exact Hr | split; [exact Hs |]].
    apply isValidStatusCode_iff in Hv. destruct Hv as (c & Hc & E).
    exists c. rewrite Hs, E. auto. }
  split; [apply isValidStatusCode_iff |]. split.
  { repeat (apply Forall_cons; [split; vm_compute; reflexivity |]).
    apply Forall_nil. }
  split; [| exact Hgen].
  intros ep req w Hep Hin.
  assert (Hv : isValidStatusCode (JStr (param req)) = true).
  { repeat (destruct Hin as [<- | Hin]; [vm_compute; reflexivity |]).
    destruct Hin. }
  destruct (Hgen ep req w Hep Hv) as (_ & Hs & _). rewrite Hs.
  repeat (destruct Hin as [<- | Hin]; [vm_compute; reflexivity |]).
  destruct Hin.
Qed.

Lemma isValidStatusCode_coerces_witness :
  status_of (fst (Rev2.handleCode (get (js "2e2")) world0))
  = Some (JNum (int 200)) /\
  status_of (fst (Rev1.handleCode (get (js " 200 ")) world0))
  = Some (JNum (int 200)) /\
  status_of (fst (Rev1.handleCode (get (js "0x1f4")) world0))
  = Some (JNum (Number (JStr (js "0x1f4")))) /\
  Number (JStr (js "0x1f4")) = int 500 /\
  status_of (fst (Rev2.handleCode (get (js "4.04e2")) world0))
  = Some (JNum (Number (JStr (js "4.04e2")))) /\
  Number (JStr (js "4.04e2")) = int 404.
Proof.
  split; [| split; [| split; [| split; [| split]]]].
  - apply (proj1 (proj2 (proj2 isValidStatusCode_coerces)) code2
             (get (js "2e2")) world0).
    + right. left. reflexivity.
    + left. reflexivity.
  - apply (proj1 (proj2 (proj2 isValidStatusCode_coerces)) code1
             (get (js " 200 ")) world0).
    + left. reflexivity.
    + right. left. reflexivity.
  - apply (proj2 (proj2 (proj2 isValidStatusCode_coerces)) code1
             (get (js "0x1f4")) world0 (or_introl eq_refl)).
    vm_compute. reflexivity.
  - vm_compute. reflexivity.
  - apply (proj2 (proj2 (proj2 isValidStatusCode_coerces)) code2
             (get (js "4.04e2")) world0 (or_intror (or_introl eq_refl))).
    vm_compute. reflexivity.
  - vm_compute. reflexivity.
Defined.

(** C5, as amended.  On both revisions the random endpoint rejects the
    request with the 400 reply "Invalid range for random status codes"
    exactly when the range parses to no code, and it does so without
    drawing a random number.  When the range parses to some codes
    (fewer than [2 ^ 53] of them, as in every JavaScript array), one
    number is drawn and the status of the reply is an element of the
    parsed sequence; every such element is an integer from 100 to 599,
    400 among them. *)
Theorem random_endpoint_status (ep : endpoint) (req : request) (w : world) :
  In ep randomEndpoints ->
  (fst (handler ep req w) = invalidRange
   <-> parseStatusCodeRange (param req) = []) /\
  status_of invalidRange = Some (JNum (int 400)) /\
  (parseStatusCodeRange (param req) = [] ->
   draws (log (snd (handler ep req w))) = draws (log w)) /\
  (parseStatusCodeRange (param req) <> [] ->
   Z.of_nat (List.length (parseStatusCodeRange (param req))) < 2 ^ 53 ->
   exists c,
     In c (parseStatusCodeRange (param req)) /\
     status_of (fst (handler ep req w)) = Some (JNum c) /\
     draws (log (snd (handler ep req w)))
     = draws (log w) ++ [finite (entropy w mod 2 ^ 53) (-53)]) /\
  (forall x, In x (parseStatusCodeRange (param req)) ->
     exists c, 100 <= c <= 599 /\ x = int c).
Proof.
  intros Hep. pose proof (valid_range_iff ep req Hep) as Hiff.
  split; [| split; [reflexivity | split; [| split]]].
  - split.
    + intros Hrej. apply Hiff. apply not_true_is_false. intro Hv.
      destruct (random_accept ep req w Hep Hv) as (_ & Hp & _).
      apply (Hp (js "Invalid range for random status codes")).
      now rewrite Hrej.
    + intros He. apply Hiff in He. now apply random_reject.
  - intros He. apply Hiff in He. now apply random_reject.
  - intros Hne Hlen.
    assert (Hv : valid ep req = true).
    { apply not_false_is_true. intro Hv. apply Hiff in Hv.
      contradiction. }
    destruct (random_accept ep req w Hep Hv) as (Hs & _ & Hd).
    destruct (pick_in _ (entropy w) Hne Hlen) as (c & Hin & Hc).
    exists c. rewrite Hs, Hc. auto.
  - intros x. apply parsed_codes_valid.
Qed.

Lemma random_endpoint_status_witness :
  parseStatusCodeRange (js "200,404") = [int 200; int 404] /\
  (exists c,
     In c (parseStatusCodeRange (js "200,404")) /\
     status_of (fst (Rev2.handleRandom (get (js "200,404")) world0))
     = Some (JNum c) /\
     draws (log (snd (Rev2.handleRandom (get (js "200,404")) world0)))
     = draws (log world0) ++ [finite (entropy world0 mod 2 ^ 53) (-53)]) /\
  fst (Rev1.handleRandom (get (js "700-650")) world0) = invalidRange.
Proof.
  split; [vm_compute; reflexivity | split].
  - apply (random_endpoint_status random2 (get (js "200,404")) world0
             (or_intror (or_introl eq_refl))).
    + vm_compute. discriminate.
    + vm_compute. reflexivity.
  - apply (random_endpoint_status random1 (get (js "700-650")) world0
             (or_introl eq_refl)).
    vm_compute. reflexivity.
Defined.

(** C5 as stated fails on a range that holds 400: [/random/400] parses
    to the one code 400 and is answered with status 400. *)
Lemma random_400_counterexample :
  parseStatusCodeRange (js "400") = [int 400] /\
  status_of (fst (Rev1.handleRandom (get (js "400")) world0))
  = Some (JNum (int 400)) /\
  status_of (fst (Rev2.handleRandom (get (js "400")) world0))
  = Some (JNum (int 400)) /\
  ~ Stated.random_status random1 /\ ~ Stated.random_status random2.
Proof.
  do 3 (split; [vm_compute; reflexivity |]).
  split; intro H;
    destruct (H (get (js "400")) world0 ltac:(vm_compute; reflexivity))
      as [[Hempty _] _];
    specialize (Hempty ltac:(vm_compute; reflexivity));
    vm_compute in Hempty; discriminate.
Qed.

(** C7, as amended.  The redirect endpoint answers 400 "Invalid
    redirect status code" when the path code is not, as a Number, an
    integer from 300 to 308; 400 "Missing to query parameter" when the
    code is one and [to] is falsy, which for a query value means absent
    or empty; and otherwise it redirects with that code to [to] as it
    is, whatever its shape.  So the status is 400 exactly when the code
    is not a redirect code or [to] is absent or empty. *)
Theorem redirect_spec (req : request) :
  (Spec.redirect_code (param req) = false ->
   redirect req = invalidRedirect) /\
  (Spec.redirect_code (param req) = true -> truthy (to req) = false ->
   redirect req = missingTarget) /\
  (Spec.redirect_code (param req) = true -> truthy (to req) = true ->
   redirect req
   = Respond (JNum (Number (JStr (param req)))) (Redirect (to req)) /\
   exists c, 300 <= c <= 308 /\ Number (JStr (param req)) = int c) /\
  (is_query_value (to req) = true ->
   (truthy (to req) = false <-> to req = JUndefined \/ to req = JStr [])) /\
  (status_of (redirect req) = Some (JNum (int 400))
   <-> Spec.redirect_code (param req) = false \/ truthy (to req) = false) /\
  status_of invalidRedirect = Some (JNum (int 400)) /\
  status_of missingTarget = Some (JNum (int 400)).
Proof.
  pose proof (redirect_guard (param req)) as G.
  assert (H1 : Spec.redirect_code (param req) = false ->
               redirect req = invalidRedirect).
  { intros Hc. unfold redirect. cbn [Number]. rewrite G, Hc. reflexivity. }
  assert (H2 : Spec.redirect_code (param req) = true ->
               truthy (to req) = false ->
               redirect req = missingTarget).
  { intros Hc Ht. unfold redirect. cbn [Number]. rewrite G, Hc, Ht.
    reflexivity. }
  assert (H3 : Spec.redirect_code (param req) = true ->
               truthy (to req) = true ->
               redirect req
               = Respond (JNum (Number (JStr (param req))))
                   (Redirect (to req))).
  { intros Hc Ht. unfold redirect. cbn [Number]. rewrite G, Hc, Ht.
    reflexivity. }
  split; [exact H1 | split; [exact H2 | split; [| split; [| split]]]].
  - intros Hc Ht. split; [now apply H3 | now apply redirect_code_int].
  - apply falsy_query_value.
  - split.
    + intros Hs.
      destruct (Spec.redirect_code (param req)) eqn:Hc; [| now left].
      destruct (truthy (to req)) eqn:Ht; [| now right].
      rewrite H3 in Hs by reflexivity. cbn [status_of] in Hs.
      destruct (redirect_code_int _ Hc) as (c & Hr & E).
      rewrite E in Hs. assert (Hi : int c = int 400) by congruence.
      apply int_inj in Hi. lia.
    + intros [Hc | Ht].
      * now rewrite H1.
      * destruct (Spec.redirect_code (param req)) eqn:Hc;
          [now rewrite H2 | now rewrite H1].
  - split; reflexivity.
Qed.

Lemma redirect_spec_witness :
  redirect (with_to (js "https://example.com") (get (js "301")))
  = Respond (JNum (Number (JStr (js "301"))))
      (Redirect (JStr (js "https://example.com"))) /\
  redirect (with_to (js "https://example.com") (get (js "200")))
  = invalidRedirect /\
  redirect (get (js "301")) = missingTarget.
Proof.
  split; [| split].
  - apply (redirect_spec
             (with_to (js "https://example.com") (get (js "301"))));
      vm_compute; reflexivity.
  - apply (redirect_spec
             (with_to (js "https://example.com") (get (js "200"))));
      vm_compute; reflexivity.
  - apply (redirect_spec (get (js "301"))); vm_compute; reflexivity.
Defined.

(** C7 as stated fails on an empty target: [/redirect/301?to=] carries
    the parameter, with the empty string for value, and is answered
    with 400. *)
Lemma redirect_empty_target_counterexample :
  Spec.redirect_code (js "301") = true /\
  to (with_to [] (get (js "301"))) = JStr [] /\
  status_of (redirect (with_to [] (get (js "301"))))
  = Some (JNum (int 400)) /\
  ~ Stated.redirect_status.
Proof.
  do 3 (split; [vm_compute; reflexivity |]).
  intro H.
  destruct (H (with_to [] (get (js "301"))) eq_refl) as [Hto _].
  destruct (Hto ltac:(vm_compute; reflexivity)) as [Hc | Hu];
    vm_compute in Hc || vm_compute in Hu; discriminate.
Qed.

(** C6, as amended.  In the four handlers, on a request that passes
    validation: the [sleep] parameter is read by [parseInt(sleep, 10)],
    which skips leading white space, takes a sign and the digits that
    follow, and ignores the rest; when that is a Number above zero the
    handler awaits one timer of that delay, after which it takes the
    reply time and composes the response; when [sleep] is absent or
    empty, starts with no integer, or gives a negative integer or zero,
    no timer is awaited and no time passes; either way the handler
    answers.  The decimal text of a positive integer asks for that many
    milliseconds, and so does a text that only starts with one. *)
Theorem sleep_delay (ep : endpoint) (req : request) (w : world) :
  In ep endpoints -> routed ep req = true -> valid ep req = true ->
  (exists pre post,
     log (snd (handler ep req w))
     = log w ++ pre
       ++ match requested_delay (sleep req) with
          | Some ms => [Timer ms]
          | None => []
          end
       ++ post /\
     timers pre = [] /\ timers post = [] /\
     forall t, In (Clock t) post -> t = now (snd (handler ep req w))) /\
  now (snd (handler ep req w))
  = now w + match requested_delay (sleep req) with
            | Some ms => elapse w ms
            | None => 0
            end /\
  (exists sc p, fst (handler ep req w) = Respond sc p) /\
  (forall z, 0 < z < 2 ^ 53 ->
     requested_delay (JStr (decimal z)) = Some (int z)) /\
  (forall z, z <= 0 -> requested_delay (JStr (decimal z)) = None) /\
  (forall s, parseInt s = NaN -> requested_delay s = None) /\
  requested_delay JUndefined = None /\
  requested_delay (JStr []) = None /\
  requested_delay (JStr (js "abc")) = None /\
  requested_delay (JStr (js "100")) = Some (int 100) /\
  requested_delay (JStr (js "100ms")) = Some (int 100) /\
  requested_delay (JStr (js "1.5")) = Some (int 1).
Proof.
  intros Hep Hr Hv.
  destruct (handler_run ep req w Hep Hr Hv)
    as (pre & clocked & sc & Hpre & Hnow & Hw & Hs & _).
  cbv zeta in Hw.
  set (w0 := fold_left (fun x ev => emit ev x) pre w) in *.
  set (w1 := after_delay (sleep req) w0) in *.
  assert (Hn1 : now w1 = now w + match requested_delay (sleep req) with
                                 | Some ms => elapse w ms
                                 | None => 0
                                 end).
  { unfold w1. rewrite now_after_delay. unfold w0.
    rewrite Hnow, elapse_emits. destruct (requested_delay (sleep req)); lia. }
  assert (Hl1 : log w1 = log w ++ pre
                         ++ match requested_delay (sleep req) with
                            | Some ms => [Timer ms]
                            | None => []
                            end).
  { unfold w1. rewrite log_after_delay. unfold w0.
    now rewrite log_emits, <- app_assoc. }
  assert (Hnw : now (snd (handler ep req w)) = now w1).
  { rewrite Hw. now destruct clocked. }
  split; [| split; [| split]].
  - exists pre, (if clocked then [Clock (now w1)] else []).
    rewrite Hw. split; [| split; [exact Hpre | split]].
    + destruct clocked; cbn [emit log]; rewrite Hl1.
      * now rewrite <- !app_assoc.
      * now rewrite app_nil_r.
    + now destruct clocked.
    + fold (snd (handler ep req w)). rewrite <- Hw, Hnw.
      destruct clocked; [intros t [[= <-] | []]; reflexivity | intros t []].
  - now rewrite Hnw.
  - destruct (fst (handler ep req w)) as [| s p]; [discriminate | eauto].
  - split; [apply requested_delay_positive |].
    split; [apply requested_delay_nonpositive |].
    split; [apply requested_delay_NaN |].
    repeat (split; [vm_compute; reflexivity |]). vm_compute; reflexivity.
Qed.

Lemma sleep_delay_witness :
  now (snd (Rev2.handleCode (with_sleep (js "100") (get (js "200"))) world0))
  = now world0
    + match requested_delay (JStr (js "100")) with
      | Some ms => elapse world0 ms
      | None => 0
      end /\
  requested_delay (JStr (js "100")) = Some (int 100) /\
  elapse world0 (int 100) = 102.
Proof.
  split; [| split; vm_compute; reflexivity].
  apply (sleep_delay code2 (with_sleep (js "100") (get (js "200"))) world0).
  - right. right. left. reflexivity.
  - vm_compute. reflexivity.
  - vm_compute. reflexivity.
Defined.

(** C6 as stated fails on a text that starts with digits: ["100ms"] is
    not a number, and a request with [sleep=100ms] awaits a timer of
    100 milliseconds. *)
Lemma sleep_prefix_counterexample :
  Number (JStr (js "100ms")) = NaN /\
  parseInt (JStr (js "100ms")) = int 100 /\
  timers (log (snd (Rev1.handleCode
                      (with_sleep (js "100ms") (get (js "200"))) world0)))
  = [int 100] /\
  timers (log (snd (Rev2.handleRandom
                      (with_sleep (js "100ms") (get (js "200"))) world0)))
  = [int 100] /\
  ~ Stated.sleep_numeric code1 /\ ~ Stated.sleep_numeric random1 /\
  ~ Stated.sleep_numeric code2 /\ ~ Stated.sleep_numeric random2.
Proof.
  do 4 (split; [vm_compute; reflexivity |]).
  repeat split; intro H;
    specialize (H (with_sleep (js "100ms") (get (js "200"))) world0
                  (js "100ms")
                  ltac:(vm_compute; reflexivity)
                  ltac:(vm_compute; reflexivity)
                  eq_refl
                  ltac:(vm_compute; reflexivity));
    vm_compute in H; discriminate.
Qed.

(** C8.  In the four handlers, a request that fails validation is
    answered at once with the handler's 400 reply: no timer is awaited,
    no time passes, and the outcome is the same whatever the [sleep]
    and [body] parameters, the request body, the method and the
    headers are. *)
Theorem validation_first (ep : endpoint) (req : request) (w : world) :
  In ep endpoints -> routed ep req = true -> valid ep req = false ->
  fst (handler ep req w) = rejection ep /\
  status_of (rejection ep) = Some (JNum (int 400)) /\
  timers (log (snd (handler ep req w))) = timers (log w) /\
  now (snd (handler ep req w)) = now w /\
  (forall req', param req' = param req ->
     handler ep req' w = handler ep req w).
Proof.
  intros Hep Hr Hv.
  destruct (handler_reject ep req w Hep Hr Hv) as (clocked & E).
  split; [now rewrite E |]. split.
  { destruct Hep as [<- | [<- | [<- | [<- | []]]]]; reflexivity. }
  split; [| split].
  - rewrite E. cbn [snd]. destruct clocked; [| reflexivity].
    cbn [emit log]. rewrite timers_app. cbn. apply app_nil_r.
  - rewrite E. now destruct clocked.
  - intros req' Ep.
    destruct (routing_by_param ep req req' Hep Ep) as [Er' Ev'].
    rewrite <- Er' in Hr. rewrite <- Ev' in Hv.
    destruct Hep as [<- | [<- | [<- | [<- | []]]]];
      cbn [handler code1 random1 code2 random2] in *.
    + rewrite !Rev1_handleCode_reject; auto; now rewrite <- ?Er', <- ?Ev'.
    + rewrite !Rev1_handleRandom_reject; auto; now rewrite <- ?Ev'.
    + rewrite !Rev2_handleCode_reject; auto; now rewrite <- ?Er', <- ?Ev'.
    + rewrite !Rev2_handleRandom_reject; auto; now rewrite <- ?Ev'.
Qed.

Lemma validation_first_witness :
  fst (Rev2.handleCode
         (with_body (js "hello") (with_sleep (js "1000") (get (js "999"))))
         world0)
  = invalidCode /\
  timers (log (snd (Rev2.handleRandom
                      (with_sleep (js "1000") (get (js "700-650")))
                      world0)))
  = timers (log world0).
Proof.
  split.
  - apply (validation_first code2
             (with_body (js "hello") (with_sleep (js "1000") (get (js "999"))))
             world0).
    + right. right. left. reflexivity.
    + vm_compute. reflexivity.
    + vm_compute. reflexivity.
  - apply (validation_first random2
             (with_sleep (js "1000") (get (js "700-650"))) world0).
    + right. right. right. left. reflexivity.
    + reflexivity.
    + vm_compute. reflexivity.
Defined.

(** C10.  In the four handlers, on a request that passes validation and
    carries a [body] query parameter: the custom body is
    [tryParseJSON(body) ?? body], sent with [res.json] when its type is
    object and as the plain text [String(customBody)] otherwise.  So
    for a text [b]: when [JSON.parse(b)] gives an array or an object,
    that value is sent as JSON; when it gives a number, a boolean or a
    string, the text of that value is sent as plain text; when it gives
    [null], or throws, the raw text [b] is sent as plain text.  The
    reply is JSON exactly when the decoded value is an array or an
    object. *)
Theorem body_param_decoding (ep : endpoint) (req : request) (w : world) :
  In ep endpoints -> routed ep req = true -> valid ep req = true ->
  is_undefined (bodyParam req) = false ->
  customBody req = nullish (tryParseJSON (bodyParam req)) (bodyParam req) /\
  payload_of (fst (handler ep req w))
  = Some (if typeof_object (customBody req)
          then Json (customBody req)
          else SendPlain (ToString (customBody req))) /\
  (forall b, bodyParam req = JStr b ->
     payload_of (fst (handler ep req w))
     = Some match JSON_parse (JStr b) with
            | Some (JArr l) => Json (JArr l)
            | Some (JObj m) => Json (JObj m)
            | Some (JNum x) => SendPlain (ToString (JNum x))
            | Some (JBool t) => SendPlain (ToString (JBool t))
            | Some (JStr s) => SendPlain s
            | Some JNull | Some JUndefined | None => SendPlain b
            end /\
     ((exists v, payload_of (fst (handler ep req w)) = Some (Json v))
      <-> (exists l, JSON_parse (JStr b) = Some (JArr l))
          \/ (exists m, JSON_parse (JStr b) = Some (JObj m)))) /\
  JSON_parse (JStr (js "null")) = Some JNull /\
  customBody (with_body (js "null") (get (js "200"))) = JStr (js "null") /\
  payload_of (fst (Rev2.handleCode (with_body (js "null") (get (js "200")))
                     world0))
  = Some (SendPlain (js "null")) /\
  payload_of (fst (Rev1.handleCode (with_body (js "123") (get (js "200")))
                     world0))
  = Some (SendPlain (js "123")) /\
  payload_of (fst (Rev2.handleRandom (with_body (js "true") (get (js "200")))
                     world0))
  = Some (SendPlain (js "true")) /\
  payload_of (fst (Rev2.handleCode
                     (with_body (quoted (js "hi")) (get (js "200"))) world0))
  = Some (SendPlain (js "hi")) /\
  payload_of (fst (Rev2.handleCode (with_body (js "hello") (get (js "200")))
                     world0))
  = Some (SendPlain (js "hello")) /\
  payload_of (fst (Rev2.handleCode
                     (with_body (js "{" ++ quoted (js "a") ++ js ":1}")
                        (get (js "200"))) world0))
  = Some (Json (JObj [(js "a", JNum (int 1))])) /\
  payload_of (fst (Rev1.handleRandom
                     (with_body (js "[1,2]") (get (js "200"))) world0))
  = Some (Json (JArr [JNum (int 1); JNum (int 2)])).
Proof.
  intros Hep Hr Hv Hb.
  destruct (handler_run ep req w Hep Hr Hv)
    as (_ & _ & sc & _ & _ & _ & _ & Hc).
  assert (Ec : customBody req
               = nullish (tryParseJSON (bodyParam req)) (bodyParam req)).
  { unfold customBody. now rewrite Hb. }
  assert (Hd : is_undefined (customBody req) = false).
  { rewrite Ec. destruct (bodyParam req); [discriminate | ..];
      now destruct (tryParseJSON _). }
  specialize (Hc Hd).
  assert (Hp : payload_of (fst (handler ep req w))
               = Some (if typeof_object (customBody req)
                       then Json (customBody req)
                       else SendPlain (ToString (customBody req)))).
  { rewrite Hc. unfold sendCustom.
    now destruct (typeof_object (customBody req)). }
  split; [exact Ec |]. split; [exact Hp |]. split.
  { intros b Eb.
    assert (Hp' : payload_of (fst (handler ep req w))
                  = Some match JSON_parse (JStr b) with
                         | Some (JArr l) => Json (JArr l)
                         | Some (JObj m) => Json (JObj m)
                         | Some (JNum x) => SendPlain (ToString (JNum x))
                         | Some (JBool t) => SendPlain (ToString (JBool t))
                         | Some (JStr s) => SendPlain s
                         | Some JNull | Some JUndefined | None => SendPlain b
                         end).
    { rewrite Hp, Ec, Eb. unfold tryParseJSON.
      destruct (JSON_parse (JStr b)) as [[| | t | x | s | l | m] |];
        reflexivity. }
    split; [exact Hp' |]. rewrite Hp'.
    destruct (JSON_parse (JStr b)) as [[| | t | x | s | l | m] |]; split;
      try (intros [v [=]]); try (intros [[? [=]] | [? [=]]]); eauto. }
  repeat (split; [vm_compute; reflexivity |]). vm_compute; reflexivity.
Qed.

Lemma body_param_decoding_witness :
  payload_of (fst (Rev2.handleRandom
                     (with_body (js "2e3") (get (js "500-504"))) world0))
  = Some (SendPlain (js "2000")) /\
  JSON_parse (JStr (js "2e3")) = Some (JNum (int 2000)).
Proof.
  split; [| vm_compute; reflexivity].
  apply (proj1 (proj2 (body_param_decoding random2
           (with_body (js "2e3") (get (js "500-504"))) world0
           (or_intror (or_intror (or_intror (or_introl eq_refl))))
           eq_refl
           ltac:(vm_compute; reflexivity)
           eq_refl))).
Defined.

(** C3, as amended.  When no custom body is supplied the two endpoints
    of a revision answer alike.  In the earlier revision each sends the
    plain text of the code, a space and [res.statusMessage || ''],
    trimmed, unless the Accept header includes [application/json], and
    then a JSON object of four members (code, description, details,
    mdn).  In the later revision each always sends the full JSON
    envelope, whatever the Accept header. *)
Theorem default_reply_shape (req : request) (w : world) :
  customBody req = JUndefined ->
  (forall ep, In ep [code1; random1] ->
     routed ep req = true -> valid ep req = true ->
     exists sc,
       fst (handler ep req w)
       = Respond sc
           (if includes (match accept req with Some a => a | None => [] end)
                 (js "application/json")
            then Json (JObj
                   [ (js "code", sc);
                     (js "description", reason req);
                     (js "details", JStr (getStatusDescription sc));
                     (js "mdn", JStr (getMDNLink sc)) ])
            else SendPlain
                   (trim (ToString sc ++ js " " ++ ToString (reason req)))))
  /\
  (forall ep, In ep [code2; random2] ->
     routed ep req = true -> valid ep req = true ->
     exists sc,
       fst (handler ep req w)
       = Respond sc
           (Json (Rev2.envelope req sc (param req) (getStatusDescription sc)
                    (now w) (now (snd (handler ep req w)))))) /\
  fst (Rev1.handleCode (get (js "200")) world0)
  = Respond (JNum (int 200)) (SendPlain (js "200")) /\
  fst (Rev1.handleCode (with_reason (js "OK") (get (js "200"))) world0)
  = Respond (JNum (int 200)) (SendPlain (js "200 OK")) /\
  fst (Rev1.handleRandom (with_reason (js "Not Found") (get (js "404")))
         world0)
  = Respond (JNum (int 404)) (SendPlain (js "404 Not Found")) /\
  Stated.keys_of
    match payload_of (fst (Rev2.handleCode
                             (with_accept (js "text/plain") (get (js "200")))
                             world0)) with
    | Some (Json v) => v
    | _ => JUndefined
    end
  = Stated.envelope_keys.
Proof.
  intros Hc. split; [| split].
  - intros ep Hep Hr Hv.
    destruct (Rev1_default ep req w Hep Hc Hr Hv) as (sc & E).
    exists sc. rewrite E. unfold Rev1.reply. cbn [is_undefined negb].
    now destruct (includes _ _).
  - intros ep Hep Hr Hv. now apply Rev2_default.
  - repeat (split; [vm_compute; reflexivity |]). vm_compute; reflexivity.
Qed.

Lemma default_reply_shape_witness :
  (exists sc,
     fst (Rev2.handleRandom (get (js "500-504")) world0)
     = Respond sc
         (Json (Rev2.envelope (get (js "500-504")) sc (js "500-504")
                  (getStatusDescription sc) (now world0)
                  (now (snd (Rev2.handleRandom (get (js "500-504"))
                               world0)))))) /\
  (exists sc,
     fst (Rev1.handleRandom
            (with_accept (js "application/json") (get (js "500-504")))
            world0)
     = Respond sc
         (Json (JObj
            [ (js "code", sc);
              (js "description", JStr []);
              (js "details", JStr (getStatusDescription sc));
              (js "mdn", JStr (getMDNLink sc)) ]))).
Proof.
  split.
  - apply (proj1 (proj2 (default_reply_shape (get (js "500-504")) world0
                           eq_refl)) random2).
    + right. left. reflexivity.
    + reflexivity.
    + vm_compute. reflexivity.
  - destruct (proj1 (default_reply_shape
                       (with_accept (js "application/json")
                          (get (js "500-504")))
                       world0 eq_refl) random1) as (sc & E).
    + right. left. reflexivity.
    + reflexivity.
    + vm_compute. reflexivity.
    + exists sc. cbn [handler random1] in E. rewrite E. reflexivity.
Defined.

(** C3 as stated holds in neither revision: with no custom body and no
    Accept header, the later revision's single-code endpoint answers
    [/200] with the JSON envelope, not plain text, and the earlier
    revision's random endpoint answers [/random/200] with plain text,
    not JSON. *)
Lemma default_shape_counterexample :
  payload_of (fst (Rev2.handleCode (get (js "200")) world0))
  = Some (Json (Rev2.envelope (get (js "200")) (JNum (int 200)) (js "200")
                  (js "OK: The request has succeeded.")
                  (now world0) (now world0))) /\
  payload_of (fst (Rev1.handleRandom (get (js "200")) world0))
  = Some (SendPlain (js "200")) /\
  ~ Stated.default_shape code1 random1 /\
  ~ Stated.default_shape code2 random2.
Proof.
  do 2 (split; [vm_compute; reflexivity |]).
  split; intro H; destruct (H (get (js "200")) world0 eq_refl) as [Hcode Hrand].
  - destruct (Hrand ltac:(vm_compute; reflexivity)) as (sc & v & E).
    vm_compute in E. discriminate.
  - destruct (Hcode ltac:(vm_compute; reflexivity)
                ltac:(vm_compute; reflexivity) eq_refl) as (sc & t & E).
    vm_compute in E. discriminate.
Qed.

(** C4, as amended.  In the later revision, the JSON envelope that
    either endpoint sends when there is no custom body has these ten
    members: the selected code, the path value as requested, the reason
    phrase [res.statusMessage || ''], the definition (twice, as
    [definition] and [details]), empty when the table has no entry for
    the code, the documentation link made of a fixed prefix and the
    code, the request and reply times in ISO form, and the time between
    them in milliseconds and in seconds.  In the earlier revision the
    JSON object, sent only when the Accept header includes
    [application/json], has four members: code, description, details
    and mdn, and no times. *)
Theorem envelope_contents (req : request) (w : world) :
  customBody req = JUndefined ->
  (forall ep, In ep [code2; random2] ->
     routed ep req = true -> valid ep req = true ->
     exists sc,
       fst (handler ep req w)
       = Respond sc
           (Json (JObj
              [ (js "code", sc);
                (js "requestedCode", JStr (param req));
                (js "description", reason req);
                (js "definition", JStr (getStatusDescription sc));
                (js "details", JStr (getStatusDescription sc));
                (js "mdn", JStr (mdnBase ++ ToString sc));
                (js "startTime", JStr (toISOString (now w)));
                (js "replyTime",
                 JStr (toISOString (now (snd (handler ep req w)))));
                (js "duration_in_ms",
                 JNum (of_ratio (now (snd (handler ep req w)) - now w) 1));
                (js "duration_in_seconds",
                 JNum (divide
                         (of_ratio (now (snd (handler ep req w)) - now w) 1)
                         1000)) ]))) /\
  (forall ep, In ep [code1; random1] ->
     routed ep req = true -> valid ep req = true ->
     includes (match accept req with Some a => a | None => [] end)
       (js "application/json") = true ->
     exists sc,
       fst (handler ep req w)
       = Respond sc
           (Json (JObj
              [ (js "code", sc);
                (js "description", reason req);
                (js "details", JStr (getStatusDescription sc));
                (js "mdn", JStr (getMDNLink sc)) ]))) /\
  (forall sc, lookup (ToString sc) statusDescriptions = None ->
     getStatusDescription sc = []) /\
  (forall c, 100 <= c <= 599 ->
     getMDNLink (JNum (int c)) = mdnBase ++ decimal c) /\
  getStatusDescription (JNum (int 299)) = [] /\
  getStatusDescription (JNum (int 404))
  = js "Not Found: The server can not find the requested resource." /\
  fst (Rev2.handleCode (with_sleep (js "100") (get (js "299"))) world0)
  = Respond (JNum (int 299))
      (Json (JObj
         [ (js "code", JNum (int 299));
           (js "requestedCode", JStr (js "299"));
           (js "description", JStr []);
           (js "definition", JStr []);
           (js "details", JStr []);
           (js "mdn", JStr (mdnBase ++ js "299"));
           (js "startTime", JStr (js "2024-11-03T08:00:00.000Z"));
           (js "replyTime", JStr (js "2024-11-03T08:00:00.102Z"));
           (js "duration_in_ms", JNum (int 102));
           (js "duration_in_seconds", JNum (StringToNumber (js "0.102"))) ])).
Proof.
  intros Hc. split; [| split; [| split; [| split]]].
  - intros ep Hep Hr Hv.
    destruct (Rev2_default ep req w Hep Hc Hr Hv) as (sc & E).
    exists sc. rewrite E. reflexivity.
  - intros ep Hep Hr Hv Ha.
    destruct (Rev1_default ep req w Hep Hc Hr Hv) as (sc & E).
    exists sc. rewrite E. unfold Rev1.reply. cbn [is_undefined negb].
    now rewrite Ha.
  - intros sc H. unfold getStatusDescription. now rewrite H.
  - intros c Hc'. unfold getMDNLink. now rewrite code_toString.
  - repeat (split; [vm_compute; reflexivity |]). vm_compute; reflexivity.
Qed.

Lemma envelope_contents_witness :
  (exists sc,
     fst (Rev2.handleRandom (get (js "404")) world0)
     = Respond sc
         (Json (JObj
            [ (js "code", sc);
              (js "requestedCode", JStr (js "404"));
              (js "description", JStr []);
              (js "definition", JStr (getStatusDescription sc));
              (js "details", JStr (getStatusDescription sc));
              (js "mdn", JStr (mdnBase ++ ToString sc));
              (js "startTime", JStr (toISOString (now world0)));
              (js "replyTime",
               JStr (toISOString
                       (now (snd (Rev2.handleRandom (get (js "404"))
                                    world0)))));
              (js "duration_in_ms",
               JNum (of_ratio
                       (now (snd (Rev2.handleRandom (get (js "404")) world0))
                        - now world0) 1));
              (js "duration_in_seconds",
               JNum (divide
                       (of_ratio
                          (now (snd (Rev2.handleRandom (get (js "404"))
                                       world0))
                           - now world0) 1)
                       1000)) ]))) /\
  getMDNLink (JNum (int 404)) = mdnBase ++ decimal 404.
Proof.
  split.
  - apply (proj1 (envelope_contents (get (js "404")) world0 eq_refl)
             random2).
    + right. left. reflexivity.
    + reflexivity.
    + vm_compute. reflexivity.
  - apply (envelope_contents (get (js "404")) world0 eq_refl). lia.
Defined.

(** C4 as stated fails on the earlier revision: asked for JSON, its
    single-code endpoint answers [/200] with an object of four members,
    with no requested code, no times and no duration. *)
Lemma envelope_rev1_counterexample :
  fst (Rev1.handleCode (with_accept (js "application/json") (get (js "200")))
         world0)
  = Respond (JNum (int 200))
      (Json (JObj
         [ (js "code", JNum (int 200));
           (js "description", JStr []);
           (js "details", JStr (js "OK: The request has succeeded."));
           (js "mdn", JStr (mdnBase ++ js "200")) ])) /\
  ~ Stated.full_envelope code1 /\ ~ Stated.full_envelope random1.
Proof.
  split; [vm_compute; reflexivity |].
  split; intro H.
  - specialize (H (with_accept (js "application/json") (get (js "200")))
                  world0 _ _ eq_refl
                  ltac:(vm_compute; reflexivity)
                  ltac:(vm_compute; reflexivity)
                  ltac:(vm_compute; reflexivity)
                  (js "startTime")
                  ltac:(vm_compute; tauto)).
    vm_compute in H. intuition discriminate.
  - specialize (H (with_accept (js "application/json") (get (js "200")))
                  world0 _ _ eq_refl
                  ltac:(vm_compute; reflexivity)
                  ltac:(vm_compute; reflexivity)
                  ltac:(vm_compute; reflexivity)
                  (js "startTime")
                  ltac:(vm_compute; tauto)).
    vm_compute in H. intuition discriminate.
Qed.

(* ================================================================== *)
(** * Further facts about the handlers and the application *)
(* ================================================================== *)

Module SizeFacts.
Import JS Express Index Endpoints NumberFacts StringFacts CodeFacts
  RangeFacts SplitFacts EndpointFacts.

Lemma push_range_length (turns : nat) :
  forall i end_, (List.length (push_range turns i end_) <= turns)%nat.
Proof.
  induction turns as [| t IH]; intros i end_; cbn [push_range List.length].
  - lia.
  - destruct (le i end_); cbn [List.length]; [| lia].
    specialize (IH (succ i) end_). lia.
Qed.

Lemma parsePart_length (part : jsstring) :
  (List.length (parsePart part) <= 500)%nat.
Proof.
  unfold parsePart. destruct (includes part (js "-")).
  - destruct (map _ _) as [| start [| end_ rest]]; cbn [List.length]; try lia.
    destruct (_ && _); [apply push_range_length | cbn [List.length]; lia].
  - cbv zeta. destruct (isValidStatusCode _); cbn [List.length]; lia.
Qed.

Lemma split_length (sep : char) (s : jsstring) :
  List.length (split sep s) = S (count_occ Z.eq_dec s sep).
Proof.
  induction s as [| c s IH]; [reflexivity |].
  cbn [split count_occ]. destruct (Z.eqb_spec c sep) as [-> | Hne].
  - destruct (Z.eq_dec sep sep); [| contradiction].
    cbn [List.length]. now rewrite IH.
  - destruct (Z.eq_dec c sep); [contradiction |].
    destruct (split sep s) as [| p ps]; [discriminate | exact IH].
Qed.

Lemma flat_map_length_le {A B} (f : A -> list B) (k : nat) (l : list A) :
  (forall x, List.length (f x) <= k)%nat ->
  (List.length (flat_map f l) <= k * List.length l)%nat.
Proof.
  intros Hf. induction l as [| x l IH]; cbn [flat_map List.length]; [lia |].
  rewrite length_app. specialize (Hf x). lia.
Qed.

Lemma parsed_length (s : jsstring) :
  (List.length (parseStatusCodeRange s)
   <= 500 * S (count_occ Z.eq_dec s 44%Z))%nat.
Proof.
  rewrite parseStatusCodeRange_parts, <- split_length.
  apply flat_map_length_le, parsePart_length.
Qed.

Lemma parsed_length_small (s : jsstring) :
  Z.of_nat (List.length s) < 2 ^ 32 ->
  Z.of_nat (List.length (parseStatusCodeRange s)) < 2 ^ 53.
Proof.
  intros Hs. pose proof (parsed_length s) as Hp.
  pose proof (count_occ_bound Z.eq_dec 44 s) as Hc.
  change (2 ^ 32) with 4294967296 in Hs.
  change (2 ^ 53) with 9007199254740992.
  unfold jsstring, char in *. lia.
Qed.

End SizeFacts.

Module WrittenFacts.
Import JS Express Index Endpoints NumberFacts StringFacts CodeFacts
  RangeFacts SplitFacts EndpointFacts Written.

Lemma includes_char (s : jsstring) (c : char) :
  includes s [c] = true <-> In c s.
Proof.
  induction s as [| d s IH]; cbn [includes starts_with In].
  - split; [discriminate | tauto].
  - rewrite andb_true_r, orb_true_iff, IH, Z.eqb_eq. intuition congruence.
Qed.

Lemma digits_without (s : jsstring) (c : char) :
  forallb is_digit s = true -> is_digit c = false -> ~ In c s.
Proof.
  intros Hs Hc Hin. rewrite forallb_forall in Hs.
  specialize (Hs c Hin). congruence.
Qed.

Lemma decimal_digits (c : Z) :
  0 <= c -> decimal c <> [] /\ forallb is_digit (decimal c) = true.
Proof.
  intros Hc. destruct (decimal_shape c) as (s & Hne & Hd & _ & E).
  replace (c <? 0) with false in E by (symmetry; apply Z.ltb_ge; lia).
  now rewrite E.
Qed.

Lemma parseStatusCodeRange_comma (s1 s2 : jsstring) :
  parseStatusCodeRange (s1 ++ 44 :: s2)
  = parseStatusCodeRange s1 ++ parseStatusCodeRange s2.
Proof.
  rewrite !parseStatusCodeRange_parts, split_app. apply flat_map_app.
Qed.

Lemma parseStatusCodeRange_segment (seg : jsstring) :
  ~ In 44 seg -> parseStatusCodeRange seg = parsePart seg.
Proof.
  intros Hn. rewrite parseStatusCodeRange_parts, split_none by exact Hn.
  cbn [flat_map]. apply app_nil_r.
Qed.

Lemma parse_decimal (c : Z) :
  100 <= c <= 599 -> parseStatusCodeRange (decimal c) = [int c].
Proof.
  intros Hc. destruct (decimal_digits c ltac:(lia)) as [Hne Hd].
  rewrite parseStatusCodeRange_segment
    by (apply digits_without; [exact Hd | reflexivity]).
  unfold parsePart.
  replace (includes (decimal c) (js "-")) with false.
  2:{ symmetry. apply not_true_is_false. intro H.
      apply (includes_char (decimal c) 45) in H.
      revert H. apply digits_without; [exact Hd | reflexivity]. }
  cbv zeta. cbn [Number].
  rewrite Number_decimal by (change (2 ^ 53) with 9007199254740992; lia).
  rewrite isValidStatusCode_int.
  replace (100 <=? c) with true by (symmetry; apply Z.leb_le; lia).
  replace (c <=? 599) with true by (symmetry; apply Z.leb_le; lia).
  reflexivity.
Qed.

Lemma upto_length (n : nat) : forall a, List.length (Spec.upto n a) = n.
Proof.
  induction n as [| n IH]; intros a; cbn [Spec.upto List.length];
    [reflexivity | now rewrite IH].
Qed.

Lemma inclusive_reversed (a b : Z) : b < a -> Spec.inclusive a b = [].
Proof.
  intros H. unfold Spec.inclusive.
  replace (Z.to_nat (b - a + 1)) with O by lia. reflexivity.
Qed.

Lemma parse_code_range (a b : Z) :
  100 <= a <= 599 -> 100 <= b <= 599 ->
  parseStatusCodeRange (code_range a b) = map int (Spec.inclusive a b).
Proof.
  intros Ha Hb. unfold code_range.
  change (js "-" ++ decimal b) with (45 :: decimal b).
  destruct (decimal_digits a ltac:(lia)) as [Hnea Hda].
  destruct (decimal_digits b ltac:(lia)) as [Hneb Hdb].
  assert (Hno : forall c, is_digit c = false -> c <> 45 ->
                  ~ In c (decimal a ++ 45 :: decimal b)).
  { intros c Hc H45 Hin. apply in_app_or in Hin.
    destruct Hin as [Hin | [E | Hin]];
      [revert Hin; now apply digits_without | congruence
      | revert Hin; now apply digits_without]. }
  rewrite parseStatusCodeRange_segment
    by (apply Hno; [reflexivity | discriminate]).
  unfold parsePart.
  replace (includes (decimal a ++ 45 :: decimal b) (js "-")) with true
    by (symmetry; apply (includes_char _ 45), in_or_app; right; now left).
  rewrite split_app.
  rewrite !split_none by (apply digits_without; [assumption | reflexivity]).
  cbn [app map Number].
  rewrite !Number_decimal by (change (2 ^ 53) with 9007199254740992; lia).
  rewrite !isInteger_int, le_int, !isValidStatusCode_int.
  replace (100 <=? a) with true by (symmetry; apply Z.leb_le; lia).
  replace (a <=? 599) with true by (symmetry; apply Z.leb_le; lia).
  replace (100 <=? b) with true by (symmetry; apply Z.leb_le; lia).
  replace (b <=? 599) with true by (symmetry; apply Z.leb_le; lia).
  cbn [andb]. rewrite !andb_true_r.
  destruct (Z.leb_spec a b) as [Hab | Hab].
  - apply push_range_inclusive; unfold Spec.validCode;
      apply andb_true_iff; split; apply Z.leb_le; lia.
  - now rewrite inclusive_reversed.
Qed.

Lemma parse_code_list (cs : list Z) :
  Forall (fun c => 100 <= c <= 599) cs ->
  parseStatusCodeRange (code_list cs) = map int cs.
Proof.
  unfold code_list. induction 1 as [| c cs Hc Hcs IH]; [reflexivity |].
  destruct cs as [| c' cs'].
  - cbn [map join]. now apply parse_decimal.
  - change (join (js ",") (map decimal (c :: c' :: cs')))
      with (decimal c ++ 44 :: join (js ",") (map decimal (c' :: cs'))).
    rewrite parseStatusCodeRange_comma, IH, parse_decimal by exact Hc.
    reflexivity.
Qed.

End WrittenFacts.

Module StatusFacts.
Import JS Express Index Endpoints NumberFacts StringFacts CodeFacts
  RandomFacts RangeFacts HandlerFacts ValidatorFacts SplitFacts
  EndpointFacts DelayFacts SizeFacts WrittenFacts.

Lemma respond_of_status (o : outcome) (sc : jsvalue) :
  status_of o = Some sc -> exists p, o = Respond sc p.
Proof.
  destruct o as [| s p]; [discriminate |]. intros [= ->]. now exists p.
Qed.

(** An endpoint is a single-code one or a random one, not both. *)
Lemma kind_of (ep : endpoint) :
  In ep endpoints ->
  (In ep codeEndpoints /\ ~ In ep randomEndpoints) \/
  (In ep randomEndpoints /\ ~ In ep codeEndpoints).
Proof.
  assert (D : forall a b, rejection a <> rejection b -> a <> b)
    by (intros a b H ->; now apply H).
  assert (Hd : invalidCode <> invalidRange) by (vm_compute; discriminate).
  intros [<- | [<- | [<- | [<- | []]]]].
  - left. split; [now left |].
    intros [E | [E | []]]; revert E; apply D; cbn [rejection random1 random2 code1]; congruence.
  - right. split; [now left |].
    intros [E | [E | []]]; revert E; apply D; cbn [rejection random1 code2 code1]; congruence.
  - left. split; [right; now left |].
    intros [E | [E | []]]; revert E; apply D; cbn [rejection random1 random2 code2]; congruence.
  - right. split; [right; now left |].
    intros [E | [E | []]]; revert E; apply D; cbn [rejection random2 code2 code1]; congruence.
Qed.

(** The status a request that passes validation is answered with. *)
Lemma accepted_status (ep : endpoint) (req : request) (w : world) :
  In ep endpoints -> routed ep req = true -> valid ep req = true ->
  Z.of_nat (List.length (parseStatusCodeRange (param req))) < 2 ^ 53 ->
  exists c, 100 <= c <= 599 /\
    status_of (fst (handler ep req w)) = Some (JNum (int c)) /\
    (In ep codeEndpoints -> Number (JStr (param req)) = int c) /\
    (In ep randomEndpoints -> In (int c) (parseStatusCodeRange (param req))).
Proof.
  intros Hep Hr Hv Hlen.
  assert (Hcode : In ep codeEndpoints ->
            exists c, 100 <= c <= 599 /\
              status_of (fst (handler ep req w)) = Some (JNum (int c)) /\
              Number (JStr (param req)) = int c).
  { intros Hc. rewrite code_status_valid by assumption.
    assert (Hv' : isValidStatusCode (JStr (param req)) = true).
    { destruct Hc as [<- | [<- | []]]; exact Hv. }
    apply isValidStatusCode_iff in Hv'. destruct Hv' as (c & Hc' & E).
    exists c. rewrite E. auto. }
  assert (Hrand : In ep randomEndpoints ->
            exists c, 100 <= c <= 599 /\
              status_of (fst (handler ep req w)) = Some (JNum (int c)) /\
              In (int c) (parseStatusCodeRange (param req))).
  { intros Hc. destruct (random_accept ep req w Hc Hv) as (Hs & _).
    assert (Hne : parseStatusCodeRange (param req) <> []).
    { intro E. apply (valid_range_iff ep req Hc) in E. congruence. }
    destruct (pick_in _ (entropy w) Hne Hlen) as (x & Hin & Hp).
    destruct (parsed_codes_valid _ _ Hin) as (c & Hc' & ->).
    exists c. rewrite Hs, Hp. auto. }
  destruct (kind_of ep Hep) as [[Hc Hn] | [Hc Hn]].
  - destruct (Hcode Hc) as (c & ? & ? & ?). exists c.
    split; [assumption | split; [assumption | split; [auto |]]].
    intros Hin. now destruct Hn.
  - destruct (Hrand Hc) as (c & ? & ? & ?). exists c.
    split; [assumption | split; [assumption | split; [| auto]]].
    intros Hin. now destruct Hn.
Qed.

Lemma unrouted_next (ep : endpoint) (req : request) (w : world) :
  In ep endpoints -> routed ep req = false -> handler ep req w = (Next, w).
Proof.
  intros Hep Hr. destruct Hep as [<- | [<- | [<- | [<- | []]]]];
    try discriminate; apply code_unrouted; auto; [now left | right; now left].
Qed.

Lemma rejection_400 (ep : endpoint) :
  In ep endpoints ->
  exists msg, rejection ep = Respond (JNum (int 400)) (Send msg).
Proof.
  intros [<- | [<- | [<- | [<- | []]]]]; eexists; reflexivity.
Qed.

Lemma pick_one (x : number) (k : Z) :
  pick [x] (finite (k mod 2 ^ 53) (-53)) = JNum x.
Proof.
  destruct (pick_in [x] k) as (c & [<- | []] & E);
    [discriminate | reflexivity | exact E].
Qed.

Lemma now_after_delay_emit (s : jsvalue) (ev : event) (w : world) :
  now (after_delay s (emit ev w)) = now (after_delay s w).
Proof. rewrite !now_after_delay. reflexivity. Qed.

End StatusFacts.

Module BodyFacts.
Import JS Express Index Endpoints NumberFacts StringFacts CodeFacts
  RandomFacts RangeFacts HandlerFacts ValidatorFacts SplitFacts
  EndpointFacts DelayFacts Samples.

(** What a handler reads of the request: the path parameter, the
    [sleep] parameter, the custom body, the Accept header and the
    reason phrase. *)
Lemma handler_reads (ep : endpoint) (req req' : request) (w : world) :
  In ep endpoints ->
  param req' = param req -> sleep req' = sleep req ->
  customBody req' = customBody req ->
  accept req' = accept req -> statusMessage req' = statusMessage req ->
  handler ep req' w = handler ep req w.
Proof.
  intros Hep Hp Hs Hc Ha Hm.
  destruct Hep as [<- | [<- | [<- | [<- | []]]]];
    cbn [handler code1 random1 code2 random2];
    unfold Rev1.handleCode, Rev1.handleRandom, Rev2.handleCode,
      Rev2.handleRandom, Rev1.reply, Rev2.reply, Rev2.envelope, reason;
    rewrite Hp, Hs, Hc, ?Ha, Hm; reflexivity.
Qed.

Lemma customBody_sent (m : jsstring) (b : jsvalue) (req : request) :
  is_undefined (bodyParam req) = false ->
  customBody (sent m b req) = customBody req.
Proof.
  intros H. unfold customBody. cbn [bodyParam sent]. now rewrite H.
Qed.

Lemma customBody_request (req : request) :
  bodyParam req = JUndefined ->
  customBody req
  = if array_includes [js "POST"; js "PUT"; js "PATCH"] (method req)
       && truthy (body req) && (0 <? keys_length (body req))%nat
    then body req else JUndefined.
Proof. intros H. unfold customBody. now rewrite H. Qed.

End BodyFacts.

Module RevisionFacts.
Import JS Express Index Endpoints NumberFacts StringFacts CodeFacts
  RandomFacts RangeFacts HandlerFacts ValidatorFacts SplitFacts
  EndpointFacts DelayFacts WrittenFacts.

Lemma Rev1_reply_status (req : request) (sc custom : jsvalue) :
  status_of (Rev1.reply req sc custom) = Some sc.
Proof.
  unfold Rev1.reply. destruct (negb (is_undefined custom));
    [apply sendCustom_shape |].
  now destruct (includes _ _).
Qed.

Lemma Rev1_reply_custom (req : request) (sc custom : jsvalue) :
  is_undefined custom = false ->
  Rev1.reply req sc custom = sendCustom sc custom.
Proof. intros H. unfold Rev1.reply. now rewrite H. Qed.

Lemma Rev2_reply_status (sc custom d : jsvalue) :
  status_of (if is_undefined custom then Respond sc (Json d)
             else sendCustom sc custom) = Some sc.
Proof. destruct (is_undefined custom); [reflexivity | apply sendCustom_shape]. Qed.

Lemma timers_clock (t : Z) (w : world) :
  timers (log (emit (Clock t) w)) = timers (log w).
Proof. cbn [emit log]. rewrite timers_app. apply app_nil_r. Qed.

Lemma timers_random (r : number) (w : world) :
  timers (log (emit (Random r) w)) = timers (log w).
Proof. cbn [emit log]. rewrite timers_app. apply app_nil_r. Qed.

Lemma timers_after_delay (s : jsvalue) (w w' : world) :
  timers (log w') = timers (log w) ->
  timers (log (after_delay s w')) = timers (log (after_delay s w)).
Proof. intros H. rewrite !log_after_delay, !timers_app. now rewrite H. Qed.

Lemma split_two (a b rest : jsstring) :
  ~ In 45 a -> ~ In 45 b ->
  exists more, split 45 (a ++ 45 :: b ++ 45 :: rest) = a :: b :: more.
Proof.
  intros Ha Hb. rewrite !split_app, !split_none by assumption.
  now exists (split 45 rest).
Qed.

End RevisionFacts.

Module ParseFacts.
Import JS Express Index Kept.

Lemma json_word_defined (run : jsstring) (v : jsvalue) :
  json_word run = Some v -> v <> JUndefined.
Proof.
  unfold json_word.
  destruct (str_eqb run (js "true")); [intros [= <-]; discriminate |].
  destruct (str_eqb run (js "false")); [intros [= <-]; discriminate |].
  destruct (str_eqb run (js "null")); [intros [= <-]; discriminate |].
  discriminate.
Qed.

Lemma lex_idle_defined (c : char) (out : list token) :
  Forall defined_token out -> defined_lstate (lex_idle c out).
Proof.
  intros H. unfold lex_idle.
  repeat match goal with
         | |- defined_lstate (if ?b then _ else _) => destruct b
         end;
    cbn [defined_lstate]; auto; apply Forall_cons; auto; exact I.
Qed.

Lemma lex_step_defined (st : lstate) (c : char) :
  defined_lstate st -> defined_lstate (lex_step st c).
Proof.
  destruct st as [[m out] |]; [| auto]. cbn [defined_lstate]. intros H.
  destruct m as [| acc | acc | acc hex | acc | acc]; cbn [lex_step].
  - now apply lex_idle_defined.
  - destruct (c =? 34); [apply Forall_cons; [exact I | exact H] |].
    destruct (c =? 92); [exact H |]. destruct (c <? 32); [exact I | exact H].
  - destruct (c =? 117); [exact H |]. destruct (json_escape c); [exact H | exact I].
  - destruct (is_hex_digit c); [| exact I].
    destruct hex as [| h3 [| h2 [| h1 [| h0 hex']]]]; exact H.
  - destruct (is_number_char c); [exact H |].
    destruct (json_number (rev acc)); [| exact I].
    apply lex_idle_defined, Forall_cons; [exact I | exact H].
  - destruct (is_letter c); [exact H |].
    destruct (json_word (rev acc)) as [v |] eqn:E; [| exact I].
    apply lex_idle_defined, Forall_cons; [| exact H].
    apply json_word_defined in E. now destruct v.
Qed.

Lemma lex_defined (s : jsstring) (ts : list token) :
  lex s = Some ts -> Forall defined_token ts.
Proof.
  unfold lex.
  assert (H : forall st, defined_lstate st ->
            defined_lstate (fold_left lex_step s st)).
  { induction s as [| c s IH]; intros st Hst; [exact Hst |].
    cbn [fold_left]. apply IH, lex_step_defined, Hst. }
  specialize (H (Some (LIdle, [])) (Forall_nil _)).
  destruct (fold_left lex_step s (Some (LIdle, []))) as [[m out] |];
    [| discriminate].
  cbn [defined_lstate] in H.
  assert (Hrev : forall l, Forall defined_token l ->
            Forall defined_token (rev l)).
  { intros l Hl. apply Forall_forall. intros t Ht. apply in_rev in Ht.
    rewrite Forall_forall in Hl. now apply Hl. }
  destruct m as [| acc | acc | acc hex | acc | acc]; try discriminate.
  - intros [= <-]. now apply Hrev.
  - destruct (json_number (rev acc)); [| discriminate].
    intros [= <-]. apply Forall_app. split; [now apply Hrev |].
    apply Forall_cons; [exact I | apply Forall_nil].
  - destruct (json_word (rev acc)) as [v |] eqn:E; [| discriminate].
    intros [= <-]. apply Forall_app. split; [now apply Hrev |].
    apply Forall_cons; [| apply Forall_nil].
    apply json_word_defined in E. now destruct v.
Qed.

Lemma deliver_defined (st : list frame) (v : jsvalue) :
  v <> JUndefined -> defined_pstate (deliver st v).
Proof.
  intros Hv. destruct st as [| [acc | acc k] st']; cbn [deliver defined_pstate];
    auto. now destruct v.
Qed.

Lemma parse_value_defined (st : list frame) (t : token) :
  defined_token t -> defined_pstate (parse_value st t).
Proof.
  intros Ht. destruct t; cbn [parse_value defined_pstate]; auto.
  - apply deliver_defined. discriminate.
  - apply deliver_defined. now destruct v.
Qed.

Lemma parse_step_defined (p : pstate) (t : token) :
  defined_token t -> defined_pstate (parse_step p t).
Proof.
  intros Ht. destruct p; cbn [parse_step].
  - now apply parse_value_defined.
  - destruct t; try (now apply parse_value_defined).
    apply deliver_defined. discriminate.
  - destruct t; try exact I. apply deliver_defined. discriminate.
  - destruct t; exact I.
  - destruct t; exact I.
  - destruct t; try exact I. apply deliver_defined. discriminate.
  - destruct t; try exact I. apply deliver_defined. discriminate.
  - exact I.
  - exact I.
Qed.

Lemma parse_defined (ts : list token) :
  Forall defined_token ts ->
  forall p, defined_pstate p -> defined_pstate (fold_left parse_step ts p).
Proof.
  induction 1 as [| t ts Ht Hts IH]; intros p Hp; [exact Hp |].
  cbn [fold_left]. apply IH. now apply parse_step_defined.
Qed.

Lemma JSON_parse_defined (text : jsvalue) :
  JSON_parse text <> Some JUndefined.
Proof.
  unfold JSON_parse. destruct (lex (ToString text)) as [ts |] eqn:E;
    [| discriminate].
  apply lex_defined in E.
  pose proof (parse_defined ts E (PValue []) I) as H.
  destruct (fold_left parse_step ts (PValue [])); try discriminate.
  intros [= ->]. exact H.
Qed.

End ParseFacts.

Module SetupFacts.
Import JS Express Index NumberFacts StringFacts CodeFacts DelayFacts Setup.




Lemma truthy_int (z : Z) : truthy (JNum (int z)) = negb (z =? 0).
Proof.
  unfold int. destruct (finite_spec z 0)
    as (m & e & E & [(-> & -> & ->) | (Hz & _ & _ & Hodd)]);
    rewrite E; [reflexivity |].
  replace (z =? 0) with false by (symmetry; now apply Z.eqb_neq).
  destruct m; [discriminate | reflexivity | reflexivity].
Qed.




Lemma span_digits_digits (s : jsstring) :
  forallb is_digit (fst (span_digits s)) = true.
Proof.
  induction s as [| c s IH]; [reflexivity |]. cbn [span_digits].
  destruct (is_digit c) eqn:E; [| reflexivity].
  destruct (span_digits s) as [d r]. cbn [fst forallb] in *. now rewrite E.
Qed.

Lemma fold_digits_nonneg (ds : jsstring) :
  forall acc, 0 <= acc -> forallb is_digit ds = true ->
  0 <= fold_left (fun a c => 10 * a + digit_val c) ds acc.
Proof.
  induction ds as [| c ds IH]; intros a Ha Hd; [exact Ha |].
  cbn [forallb fold_left] in *. apply andb_true_iff in Hd.
  destruct Hd as [Hc Hd]. apply IH; [| exact Hd].
  unfold digit_val. rewrite Hc. apply digit_range in Hc. lia.
Qed.

Lemma digits_val_nonneg (ds : jsstring) :
  forallb is_digit ds = true -> 0 <= digits_val 10 ds.
Proof. intros H. apply fold_digits_nonneg; [lia | exact H]. Qed.

(** A Number other than [NaN] and zero: an infinity or a non-zero
    integer. *)
Lemma of_natural_shape (n : Z) :
  0 <= n ->
  of_natural n = int 0 \/ of_natural n = Infinity false \/
  exists z, 0 < z /\ of_natural n = int z.
Proof.
  intros Hn. unfold of_natural. destruct (Z.eqb_spec n 0); [now left |].
  right. destruct (Z_lt_le_dec n (2 ^ 53)) as [Hs | Hb].
  - right. exists n. split; [lia | apply binary64_int; lia].
  - destruct (binary64_big n Hb) as [-> | (z & Hz & ->)]; [now left |].
    right. exists z. split; [| reflexivity].
    change (2 ^ 53) with 9007199254740992 in Hz. lia.
Qed.

Lemma negate_int (z : Z) : negate (int z) = int (- z).
Proof. unfold int. apply negate_finite. Qed.

Lemma parseInt_shape (v : jsvalue) :
  parseInt v = NaN \/ parseInt v = int 0 \/
  (exists b, parseInt v = Infinity b) \/
  exists z, z <> 0 /\ parseInt v = int z.
Proof.
  unfold parseInt, parseInt10.
  destruct (take_sign true (trim_start (ToString v))) as [neg u].
  pose proof (span_digits_digits u) as Hd.
  destruct (fst (span_digits u)) as [| d ds] eqn:E; [now left |].
  right. apply digits_val_nonneg in Hd.
  destruct (of_natural_shape _ Hd) as [-> | [-> | (z & Hz & ->)]].
  - left. now destruct neg.
  - right. left. destruct neg; eexists; reflexivity.
  - right. right. destruct neg; cbn [signed].
    + exists (- z). split; [lia | apply negate_int].
    + exists z. split; [lia | reflexivity].
Qed.

Lemma of_ratio_shape (k : Z) :
  k <> 0 ->
  (exists b, of_ratio k 1 = Infinity b) \/
  exists z, z <> 0 /\ of_ratio k 1 = int z.
Proof.
  intros Hk.
  assert (H : forall n, 0 < n ->
            binary64 n 1 = Infinity false \/
            exists z, 0 < z /\ binary64 n 1 = int z).
  { intros n Hn. destruct (Z_lt_le_dec n (2 ^ 53)) as [Hs | Hb].
    - right. exists n. split; [lia | apply binary64_int; lia].
    - destruct (binary64_big n Hb) as [-> | (z & Hz & ->)]; [now left |].
      right. exists z. split; [| reflexivity].
      change (2 ^ 53) with 9007199254740992 in Hz. lia. }
  unfold of_ratio. destruct k as [| p | p]; [contradiction | |].
  - destruct (H (Zpos p) ltac:(lia)) as [-> | (z & Hz & ->)];
      [left; eexists; reflexivity |].
    right. exists z. split; [lia | reflexivity].
  - destruct (H (- Zneg p) ltac:(lia)) as [-> | (z & Hz & ->)];
      [left; eexists; reflexivity |].
    right. exists (- z). split; [lia | apply negate_int].
Qed.

Lemma times_shape (x : number) (n : Z) :
  0 < n ->
  (exists b, x = Infinity b) \/ (exists z, z <> 0 /\ x = int z) ->
  (exists b, times x n = Infinity b) \/
  exists z, z <> 0 /\ times x n = int z.
Proof.
  intros Hn [(b & ->) | (z & Hz & ->)].
  - left. exists b. cbn [times].
    now replace (n =? 0) with false by (symmetry; apply Z.eqb_neq; lia).
  - destruct (int_spec z) as (m & e & E & He & Hv). rewrite E. cbn [times].
    replace (0 <=? e) with true by (symmetry; apply Z.leb_le; lia).
    rewrite <- Hv. apply of_ratio_shape. nia.
Qed.

Lemma shape_truthy (x : number) :
  (exists b, x = Infinity b) \/ (exists z, z <> 0 /\ x = int z) ->
  truthy (JNum x) = true.
Proof.
  intros [(b & ->) | (z & Hz & ->)]; [reflexivity |].
  rewrite truthy_int. now apply negb_true_iff, Z.eqb_neq.
Qed.

Lemma int_setting_shape (env : environment) (name : jsstring) (d : Z) :
  d <> 0 ->
  (exists b, int_setting env name d = Infinity b) \/
  exists z, z <> 0 /\ int_setting env name d = int z.
Proof.
  intros Hd. unfold int_setting. cbv zeta.
  destruct (parseInt_shape (env_get env name))
    as [-> | [-> | [(b & ->) | (z & Hz & ->)]]].
  - right. now exists d.
  - right. now exists d.
  - left. now exists b.
  - right. exists z. split; [exact Hz |].
    rewrite truthy_int.
    now replace (z =? 0) with false by (symmetry; now apply Z.eqb_neq).
Qed.

End SetupFacts.

Module DrawFacts.
Import JS Express Index Endpoints NumberFacts StringFacts RandomFacts.

(** The product of a Number below one and a length, when it lies in the
    lower half of [[i, i + 1)]: its floor is [i]. *)
Lemma binary64_floor (m j N i : Z) :
  1 <= m < 2 ^ j -> 0 <= j <= 53 -> 1 <= N < 2 ^ 53 -> 0 <= i ->
  i * 2 ^ j <= m * N -> 2 * (m * N - i * 2 ^ j) < 2 ^ j ->
  floor (binary64 (m * N) (2 ^ j)) = i.
Proof.
  intros Hm Hj HN Hi Hlo' Hhi'.
  assert (Hn : 0 < m * N) by nia.
  assert (Hpj : 0 < 2 ^ j) by (apply Z.pow_pos_nonneg; lia).
  unfold binary64. rewrite floor_log2_pow2 by lia.
  set (L := Z.log2 (m * N)).
  destruct (Z.log2_spec (m * N) Hn) as [Hlo Hhi]. fold L in Hlo, Hhi.
  assert (HL0 : 0 <= L) by apply Z.log2_nonneg.
  assert (HLj : L < j + 53).
  { apply Z.log2_lt_pow2; [lia |]. rewrite Z.pow_add_r by lia. nia. }
  set (ex := Z.max (L - j - 52) (-1074)).
  assert (Hex : ex <= 0) by (unfold ex; lia).
  assert (Hpe : 0 < 2 ^ (- ex)) by (apply Z.pow_pos_nonneg; lia).
  pose (q := round_half_even (m * N * 2 ^ (- ex)) (2 ^ j)).
  assert (Eq : (if 0 <=? ex
                then round_half_even (m * N) (2 ^ j * 2 ^ ex)
                else round_half_even (m * N * 2 ^ (- ex)) (2 ^ j)) = q).
  { destruct (0 <=? ex) eqn:E; [| reflexivity].
    apply Z.leb_le in E. assert (ex = 0) as E0 by lia. unfold q.
    rewrite E0. change (- 0) with 0. now rewrite Z.pow_0_r, !Z.mul_1_r. }
  rewrite Eq.
  not_below 971 ex.
  differ ex 971.
  cbn [orb andb].
  assert (Hlow : i * 2 ^ (- ex) <= q).
  { eapply Z.le_trans; [| apply round_half_even_lower; lia].
    apply Z.div_le_lower_bound; [lia |]. nia. }
  assert (Hup : q <= (i + 1) * 2 ^ (- ex) - 1).
  { apply round_half_even_below; [lia |].
    set (E := 2 ^ (- ex)) in *. set (J := 2 ^ j) in *.
    assert (H1 : 2 * (m * N) <= 2 * i * J + J - 1) by lia.
    assert (H2 : 2 * (m * N) * E <= (2 * i * J + J - 1) * E) by nia.
    assert (H3 : J <= E * J) by nia.
    nia. }
  rewrite floor_finite.
  destruct (0 <=? ex) eqn:E0.
  - apply Z.leb_le in E0. assert (ex = 0) by lia. subst ex.
    replace (Z.max (L - j - 52) (-1074)) with 0 in * by lia.
    change (- 0) with 0 in *. rewrite Z.pow_0_r in *. lia.
  - apply Z.leb_gt in E0. symmetry. apply Z.div_unique with (r := q - i * 2 ^ (- ex)).
    + left. lia.
    + ring.
Qed.

(** The bits that select position [i] of [N]: [i / N] rounded up to a
    multiple of [2 ^ -53]. *)
Lemma draw_for (N i : Z) :
  0 <= i < N -> N <= 2 ^ 52 ->
  let k := (i * 2 ^ 53 + N - 1) / N in
  0 <= k < 2 ^ 53 /\ i * 2 ^ 53 <= k * N /\ 2 * (k * N - i * 2 ^ 53) < 2 ^ 53.
Proof.
  intros Hi HN k.
  change (2 ^ 52) with 4503599627370496 in *.
  change (2 ^ 53) with 9007199254740992 in *.
  pose proof (Z.mul_div_le (i * 9007199254740992 + N - 1) N ltac:(lia)) as H1.
  pose proof (Z.mod_pos_bound (i * 9007199254740992 + N - 1) N ltac:(lia)) as H2.
  pose proof (Z.div_mod (i * 9007199254740992 + N - 1) N ltac:(lia)) as H3.
  fold k in H1, H3.
  assert (0 <= k) by (apply Z.div_pos; lia).
  repeat split; nia.
Qed.

Lemma pick_at (codes : list number) (i : nat) (c : number) :
  nth_error codes i = Some c ->
  Z.of_nat (List.length codes) <= 2 ^ 52 ->
  exists k, 0 <= k < 2 ^ 53 /\
    pick codes (finite (k mod 2 ^ 53) (-53)) = JNum c.
Proof.
  intros Hnth HN. set (N := Z.of_nat (List.length codes)) in *.
  assert (HiN : 0 <= Z.of_nat i < N).
  { assert (i < List.length codes)%nat
      by (apply nth_error_Some; congruence). unfold N. lia. }
  destruct (draw_for N (Z.of_nat i) HiN HN) as (Hk & Hlo & Hhi).
  set (K := (Z.of_nat i * 2 ^ 53 + N - 1) / N) in *.
  exists K. split; [exact Hk |]. rewrite Z.mod_small by exact Hk.
  assert (Hidx : (if Z.of_nat i <? 0 then JUndefined
                  else match nth_error codes (Z.to_nat (Z.of_nat i)) with
                       | Some c => JNum c
                       | None => JUndefined
                       end) = JNum c).
  { not_below (Z.of_nat i) 0. now rewrite Nat2Z.id, Hnth. }
  assert (HN53 : N < 2 ^ 53).
  { change (2 ^ 52) with 4503599627370496 in HN.
    change (2 ^ 53) with 9007199254740992. lia. }
  unfold pick. fold N.
  destruct (finite_spec K (-53))
    as (m & e & Er & [(HK0 & -> & ->) | (HK0 & Hle & Hv & Hodd)]);
    rewrite Er.
  - assert (Z.of_nat i = 0) by nia.
    cbn [times]. change (0 <=? 0) with true. cbv iota.
    change (0 * 2 ^ 0 * N) with 0. cbn [of_ratio floor].
    change (0 <=? 0) with true. cbv iota. change (0 * 2 ^ 0) with 0.
    rewrite <- Hidx, H. reflexivity.
  - replace (e - -53) with (e + 53) in Hv by lia.
    assert (Hp : 0 < 2 ^ (e + 53)) by (apply Z.pow_pos_nonneg; lia).
    assert (Hm : 1 <= m) by nia.
    assert (He : e < 0).
    { destruct (Z_lt_le_dec e 0); [assumption | exfalso].
      assert (2 ^ 53 <= 2 ^ (e + 53)) by (apply Z.pow_le_mono_r; lia). nia. }
    assert (Hs : 2 ^ (- e) * 2 ^ (e + 53) = 2 ^ 53).
    { rewrite <- Z.pow_add_r by lia. f_equal. lia. }
    assert (Hmj : m < 2 ^ (- e)).
    { apply (Z.mul_lt_mono_pos_r (2 ^ (e + 53))); [lia |]. lia. }
    cbn [times].
    replace (0 <=? e) with false by (symmetry; apply Z.leb_gt; lia).
    assert (Hmn : 0 < m * N) by nia.
    unfold of_ratio. destruct (m * N) as [| p | p] eqn:Emn; try lia.
    rewrite <- Emn.
    pose proof (binary64_floor m (- e) N (Z.of_nat i)) as Hfl.
    destruct (binary64 (m * N) (2 ^ (- e))) as [| b | m' e'] eqn:Eb.
    + exfalso. destruct (binary64_below m (- e) N) as (q & ex & E' & _);
        try lia.
      rewrite Eb in E'.
      destruct (finite_spec q ex) as (? & ? & E'' & _); congruence.
    + exfalso. destruct (binary64_below m (- e) N) as (q & ex & E' & _);
        try lia.
      rewrite Eb in E'.
      destruct (finite_spec q ex) as (? & ? & E'' & _); congruence.
    + rewrite Hfl; [exact Hidx | lia | lia | lia | lia | |].
      * apply (Z.mul_le_mono_pos_r _ _ (2 ^ (e + 53))); [lia |].
        rewrite <- Z.mul_assoc, Hs. nia.
      * apply (Z.mul_lt_mono_pos_r (2 ^ (e + 53))); [lia |].
        rewrite Hs. nia.
Qed.

End DrawFacts.

Module AppFacts.
Import JS Express Index Endpoints HandlerFacts ValidatorFacts EndpointFacts
  DelayFacts App.

(** The single-code handler calls [next()] before it does anything
    else, or not at all. *)
Lemma code_next_world (ep : endpoint) (req : request) (w : world) :
  In ep codeEndpoints -> fst (handler ep req w) = Next ->
  snd (handler ep req w) = w.
Proof.
  intros Hep Hn.
  assert (Hall : In ep endpoints).
  { destruct Hep as [<- | [<- | []]]; [now left | right; right; now left]. }
  destruct (routed ep req) eqn:Hr.
  - exfalso. destruct (valid ep req) eqn:Hv.
    + destruct (handler_run ep req w Hall Hr Hv)
        as (_ & _ & sc & _ & _ & _ & Hs & _).
      rewrite Hn in Hs. discriminate.
    + destruct (handler_reject ep req w Hall Hr Hv) as (clocked & E).
      rewrite E in Hn. cbn [fst] in Hn.
      destruct Hep as [<- | [<- | []]]; discriminate.
  - now rewrite code_unrouted.
Qed.

Lemma random_responds (ep : endpoint) (req : request) (w : world) :
  In ep randomEndpoints -> fst (handler ep req w) <> Next.
Proof.
  intros Hep Hn.
  assert (Hall : In ep endpoints).
  { destruct Hep as [<- | [<- | []]];
      [right; now left | right; right; right; now left]. }
  assert (Hr : routed ep req = true)
    by (destruct Hep as [<- | [<- | []]]; reflexivity).
  destruct (valid ep req) eqn:Hv.
  - destruct (handler_run ep req w Hall Hr Hv)
      as (_ & _ & sc & _ & _ & _ & Hs & _).
    rewrite Hn in Hs. discriminate.
  - destruct (handler_reject ep req w Hall Hr Hv) as (clocked & E).
    rewrite E in Hn. cbn [fst] in Hn.
    destruct Hep as [<- | [<- | []]]; discriminate.
Qed.

Lemma handle_Code (rev : revision) (docs : documents) (inc : incoming)
  (p : jsstring) (w : world) :
  handle rev docs Code inc p w
  = (replied (fst (handler (code_endpoint rev) (with_param p (asked inc)) w)),
     snd (handler (code_endpoint rev) (with_param p (asked inc)) w)).
Proof.
  cbn [handle]. unfold bind, ret.
  now destruct (handler (code_endpoint rev) (with_param p (asked inc)) w).
Qed.

Lemma handle_RandomRange (rev : revision) (docs : documents) (inc : incoming)
  (p : jsstring) (w : world) :
  handle rev docs RandomRange inc p w
  = (replied (fst (handler (random_endpoint rev)
                     (with_param p (asked inc)) w)),
     snd (handler (random_endpoint rev) (with_param p (asked inc)) w)).
Proof.
  cbn [handle]. unfold bind, ret.
  now destruct (handler (random_endpoint rev) (with_param p (asked inc)) w).
Qed.

Lemma code_endpoint_In (rev : revision) : In (code_endpoint rev) codeEndpoints.
Proof. destruct rev; [now left | right; now left]. Qed.

Lemma random_endpoint_In (rev : revision) :
  In (random_endpoint rev) randomEndpoints.
Proof. destruct rev; [now left | right; now left]. Qed.

(** One step of the router. *)
Lemma run_cons (rev : revision) (docs : documents) (l : layer)
  (rest : list layer) (inc : incoming) (tagged : bool) (w : world) :
  run rev docs (l :: rest) inc tagged w
  = let route_at rt :=
      match matched inc rt with
      | Some p =>
          match handle rev docs rt inc p w with
          | (Some a, w') =>
              ({| result_of := Answered rt a; robots := tagged |}, w')
          | (None, w') => run rev docs rest inc tagged w'
          end
      | None => run rev docs rest inc tagged w
      end in
    match l with
    | Use p =>
        if passes inc p then run rev docs rest inc tagged w
        else ({| result_of := Ended p; robots := tagged |}, w)
    | UseDocs =>
        if under_docs inc && negb (passes inc SwaggerUi)
        then ({| result_of := Ended SwaggerUi; robots := tagged |}, w)
        else run rev docs rest inc tagged w
    | UseRobots => run rev docs rest inc true w
    | All rt => route_at rt
    | Get rt =>
        if is_get (method (asked inc)) then route_at rt
        else run rev docs rest inc tagged w
    end.
Proof.
  cbn [run]. cbv zeta.
  assert (H : forall rt,
            match matched inc rt with
            | Some p =>
                a <- handle rev docs rt inc p ;;
                match a with
                | Some a0 => ret {| result_of := Answered rt a0; robots := tagged |}
                | None => run rev docs rest inc tagged
                end
            | None => run rev docs rest inc tagged
            end w
            = match matched inc rt with
              | Some p =>
                  match handle rev docs rt inc p w with
                  | (Some a, w') =>
                      ({| result_of := Answered rt a; robots := tagged |}, w')
                  | (None, w') => run rev docs rest inc tagged w'
                  end
              | None => run rev docs rest inc tagged w
              end).
  { intros rt. destruct (matched inc rt) as [p |]; [| reflexivity].
    unfold bind. destruct (handle rev docs rt inc p w) as [[a |] w'];
      reflexivity. }
  destruct l as [p | | | rt | rt].
  - now destruct (passes inc p).
  - now destruct (under_docs inc && negb (passes inc SwaggerUi)).
  - reflexivity.
  - apply H.
  - destruct (is_get (method (asked inc))); [apply H | reflexivity].
Qed.

(** The header is set by the last layer only. *)
Lemma run_tag (rev : revision) (docs : documents) (inc : incoming)
  (ls : list layer) :
  ~ In UseRobots ls ->
  forall w,
    robots (fst (run rev docs (ls ++ [UseRobots]) inc false w)) = true
    <-> result_of (fst (run rev docs (ls ++ [UseRobots]) inc false w))
        = Unanswered.
Proof.
  induction ls as [| l ls IH]; intros Hn w.
  - cbn. tauto.
  - assert (Hn' : ~ In UseRobots ls) by (intro H; apply Hn; now right).
    specialize (IH Hn').
    change ((l :: ls) ++ [UseRobots]) with (l :: (ls ++ [UseRobots])).
    rewrite run_cons. cbv zeta.
    assert (Hroute : forall rt,
              let r := match matched inc rt with
                       | Some p =>
                           match handle rev docs rt inc p w with
                           | (Some a, w') =>
                               ({| result_of := Answered rt a;
                                   robots := false |}, w')
                           | (None, w') =>
                               run rev docs (ls ++ [UseRobots]) inc false w'
                           end
                       | None => run rev docs (ls ++ [UseRobots]) inc false w
                       end in
              robots (fst r) = true <-> result_of (fst r) = Unanswered).
    { intros rt. cbv zeta. destruct (matched inc rt) as [p |]; [| apply IH].
      destruct (handle rev docs rt inc p w) as [[a |] w']; [| apply IH].
      cbn. split; discriminate. }
    destruct l as [p | | | rt | rt].
    + destruct (passes inc p); [apply IH | cbn; split; discriminate].
    + destruct (under_docs inc && negb (passes inc SwaggerUi));
        [cbn; split; discriminate | apply IH].
    + destruct Hn. now left.
    + apply Hroute.
    + destruct (is_get (method (asked inc))); [apply Hroute | apply IH].
Qed.

(** Only the handlers of the two status routes touch the world. *)
Lemma run_world (rev : revision) (docs : documents) (inc : incoming)
  (ls : list layer) :
  forall tagged w,
    (exists a, result_of (fst (run rev docs ls inc tagged w))
               = Answered Code a) \/
    (exists a, result_of (fst (run rev docs ls inc tagged w))
               = Answered RandomRange a) \/
    snd (run rev docs ls inc tagged w) = w.
Proof.
  induction ls as [| l ls IH]; intros tagged w.
  - right. right. reflexivity.
  - rewrite run_cons. cbv zeta.
    assert (Hroute : forall rt,
              let r := match matched inc rt with
                       | Some p =>
                           match handle rev docs rt inc p w with
                           | (Some a, w') =>
                               ({| result_of := Answered rt a;
                                   robots := tagged |}, w')
                           | (None, w') => run rev docs ls inc tagged w'
                           end
                       | None => run rev docs ls inc tagged w
                       end in
              (exists a, result_of (fst r) = Answered Code a) \/
              (exists a, result_of (fst r) = Answered RandomRange a) \/
              snd r = w).
    { intros rt. cbv zeta. destruct (matched inc rt) as [p |]; [| apply IH].
      destruct rt; try (cbn; right; right; reflexivity).
      - rewrite handle_Code.
        pose proof (code_next_world (code_endpoint rev)
                      (with_param p (asked inc)) w (code_endpoint_In rev))
          as Hw.
        destruct (fst (handler (code_endpoint rev)
                         (with_param p (asked inc)) w)) as [| sc pl].
        + cbn [replied]. rewrite Hw by reflexivity. apply IH.
        + cbn. left. eauto.
      - rewrite handle_RandomRange.
        pose proof (random_responds (random_endpoint rev)
                      (with_param p (asked inc)) w (random_endpoint_In rev))
          as Hr.
        destruct (fst (handler (random_endpoint rev)
                         (with_param p (asked inc)) w)) as [| sc pl];
          [contradiction |].
        cbn. right. left. eauto. }
    destruct l as [p | | | rt | rt].
    + destruct (passes inc p); [apply IH | right; right; reflexivity].
    + destruct (under_docs inc && negb (passes inc SwaggerUi));
        [right; right; reflexivity | apply IH].
    + apply IH.
    + apply Hroute.
    + destruct (is_get (method (asked inc))); [apply Hroute | apply IH].
Qed.

(** A route answers only a request that matches it, and one registered
    with [app.get] only a GET or HEAD request. *)
Lemma run_answered (rev : revision) (docs : documents) (inc : incoming)
  (ls : list layer) :
  forall tagged w r a,
    result_of (fst (run rev docs ls inc tagged w)) = Answered r a ->
    matched inc r <> None /\
    (In (All r) ls \/
     (In (Get r) ls /\ is_get (method (asked inc)) = true)).
Proof.
  induction ls as [| l ls IH]; intros tagged w r a.
  - discriminate.
  - rewrite run_cons. cbv zeta.
    assert (Hrest : forall tagged w,
              result_of (fst (run rev docs ls inc tagged w)) = Answered r a ->
              matched inc r <> None /\
              (In (All r) (l :: ls) \/
               (In (Get r) (l :: ls) /\ is_get (method (asked inc)) = true))).
    { intros t' w' H. destruct (IH t' w' r a H) as (Hm & [Ha | [Hg Hi]]).
      - split; [exact Hm | left; now right].
      - split; [exact Hm | right; split; [now right | exact Hi]]. }
    destruct l as [p | | | rt | rt].
    + destruct (passes inc p); [apply Hrest | discriminate].
    + destruct (under_docs inc && negb (passes inc SwaggerUi));
        [discriminate | apply Hrest].
    + apply Hrest.
    + destruct (matched inc rt) as [p |] eqn:Em; [| apply Hrest].
      destruct (handle rev docs rt inc p w) as [[a' |] w']; [| apply Hrest].
      cbn. intros [= <- <-]. split; [congruence | left; now left].
    + destruct (is_get (method (asked inc))) eqn:Eg; [| apply Hrest].
      destruct (matched inc rt) as [p |] eqn:Em; [| apply Hrest].
      destruct (handle rev docs rt inc p w) as [[a' |] w']; [| apply Hrest].
      cbn. intros [= <- <-]. split; [congruence |].
      right. split; [now left | reflexivity].
Qed.

Lemma routed_responds (ep : endpoint) (req : request) (w : world) :
  In ep endpoints -> routed ep req = true ->
  exists sc pl, fst (handler ep req w) = Respond sc pl.
Proof.
  intros Hall Hr. destruct (valid ep req) eqn:Hv.
  - destruct (handler_run ep req w Hall Hr Hv)
      as (_ & _ & sc & _ & _ & _ & Hs & _).
    destruct (fst (handler ep req w)) as [| s pl]; [discriminate | eauto].
  - destruct (handler_reject ep req w Hall Hr Hv) as (clocked & E).
    rewrite E. cbn [fst].
    destruct Hall as [<- | [<- | [<- | [<- | []]]]]; eexists _, _; reflexivity.
Qed.

End AppFacts.

(* ================================================================== *)
(** * Further properties of the code *)
(* ================================================================== *)

Import Setup Written App Samples Described Kept SizeFacts WrittenFacts
  StatusFacts BodyFacts RevisionFacts ParseFacts SetupFacts DrawFacts
  AppFacts.

(** X1.  Whatever the request, a reply of the four status handlers
    carries an integer status from 100 to 599 -- the code asked for, a
    code of the parsed range, or 400 -- and the single-code handler may
    pass the request on instead; the redirect handler answers with 400
    or with an integer from 300 to 308.  The path parameter is taken
    shorter than [2 ^ 32] code units, which keeps the parsed sequence
    below [2 ^ 53] elements. *)
Theorem replies_carry_valid_status (req : request) (w : world) :
  Z.of_nat (List.length (param req)) < 2 ^ 32 ->
  (forall ep, In ep endpoints ->
     fst (handler ep req w) = Next \/
     exists c p, 100 <= c <= 599 /\
       fst (handler ep req w) = Respond (JNum (int c)) p) /\
  (exists c p, (c = 400 \/ 300 <= c <= 308) /\
     redirect req = Respond (JNum (int c)) p).
Proof.
  intros Hlen. split.
  - intros ep Hep. destruct (routed ep req) eqn:Hr.
    2:{ left. now rewrite unrouted_next. }
    right. destruct (valid ep req) eqn:Hv.
    + destruct (accepted_status ep req w Hep Hr Hv) as (c & Hc & Hs & _);
        [now apply parsed_length_small |].
      destruct (respond_of_status _ _ Hs) as (p & E). now exists c, p.
    + destruct (handler_reject ep req w Hep Hr Hv) as (clocked & E).
      destruct (rejection_400 ep Hep) as (msg & Em).
      exists 400, (Send msg). rewrite E. split; [lia | exact Em].
  - unfold redirect. cbv zeta. cbn [Number]. rewrite redirect_guard.
    destruct (Spec.redirect_code (param req)) eqn:Hc; cbn [negb].
    + destruct (truthy (to req)); cbn [negb].
      * destruct (redirect_code_int _ Hc) as (c & Hr & E).
        cbn [Number] in E. rewrite E. exists c, (Redirect (to req)). auto.
      * eexists 400, _. split; [now left | reflexivity].
    + eexists 400, _. split; [now left | reflexivity].
Qed.

Lemma replies_carry_valid_status_witness :
  (fst (Rev2.handleRandom (get (js "200,abc,9999")) world0) = Next \/
   exists c p, 100 <= c <= 599 /\
     fst (Rev2.handleRandom (get (js "200,abc,9999")) world0)
     = Respond (JNum (int c)) p) /\
  (fst (Rev1.handleCode (get (js "health")) world0) = Next \/
   exists c p, 100 <= c <= 599 /\
     fst (Rev1.handleCode (get (js "health")) world0)
     = Respond (JNum (int c)) p).
Proof.
  split.
  - apply (proj1 (replies_carry_valid_status (get (js "200,abc,9999")) world0
                    ltac:(vm_compute; reflexivity)) random2).
    right. right. right. left. reflexivity.
  - apply (proj1 (replies_carry_valid_status (get (js "health")) world0
                    ltac:(vm_compute; reflexivity)) code1).
    left. reflexivity.
Defined.

(** X2.  The range parser yields at most 500 codes for a segment: the
    parsed sequence is no longer than 500 times the number of segments,
    which is one more than the number of commas, and so no longer than
    500 times the length of the text plus one.  The bound is reached:
    ["100-599"] gives 500 codes, and twice that when written twice. *)
Theorem range_size_bound :
  (forall s,
     (List.length (parseStatusCodeRange s)
      <= 500 * S (count_occ Z.eq_dec s 44%Z))%nat) /\
  (forall s,
     (List.length (parseStatusCodeRange s) <= 500 * S (List.length s))%nat) /\
  List.length (parseStatusCodeRange (js "100-599")) = 500%nat /\
  List.length (parseStatusCodeRange (js "100-599,100-599")) = 1000%nat.
Proof.
  split; [apply parsed_length |]. split.
  - intros s. pose proof (parsed_length s).
    pose proof (count_occ_bound Z.eq_dec 44 s).
    unfold jsstring, char in *. lia.
  - split; vm_compute; reflexivity.
Qed.

(** X3.  Writing and parsing go round: a list of valid codes, written
    as their decimal texts between commas, parses back to the same
    list, in the same order, duplicates kept. *)
Theorem code_list_round_trip (cs : list Z) :
  Forall (fun c => 100 <= c <= 599) cs ->
  parseStatusCodeRange (code_list cs) = map int cs.
Proof. apply parse_code_list. Qed.

Lemma code_list_round_trip_witness :
  parseStatusCodeRange (code_list [200; 201; 599; 200])
  = map int [200; 201; 599; 200].
Proof.
  apply (code_list_round_trip [200; 201; 599; 200]).
  repeat (apply Forall_cons; [lia |]). apply Forall_nil.
Defined.

(** X4.  A range written [a-b] with valid ends parses to the integers
    from [a] to [b]: [b - a + 1] codes when [a <= b], none when
    [b < a]. *)
Theorem code_range_expands (a b : Z) :
  100 <= a <= 599 -> 100 <= b <= 599 ->
  parseStatusCodeRange (code_range a b) = map int (Spec.inclusive a b) /\
  (a <= b ->
   List.length (parseStatusCodeRange (code_range a b))
   = Z.to_nat (b - a + 1)) /\
  (b < a -> parseStatusCodeRange (code_range a b) = []).
Proof.
  intros Ha Hb. pose proof (parse_code_range a b Ha Hb) as E.
  split; [exact E | split].
  - intros _. rewrite E, length_map. apply upto_length.
  - intros Hlt. now rewrite E, inclusive_reversed.
Qed.

Lemma code_range_expands_witness :
  parseStatusCodeRange (code_range 500 504)
  = map int (Spec.inclusive 500 504) /\
  Spec.inclusive 500 504 = [500; 501; 502; 503; 504] /\
  parseStatusCodeRange (code_range 504 500) = [].
Proof.
  split; [apply (code_range_expands 500 504); lia |].
  split; [reflexivity |].
  apply (code_range_expands 504 500); lia.
Defined.

(** X5.  Hyphens out of place.  A segment that starts with a hyphen
    yields no code, so a negative number never does.  A segment whose
    first hyphen is its last character, or is followed at once by
    another hyphen, yields none either: its end is the Number of the
    empty text, zero.  And what follows a second hyphen is ignored:
    [a-b-rest] parses as [a-b] does, so ["200-202-"], which ends with a
    hyphen, gives 200, 201 and 202. *)
Theorem hyphen_segments :
  (forall s : jsstring, ~ In 44 s -> parseStatusCodeRange (45 :: s) = []) /\
  (forall s : jsstring, ~ In 44 s -> ~ In 45 s ->
     parseStatusCodeRange (s ++ [45]) = []) /\
  (forall a b rest : jsstring,
     ~ In 44 (a ++ b ++ rest) -> ~ In 45 a -> ~ In 45 b ->
     parseStatusCodeRange (a ++ 45 :: b ++ 45 :: rest)
     = parseStatusCodeRange (a ++ 45 :: b)) /\
  (forall s rest : jsstring, ~ In 44 (s ++ rest) -> ~ In 45 s ->
     parseStatusCodeRange (s ++ 45 :: 45 :: rest) = []) /\
  parseStatusCodeRange (js "200-202-") = map int [200; 201; 202] /\
  parseStatusCodeRange (js "200--202") = [].
Proof.
  assert (Hinc : forall x y : jsstring,
            includes (x ++ 45 :: y) (js "-") = true).
  { intros x y. apply (includes_char _ 45), in_or_app. right. now left. }
  assert (Hzero : forall x : number,
            (if isInteger (int 0) && isInteger x && le (int 0) x
                && isValidStatusCode (int 0) && isValidStatusCode x
             then push_range 500 (int 0) x
             else []) = []).
  { intros x. rewrite (isValidStatusCode_int 0).
    cbn [Z.leb Z.compare andb]. now rewrite andb_false_r. }
  assert (Hcut : forall a b rest : jsstring,
            ~ In 44 (a ++ b ++ rest) -> ~ In 45 a -> ~ In 45 b ->
            parseStatusCodeRange (a ++ 45 :: b ++ 45 :: rest)
            = parseStatusCodeRange (a ++ 45 :: b)).
  { intros a b rest H44 Ha Hb.
    assert (Hna : ~ In 44 a) by (intro H; apply H44, in_or_app; now left).
    assert (Hnb : ~ In 44 b).
    { intro H. apply H44, in_or_app. right. apply in_or_app. now left. }
    assert (Hnr : ~ In 44 rest).
    { intro H. apply H44, in_or_app. right. apply in_or_app. now right. }
    rewrite !parseStatusCodeRange_segment.
    - unfold parsePart.
      replace (includes (a ++ 45 :: b ++ 45 :: rest) (js "-")) with true
        by (symmetry; apply Hinc).
      replace (includes (a ++ 45 :: b) (js "-")) with true
        by (symmetry; apply Hinc).
      destruct (split_two a b rest Ha Hb) as (more & E).
      replace (split 45 (a ++ 45 :: b ++ 45 :: rest)) with (a :: b :: more).
      replace (split 45 (a ++ 45 :: b)) with [a; b]
        by (now rewrite split_app, !split_none by assumption).
      reflexivity.
    - intros H. apply in_app_or in H.
      destruct H as [H | [E | H]];
        [contradiction | discriminate | contradiction].
    - intros H. apply in_app_or in H.
      destruct H as [H | [E | H]]; [contradiction | discriminate |].
      apply in_app_or in H.
      destruct H as [H | [E | H]];
        [contradiction | discriminate | contradiction]. }
  assert (Hend : forall s : jsstring, ~ In 44 s -> ~ In 45 s ->
            parseStatusCodeRange (s ++ [45]) = []).
  { intros s H44 H45. rewrite parseStatusCodeRange_segment.
    2:{ intros H. apply in_app_or in H.
        destruct H as [H | [E | []]]; [contradiction | discriminate]. }
    unfold parsePart. replace (includes (s ++ [45]) (js "-")) with true
      by (symmetry; apply (Hinc s [])).
    replace (split 45 (s ++ [45])) with [s; []]
      by (now rewrite split_app, split_none by exact H45).
    cbn [map]. change (Number (JStr [])) with (int 0).
    rewrite (isValidStatusCode_int 0). cbn [Z.leb Z.compare andb].
    now rewrite !andb_false_r. }
  split; [| split; [exact Hend | split; [exact Hcut | split]]].
  - intros s H44. rewrite parseStatusCodeRange_segment
      by (intros [E | H]; [discriminate | contradiction]).
    unfold parsePart. replace (includes (45 :: s) (js "-")) with true
      by (symmetry; apply (Hinc [] s)).
    change (split 45 (45 :: s)) with ([] :: split 45 s).
    destruct (split 45 s) as [| p ps]; [reflexivity |].
    cbn [map]. change (Number (JStr [])) with (int 0). apply Hzero.
  - intros s rest H44 H45.
    pose proof (Hcut s [] rest H44 H45 (fun H => H)) as Hc.
    cbn [app] in Hc. rewrite Hc.
    apply Hend; [| exact H45].
    intro H. apply H44, in_or_app. now left.
  - split; vm_compute; reflexivity.
Qed.

Lemma hyphen_segments_witness :
  parseStatusCodeRange (js "-200") = [] /\
  parseStatusCodeRange (js "200-") = [] /\
  parseStatusCodeRange (js "200-202-x")
  = parseStatusCodeRange (js "200-202") /\
  parseStatusCodeRange (js "200--") = [].
Proof.
  split; [| split; [| split]].
  - apply (proj1 hyphen_segments (js "200")).
    vm_compute. intuition discriminate.
  - apply (proj1 (proj2 hyphen_segments) (js "200"));
      vm_compute; intuition discriminate.
  - apply (proj1 (proj2 (proj2 hyphen_segments))
             (js "200") (js "202") (js "x"));
      vm_compute; intuition discriminate.
  - apply (proj1 (proj2 (proj2 (proj2 hyphen_segments))) (js "200") []);
      vm_compute; intuition discriminate.
Defined.

(** X6.  On both revisions the random endpoint, asked for a written
    list of valid codes, answers with one of them, and asked for a
    range [a-b] with [100 <= a <= b <= 599], with a code from [a] to
    [b]. *)
Theorem random_answers_written (ep : endpoint) (req : request) (w : world) :
  In ep randomEndpoints ->
  (forall cs, cs <> [] -> Forall (fun c => 100 <= c <= 599) cs ->
     Z.of_nat (List.length cs) < 2 ^ 53 ->
     param req = code_list cs ->
     exists c, In c cs /\
       status_of (fst (handler ep req w)) = Some (JNum (int c))) /\
  (forall a b, 100 <= a -> a <= b -> b <= 599 ->
     param req = code_range a b ->
     exists c, a <= c <= b /\
       status_of (fst (handler ep req w)) = Some (JNum (int c))).
Proof.
  intros Hep.
  assert (Hall : In ep endpoints).
  { destruct Hep as [<- | [<- | []]];
      [right; now left | right; right; right; now left]. }
  assert (Hr : routed ep req = true).
  { destruct Hep as [<- | [<- | []]]; reflexivity. }
  assert (Hgen : forall zs, zs <> [] -> Z.of_nat (List.length zs) < 2 ^ 53 ->
            parseStatusCodeRange (param req) = map int zs ->
            exists c, In c zs /\
              status_of (fst (handler ep req w)) = Some (JNum (int c))).
  { intros zs Hne Hlen E.
    assert (Hv : valid ep req = true).
    { apply not_false_is_true. intro Hv.
      apply (valid_range_iff ep req Hep) in Hv. rewrite Hv in E.
      destruct zs; [contradiction | discriminate]. }
    destruct (accepted_status ep req w Hall Hr Hv) as (c & _ & Hs & _ & Hin).
    { now rewrite E, length_map. }
    specialize (Hin Hep). rewrite E in Hin. apply in_map_iff in Hin.
    destruct Hin as (z & Ez & Hz). apply int_inj in Ez. subst z.
    now exists c. }
  split.
  - intros cs Hne Hcs Hlen E. apply Hgen; auto.
    rewrite E. now apply parse_code_list.
  - intros a b Ha Hab Hb E.
    destruct (Hgen (Spec.inclusive a b)) as (c & Hin & Hs).
    + unfold Spec.inclusive.
      replace (Z.to_nat (b - a + 1)) with (S (Z.to_nat (b - a))) by lia.
      discriminate.
    + unfold Spec.inclusive. rewrite upto_length.
      change (2 ^ 53) with 9007199254740992. lia.
    + rewrite E. apply parse_code_range; lia.
    + exists c. split; [| exact Hs].
      apply In_upto in Hin. lia.
Qed.

Lemma random_answers_written_witness :
  exists c, 500 <= c <= 504 /\
    status_of (fst (Rev2.handleRandom (get (code_range 500 504)) world0))
    = Some (JNum (int c)).
Proof.
  apply (proj2 (random_answers_written random2 (get (code_range 500 504))
                  world0 (or_intror (or_introl eq_refl))) 500 504);
    [lia | lia | lia | reflexivity].
Defined.

(** X7.  No code of a range is out of reach: for every element of
    the parsed sequence (of at most [2 ^ 52] codes) there is a value of
    the random source with which the random endpoint answers with
    it. *)
Theorem every_listed_code_can_be_drawn (ep : endpoint) (req : request)
  (w : world) (c : number) :
  In ep randomEndpoints ->
  In c (parseStatusCodeRange (param req)) ->
  Z.of_nat (List.length (parseStatusCodeRange (param req))) <= 2 ^ 52 ->
  exists k, 0 <= k < 2 ^ 53 /\
    status_of (fst (handler ep req (seeded k w))) = Some (JNum c).
Proof.
  intros Hep Hin Hlen.
  destruct (In_nth_error _ _ Hin) as (i & Hi).
  destruct (pick_at _ i c Hi Hlen) as (k & Hk & Hp).
  exists k. split; [exact Hk |].
  assert (Hv : valid ep req = true).
  { apply not_false_is_true. intro Hv.
    apply (valid_range_iff ep req Hep) in Hv. rewrite Hv in Hin.
    destruct Hin. }
  destruct (random_accept ep req (seeded k w) Hep Hv) as (Hs & _).
  rewrite Hs. cbn [entropy seeded]. now rewrite Hp.
Qed.

Lemma every_listed_code_can_be_drawn_witness :
  exists k, 0 <= k < 2 ^ 53 /\
    status_of (fst (Rev2.handleRandom (get (js "200,404,500-504"))
                      (seeded k world0)))
    = Some (JNum (int 503)).
Proof.
  apply (every_listed_code_can_be_drawn random2 (get (js "200,404,500-504"))
           world0 (int 503) (or_intror (or_introl eq_refl))).
  - vm_compute. tauto.
  - vm_compute. discriminate.
Defined.

(** X8.  On a path value that is one valid code, with no comma and no
    hyphen, the range parses to that code alone and the random endpoint
    of each revision replies exactly as its single-code endpoint does
    to the same request in the same world. *)
Theorem random_on_one_code (req : request) (w : world) :
  ~ In 44 (param req) -> ~ In 45 (param req) ->
  isValidStatusCode (JStr (param req)) = true ->
  parseStatusCodeRange (param req) = [Number (JStr (param req))] /\
  fst (Rev1.handleRandom req w) = fst (Rev1.handleCode req w) /\
  fst (Rev2.handleRandom req w) = fst (Rev2.handleCode req w).
Proof.
  intros H44 H45 Hv.
  assert (E : parseStatusCodeRange (param req) = [Number (JStr (param req))]).
  { rewrite parseStatusCodeRange_segment by exact H44. unfold parsePart.
    replace (includes (param req) (js "-")) with false.
    2:{ symmetry. apply not_true_is_false. intro H.
        now apply (includes_char (param req) 45) in H. }
    cbv zeta. unfold isValidStatusCode in *. cbn [Number] in *.
    now rewrite Hv. }
  destruct (valid_not_reserved _ Hv) as [Hn1 Hn2].
  split; [exact E | split].
  - rewrite Rev1_handleRandom_run, Rev1_handleCode_run.
    + cbn [fst]. now rewrite E, pick_one.
    + cbn [routed code1]. now rewrite Hn1.
    + exact Hv.
    + cbn [valid random1]. unfold validRangeParam. now rewrite E.
  - rewrite Rev2_handleRandom_run, Rev2_handleCode_run.
    + cbn [fst]. rewrite E, pick_one, now_after_delay_emit. reflexivity.
    + cbn [routed code2]. now rewrite Hn2.
    + exact Hv.
    + cbn [valid random2]. unfold validRangeParam. now rewrite E.
Qed.

Lemma random_on_one_code_witness :
  fst (Rev2.handleRandom (with_sleep (js "100") (get (js "404"))) world0)
  = fst (Rev2.handleCode (with_sleep (js "100") (get (js "404"))) world0).
Proof.
  apply (random_on_one_code (with_sleep (js "100") (get (js "404"))) world0).
  - vm_compute. intuition discriminate.
  - vm_compute. intuition discriminate.
  - vm_compute. reflexivity.
Defined.

(** X9.  The body of the request.  With no [body] query parameter, a
    POST, PUT or PATCH request whose parsed body is a non-empty object
    or array is answered with that body as JSON; with any other method,
    or with an empty or absent body, there is no custom body, and the
    handler does what it does for the same request sent with GET and no
    body. *)
Theorem request_body_reply (ep : endpoint) (req : request) (w : world) :
  In ep endpoints -> routed ep req = true -> valid ep req = true ->
  bodyParam req = JUndefined ->
  (array_includes [js "POST"; js "PUT"; js "PATCH"] (method req) = true ->
   (forall m, m <> [] -> body req = JObj m ->
      payload_of (fst (handler ep req w)) = Some (Json (JObj m))) /\
   (forall l, l <> [] -> body req = JArr l ->
      payload_of (fst (handler ep req w)) = Some (Json (JArr l)))) /\
  (array_includes [js "POST"; js "PUT"; js "PATCH"] (method req) = false \/
   body req = JObj [] \/ body req = JArr [] \/ body req = JUndefined ->
   customBody req = JUndefined /\
   handler ep req w = handler ep (sent (js "GET") (JObj []) req) w).
Proof.
  intros Hep Hr Hv Hb. pose proof (customBody_request req Hb) as Ec.
  split.
  - intros Hm. rewrite Hm in Ec.
    destruct (handler_run ep req w Hep Hr Hv)
      as (_ & _ & sc & _ & _ & _ & _ & Hc).
    split.
    + intros m Hne E. rewrite E in Ec. destruct m as [| kv m]; [contradiction |].
      cbn in Ec. rewrite Hc by now rewrite Ec. now rewrite Ec.
    + intros l Hne E. rewrite E in Ec. destruct l as [| v l]; [contradiction |].
      cbn in Ec. rewrite Hc by now rewrite Ec. now rewrite Ec.
  - intros Hcase.
    assert (E : customBody req = JUndefined).
    { rewrite Ec. destruct Hcase as [-> | [-> | [-> | ->]]];
        [reflexivity | | |];
        now destruct (array_includes _ _). }
    split; [exact E |]. symmetry. apply handler_reads; auto.
    rewrite E. unfold customBody. cbn [bodyParam sent]. now rewrite Hb.
Qed.

Lemma request_body_reply_witness :
  payload_of
    (fst (Rev2.handleCode
            (sent (js "POST") (JObj [(js "a", JNum (int 1))]) (get (js "201")))
            world0))
  = Some (Json (JObj [(js "a", JNum (int 1))])) /\
  Rev1.handleRandom
    (sent (js "DELETE") (JObj [(js "a", JNum (int 1))]) (get (js "500-504")))
    world0
  = Rev1.handleRandom (get (js "500-504")) world0.
Proof.
  split.
  - apply (proj1 (proj1 (request_body_reply code2
             (sent (js "POST") (JObj [(js "a", JNum (int 1))])
                (get (js "201")))
             world0
             (or_intror (or_intror (or_introl eq_refl)))
             ltac:(vm_compute; reflexivity)
             ltac:(vm_compute; reflexivity)
             eq_refl)
           ltac:(vm_compute; reflexivity))
           [(js "a", JNum (int 1))]);
      [discriminate | reflexivity].
  - apply (proj2 (request_body_reply random1
             (sent (js "DELETE") (JObj [(js "a", JNum (int 1))])
                (get (js "500-504")))
             world0
             (or_intror (or_introl eq_refl))
             eq_refl
             ltac:(vm_compute; reflexivity)
             eq_refl)).
    left. vm_compute. reflexivity.
Defined.

(** X10.  The [body] query parameter comes first: when it is present
    the method and the body of the request make no difference to the
    custom body, to the reply or to the effects of the handler. *)
Theorem query_body_takes_precedence (ep : endpoint) (req : request)
  (w : world) (m : jsstring) (b : jsvalue) :
  In ep endpoints -> is_undefined (bodyParam req) = false ->
  customBody (sent m b req) = customBody req /\
  handler ep (sent m b req) w = handler ep req w.
Proof.
  intros Hep Hb. pose proof (customBody_sent m b req Hb) as E.
  split; [exact E |]. now apply handler_reads.
Qed.

Lemma query_body_takes_precedence_witness :
  Rev2.handleCode
    (sent (js "POST") (JObj [(js "a", JNum (int 1))])
       (with_body (js "hello") (get (js "200"))))
    world0
  = Rev2.handleCode (with_body (js "hello") (get (js "200"))) world0.
Proof.
  apply (query_body_takes_precedence code2
           (with_body (js "hello") (get (js "200"))) world0 (js "POST")
           (JObj [(js "a", JNum (int 1))])
           (or_intror (or_intror (or_introl eq_refl))) eq_refl).
Defined.

(** X11.  [tryParseJSON] returns [undefined] exactly when [JSON.parse]
    throws: [JSON.parse] never returns [undefined], so a value that was
    parsed is never taken for a failure. *)
Theorem tryParseJSON_undefined (str : jsvalue) :
  (tryParseJSON str = JUndefined <-> JSON_parse str = None) /\
  (forall v, JSON_parse str = Some v ->
     tryParseJSON str = v /\ v <> JUndefined).
Proof.
  pose proof (JSON_parse_defined str) as Hd. unfold tryParseJSON.
  destruct (JSON_parse str) as [v |].
  - split.
    + split; [intros -> | discriminate]. now destruct Hd.
    + intros v' [= <-]. split; [reflexivity | congruence].
  - split; [tauto | discriminate].
Qed.

Lemma tryParseJSON_undefined_witness :
  tryParseJSON (JStr (js "null")) = JNull /\ JNull <> JUndefined.
Proof.
  apply (proj2 (tryParseJSON_undefined (JStr (js "null"))) JNull).
  vm_compute. reflexivity.
Defined.

(** X12.  The table of definitions has fourteen entries, under the
    decimal texts of fourteen distinct valid codes; for a valid code
    the definition is non-empty exactly when the code is one of
    them. *)
Theorem described_codes :
  (forall c, 100 <= c <= 599 ->
     (getStatusDescription (JNum (int c)) <> [] <-> In c codes)) /\
  map fst statusDescriptions = map decimal codes /\
  NoDup (map fst statusDescriptions) /\
  Forall (fun c => 100 <= c <= 599) codes.
Proof.
  split; [| split; [| split]].
  - intros c Hc.
    assert (Hall : forallb
              (fun c =>
                 Bool.eqb (negb (is_empty (getStatusDescription (JNum (int c)))))
                   (existsb (Z.eqb c) codes))
              (Spec.inclusive 100 599) = true) by (vm_compute; reflexivity).
    rewrite forallb_forall in Hall. specialize (Hall c).
    rewrite Bool.eqb_true_iff in Hall.
    assert (Hin : In c (Spec.inclusive 100 599)).
    { apply upto_In. change (Z.of_nat (Z.to_nat (599 - 100 + 1))) with 500. lia. }
    specialize (Hall Hin).
    assert (Hex : existsb (Z.eqb c) codes = true <-> In c codes).
    { rewrite existsb_exists. split.
      - intros (x & Hx & E). apply Z.eqb_eq in E. now subst x.
      - intros H. exists c. split; [exact H | apply Z.eqb_refl]. }
    rewrite <- Hex, <- Hall.
    destruct (getStatusDescription (JNum (int c))); cbn; split; congruence.
  - vm_compute. reflexivity.
  - change (map fst statusDescriptions) with (map decimal codes).
    assert (Hd : forallb
              (fun p => negb (existsb (str_eqb (fst p)) (snd p)))
              ((fix tails (l : list jsstring) :=
                  match l with
                  | [] => []
                  | x :: l' => (x, l') :: tails l'
                  end) (map decimal codes)) = true) by (vm_compute; reflexivity).
    revert Hd. generalize (map decimal codes). intros l.
    induction l as [| x l IH]; intros Hd; [constructor |].
    cbn [forallb fst snd] in Hd. apply andb_true_iff in Hd.
    destruct Hd as [Hx Hl]. constructor; [| now apply IH].
    intros Hin. apply negb_true_iff in Hx.
    assert (existsb (str_eqb x) l = true); [| congruence].
    apply existsb_exists. exists x. split; [exact Hin | apply str_eqb_refl].
  - unfold codes. repeat (apply Forall_cons; [lia |]). apply Forall_nil.
Qed.

Lemma described_codes_witness :
  (getStatusDescription (JNum (int 418)) <> [] <-> In 418 codes) /\
  getStatusDescription (JNum (int 418)) = [].
Proof.
  split; [apply (proj1 described_codes 418); lia | vm_compute; reflexivity].
Defined.

(** X13.  The two revisions differ in the default reply only.  For the
    same request in the same world their random endpoints give the same
    status and await the same timers, and the same reply when a custom
    body is supplied; so do their single-code endpoints, the names
    [openapi.json] and [openapi.yaml] apart, which the earlier revision
    answers with 400 and the later one passes on. *)
Theorem revisions_agree (req : request) (w : world) :
  (~ In (param req) [js "openapi.json"; js "openapi.yaml"] ->
   status_of (fst (Rev1.handleCode req w))
   = status_of (fst (Rev2.handleCode req w)) /\
   timers (log (snd (Rev1.handleCode req w)))
   = timers (log (snd (Rev2.handleCode req w))) /\
   (is_undefined (customBody req) = false ->
    fst (Rev1.handleCode req w) = fst (Rev2.handleCode req w))) /\
  (status_of (fst (Rev1.handleRandom req w))
   = status_of (fst (Rev2.handleRandom req w)) /\
   timers (log (snd (Rev1.handleRandom req w)))
   = timers (log (snd (Rev2.handleRandom req w))) /\
   (is_undefined (customBody req) = false ->
    fst (Rev1.handleRandom req w) = fst (Rev2.handleRandom req w))) /\
  (In (param req) [js "openapi.json"; js "openapi.yaml"] ->
   fst (Rev1.handleCode req w) = invalidCode /\
   fst (Rev2.handleCode req w) = Next).
Proof.
  split; [| split].
  - intros Hn.
    assert (Er : routed code2 req = routed code1 req).
    { cbn [routed code1 code2]. f_equal.
      unfold array_includes, Rev1.reserved, Rev2.reserved. cbn [existsb].
      destruct (str_eqb (param req) (js "openapi.json")) eqn:E1.
      { apply str_eqb_eq in E1. destruct Hn. now left. }
      destruct (str_eqb (param req) (js "openapi.yaml")) eqn:E2.
      { apply str_eqb_eq in E2. destruct Hn. right. now left. }
      reflexivity. }
    destruct (routed code1 req) eqn:Hr1.
    2:{ pose proof (code_unrouted code1 req w (or_introl eq_refl) Hr1) as U1.
        pose proof (code_unrouted code2 req w
                      (or_intror (or_introl eq_refl)) Er) as U2.
        cbn [handler code1 code2] in U1, U2. rewrite U1, U2.
        repeat split. }
    assert (Hv2 : valid code2 req = valid code1 req) by reflexivity.
    destruct (valid code1 req) eqn:Hv.
    + rewrite Rev1_handleCode_run, Rev2_handleCode_run by assumption.
      cbn [fst snd]. rewrite Rev1_reply_status, Rev2_reply_status.
      split; [reflexivity | split].
      * rewrite timers_clock. apply timers_after_delay.
        now rewrite timers_clock.
      * intros Hc. rewrite Hc. now apply Rev1_reply_custom.
    + rewrite Rev1_handleCode_reject, Rev2_handleCode_reject by assumption.
      cbn [fst snd]. rewrite timers_clock. repeat split.
  - destruct (valid random1 req) eqn:Hv.
    + rewrite Rev1_handleRandom_run, Rev2_handleRandom_run by assumption.
      cbn [fst snd]. rewrite Rev1_reply_status, Rev2_reply_status.
      split; [reflexivity | split].
      * rewrite timers_clock. apply timers_after_delay.
        now rewrite !timers_random, timers_clock.
      * intros Hc. rewrite Hc. now apply Rev1_reply_custom.
    + rewrite Rev1_handleRandom_reject, Rev2_handleRandom_reject by assumption.
      cbn [fst snd]. rewrite timers_clock. repeat split.
  - intros Hin.
    assert (H1 : routed code1 req = true /\ valid code1 req = false
                 /\ routed code2 req = false).
    { cbn [routed valid code1 code2]. unfold validCodeParam.
      destruct Hin as [<- | [<- | []]]; repeat split; vm_compute; reflexivity. }
    destruct H1 as (Hr1 & Hv1 & Hr2). split.
    + now rewrite Rev1_handleCode_reject.
    + pose proof (code_unrouted code2 req w
                    (or_intror (or_introl eq_refl)) Hr2) as U.
      cbn [handler code2] in U. now rewrite U.
Qed.

Lemma revisions_agree_witness :
  fst (Rev1.handleCode (with_body (js "[1]") (get (js "503"))) world0)
  = fst (Rev2.handleCode (with_body (js "[1]") (get (js "503"))) world0) /\
  fst (Rev1.handleCode (get (js "openapi.json")) world0) = invalidCode /\
  fst (Rev2.handleCode (get (js "openapi.json")) world0) = Next.
Proof.
  split.
  - apply (proj1 (revisions_agree (with_body (js "[1]") (get (js "503")))
                    world0)).
    + vm_compute. intuition discriminate.
    + vm_compute. reflexivity.
  - apply (proj2 (proj2 (revisions_agree (get (js "openapi.json")) world0))).
    left. reflexivity.
Defined.



(** X15.  Whatever the environment holds, the window of the rate
    limiter and its maximum are never [NaN] and never zero. *)
Theorem limiter_never_zero (env : environment) :
  truthy (JNum (rateLimitWindowMinutes env)) = true /\
  truthy (JNum (windowMs (limiter env))) = true /\
  truthy (JNum (Setup.max (limiter env))) = true /\
  isNaN (windowMs (limiter env)) = false /\
  isNaN (Setup.max (limiter env)) = false.
Proof.
  pose proof (int_setting_shape env (js "RATE_LIMIT_WINDOW_MINUTES") 15
                ltac:(discriminate)) as Hw.
  pose proof (int_setting_shape env (js "RATE_LIMIT_MAX") 100
                ltac:(discriminate)) as Hm.
  fold (rateLimitWindowMinutes env) in Hw. fold (rateLimitMax env) in Hm.
  pose proof (times_shape _ 1000 ltac:(lia)
                (times_shape _ 60 ltac:(lia) Hw)) as Hms.
  cbn [limiter windowMs Setup.max].
  split; [now apply shape_truthy |].
  split; [now apply shape_truthy |].
  split; [now apply shape_truthy |].
  split.
  - destruct Hms as [(b & ->) | (z & _ & ->)]; [reflexivity |].
    destruct (int_spec z) as (m & e & -> & _). reflexivity.
  - destruct Hm as [(b & ->) | (z & _ & ->)]; [reflexivity |].
    destruct (int_spec z) as (m & e & -> & _). reflexivity.
Qed.

(** X16.  The layer that sets the X-Robots-Tag header is registered
    last: the header is set exactly on the requests that no route and
    no package answers, and on no reply of the application's own
    handlers. *)
Theorem robots_tag_only_when_unanswered (rev : revision) (docs : documents)
  (inc : incoming) (w : world) :
  (robots (fst (serve rev docs inc w)) = true
   <-> result_of (fst (serve rev docs inc w)) = Unanswered) /\
  (forall r a, result_of (fst (serve rev docs inc w)) = Answered r a ->
     robots (fst (serve rev docs inc w)) = false) /\
  (forall p, result_of (fst (serve rev docs inc w)) = Ended p ->
     robots (fst (serve rev docs inc w)) = false).
Proof.
  assert (H : robots (fst (serve rev docs inc w)) = true
              <-> result_of (fst (serve rev docs inc w)) = Unanswered).
  { unfold serve, layers. rewrite app_assoc. apply run_tag.
    destruct rev; cbn; intuition discriminate. }
  split; [exact H | split].
  - intros r a E. apply not_true_is_false. intro Ht. apply H in Ht. congruence.
  - intros p E. apply not_true_is_false. intro Ht. apply H in Ht. congruence.
Qed.

Lemma robots_tag_only_when_unanswered_witness :
  robots (fst (serve Later {| as_json := []; as_yaml := [] |}
                 (one_segment (js "health") (get [])) world0)) = false /\
  result_of (fst (serve Later {| as_json := []; as_yaml := [] |}
                    (one_segment (js "health") (get [])) world0))
  = Answered Health (Reply health).
Proof.
  split; [| vm_compute; reflexivity].
  apply (proj1 (proj2 (robots_tag_only_when_unanswered Later
                         {| as_json := []; as_yaml := [] |}
                         (one_segment (js "health") (get [])) world0))
           Health (Reply health)).
  vm_compute. reflexivity.
Defined.

(** X17.  Only the handlers of [/:code] and [/random/:range] read
    the clock, await a timer or draw a random number: a request that
    ends in any other way leaves the world as it was. *)
Theorem effects_only_in_status_routes (rev : revision) (docs : documents)
  (inc : incoming) (w : world) :
  (exists a, result_of (fst (serve rev docs inc w)) = Answered Code a) \/
  (exists a, result_of (fst (serve rev docs inc w)) = Answered RandomRange a) \/
  snd (serve rev docs inc w) = w.
Proof. apply run_world. Qed.

(** X18.  A route answers only a request whose path matches it; the
    routes registered with [app.get] -- the root, the health check, the
    redirect and the two documents -- answer only GET and HEAD
    requests; and the earlier revision serves no document. *)
Theorem routes_answer_their_requests (rev : revision) (docs : documents)
  (inc : incoming) (w : world) (r : route) (a : answer) :
  result_of (fst (serve rev docs inc w)) = Answered r a ->
  matched inc r <> None /\
  (In r [Root; Health; RedirectCode; OpenapiJson; OpenapiYaml] ->
   is_get (method (asked inc)) = true) /\
  (rev = Earlier -> r <> OpenapiJson /\ r <> OpenapiYaml).
Proof.
  intros H. destruct (run_answered rev docs inc _ _ _ _ _ H) as (Hm & Hin).
  split; [exact Hm | split].
  - intros Hr. destruct Hin as [Ha | [_ Hg]]; [| exact Hg].
    exfalso. unfold layers in Ha.
    destruct rev; cbn in Ha;
      repeat (destruct Ha as [Ha | Ha];
              [try discriminate; injection Ha as <-;
               cbn in Hr; intuition discriminate |]);
      destruct Ha.
  - intros ->. unfold layers in Hin. cbn in Hin.
    split; intros ->; destruct Hin as [Ha | [Ha _]];
      repeat (destruct Ha as [Ha | Ha]; [discriminate |]); destruct Ha.
Qed.

Lemma routes_answer_their_requests_witness :
  matched (one_segment (js "health") (get [])) Health <> None /\
  (In Health [Root; Health; RedirectCode; OpenapiJson; OpenapiYaml] ->
   is_get (method (asked (one_segment (js "health") (get [])))) = true) /\
  (Later = Earlier -> Health <> OpenapiJson /\ Health <> OpenapiYaml).
Proof.
  apply (routes_answer_their_requests Later {| as_json := []; as_yaml := [] |}
           (one_segment (js "health") (get [])) world0 Health (Reply health)).
  vm_compute. reflexivity.
Defined.

(** X19.  The single-code route comes before the routes of the fixed
    names.  When the packages hand the request on, the root route does
    not take it and the path matches [/:code] with a parameter that is
    not a reserved name, the request is answered by the single-code
    handler, whatever later route the path matches too. *)
Theorem status_route_precedence (rev : revision) (docs : documents)
  (inc : incoming) (w : world) (p : jsstring) :
  (forall pk, passes inc pk = true) ->
  (is_get (method (asked inc)) = true -> matched inc Root = None) ->
  matched inc Code = Some p ->
  routed (code_endpoint rev) (with_param p (asked inc)) = true ->
  serve rev docs inc w
  = ({| result_of :=
          Answered Code
            (Reply (fst (handler (code_endpoint rev)
                           (with_param p (asked inc)) w)));
        robots := false |},
     snd (handler (code_endpoint rev) (with_param p (asked inc)) w)).
Proof.
  intros Hp Hroot Hm Hr. unfold serve, layers. cbn [app].
  do 3 (rewrite run_cons; cbv beta iota zeta; rewrite Hp; cbv iota).
  rewrite run_cons; cbv beta iota zeta.
  assert (Hall : In (code_endpoint rev) endpoints).
  { destruct rev; [now left | right; right; now left]. }
  destruct (routed_responds _ _ w Hall Hr) as (sc & pl & E).
  destruct (is_get (method (asked inc))) eqn:Eg;
    [rewrite (Hroot eq_refl) |];
    rewrite run_cons; cbv beta iota zeta;
    rewrite Hm, handle_Code, E; reflexivity.
Qed.

Lemma status_route_precedence_witness :
  serve Later {| as_json := []; as_yaml := [] |}
    (one_segment (js "HEALTH") (get [])) world0
  = ({| result_of :=
          Answered Code
            (Reply (fst (handler (code_endpoint Later)
                           (with_param (js "HEALTH")
                              (asked (one_segment (js "HEALTH") (get []))))
                           world0)));
        robots := false |},
     snd (handler (code_endpoint Later)
            (with_param (js "HEALTH")
               (asked (one_segment (js "HEALTH") (get [])))) world0)) /\
  fst (handler (code_endpoint Later)
         (with_param (js "HEALTH") (asked (one_segment (js "HEALTH") (get []))))
         world0)
  = invalidCode.
Proof.
  split; [| vm_compute; reflexivity].
  apply (status_route_precedence Later {| as_json := []; as_yaml := [] |}
           (one_segment (js "HEALTH") (get [])) world0 (js "HEALTH")).
  - reflexivity.
  - reflexivity.
  - reflexivity.
  - vm_compute. reflexivity.
Defined.
